(** * Jinjiang metadata plugin: a shallow embedding of the resolution pipeline

    The Python sources (src/__init__.py, src/single_test.py) are embedded as
    Rocq functions.  A Python [str] is the list of its code points; values
    decoded from JSON and the book dictionaries are terms of [pyval];
    HTTP traffic and calls between the stages are recorded in a trace.

    Part I holds the definitions, Part II the lemmas and theorems. *)

From Stdlib Require Import String Ascii DecimalString.
From Stdlib Require Import List NArith ZArith Bool Lia Permutation.
Import ListNotations.
Open Scope N_scope.

(* ================================================================== *)
(** * Part I.  Definitions *)
(* ================================================================== *)

(** ** Strings *)

(** A Python string is a sequence of Unicode code points. *)
Definition str := list N.

(** String literals of this file are written in UTF-8; [u] decodes the bytes
    of a literal into code points. *)
Fixpoint utf8_go (need : nat) (acc : N) (bs : list N) : str :=
  match bs with
  | [] => []
  | b :: r =>
      match need with
      | O =>
          if b <? 0x80 then b :: utf8_go 0 0 r
          else if b <? 0xE0 then utf8_go 1 (b - 0xC0) r
          else if b <? 0xF0 then utf8_go 2 (b - 0xE0) r
          else utf8_go 3 (b - 0xF0) r
      | S O => (acc * 64 + (b - 0x80)) :: utf8_go 0 0 r
      | S n => utf8_go n (acc * 64 + (b - 0x80)) r
      end
  end.

Definition u (s : String.string) : str :=
  utf8_go 0 0 (map N_of_ascii (String.list_ascii_of_string s)).

Definition str_eqb (a b : str) : bool :=
  if list_eq_dec N.eq_dec a b then true else false.

Definition in_range (lo hi c : N) : bool := (lo <=? c) && (c <=? hi).

Definition mem (c : N) (s : str) : bool := existsb (N.eqb c) s.

(** [str.isspace] on one code point (also the class [\s] of [re] on str
    patterns): the code points CPython's [Py_UNICODE_ISSPACE] accepts. *)
Definition isspace (c : N) : bool :=
  in_range 0x09 0x0D c || in_range 0x1C 0x20 c || (c =? 0x85) || (c =? 0xA0)
  || (c =? 0x1680) || in_range 0x2000 0x200A c || (c =? 0x2028)
  || (c =? 0x2029) || (c =? 0x202F) || (c =? 0x205F) || (c =? 0x3000).

Definition ascii_digit (c : N) : bool := in_range 0x30 0x39 c.
Definition ascii_upper (c : N) : bool := in_range 0x41 0x5A c.
Definition ascii_lower (c : N) : bool := in_range 0x61 0x7A c.
Definition ascii_alnum (c : N) : bool :=
  ascii_digit c || ascii_upper c || ascii_lower c.

(** The Unicode character database of the interpreter, beyond ASCII.  The
    tables are not part of the repository; the embedding takes them as an
    interface together with the facts about them that the proofs use. *)
Class UnicodeData := {
  (** [str.isalnum] of a code point >= 128 *)
  uni_alnum : N -> bool;
  (** the digit value of a code point >= 128 of category Nd ([\d], [int]) *)
  uni_decimal : N -> option N;
  (** [str.lower] of a string that is not pure ASCII *)
  uni_lower : str -> str;
  (** [str.capitalize] of a string that is not pure ASCII *)
  uni_capitalize : str -> str;
  (** [str.isdigit] of a code point >= 128 *)
  uni_isdigit : N -> bool;
  (** no alphanumeric character is white space *)
  uni_alnum_not_space : forall c, uni_alnum c = true -> isspace c = false
}.

Section Text.
Context {U : UnicodeData}.

Definition isalnum (c : N) : bool :=
  if c <? 128 then ascii_alnum c else uni_alnum c.

(** the class [\w] *)
Definition is_word (c : N) : bool := isalnum c || (c =? 0x5F).

(** [s.lstrip()], [s.rstrip()], [s.strip()] *)
Fixpoint lstrip (s : str) : str :=
  match s with
  | [] => []
  | x :: r => if isspace x then lstrip r else s
  end.

Fixpoint rstrip (s : str) : str :=
  match s with
  | [] => []
  | x :: r =>
      match rstrip r with
      | [] => if isspace x then [] else [x]
      | r' => x :: r'
      end
  end.

Definition strip (s : str) : str := rstrip (lstrip s).

(** [re.sub(P, ' ', s)] for a pattern [P = [class]+]: every maximal run of
    characters of the class becomes one space. *)
Fixpoint sub_runs_from (p : N -> bool) (in_run : bool) (s : str) : str :=
  match s with
  | [] => []
  | x :: r =>
      if p x then
        if in_run then sub_runs_from p true r
        else 0x20 :: sub_runs_from p true r
      else x :: sub_runs_from p false r
  end.

Definition sub_runs (p : N -> bool) (s : str) : str := sub_runs_from p false s.

(** [re.sub(r"O[^C]*C", '', s)] for two distinct characters [O] and [C]:
    scanning from the left, an [O] that has a [C] somewhere after it is
    deleted together with everything up to and including the first such [C];
    the scan resumes after it.  [inside] says that the scan is within a
    match. *)
Fixpoint sub_bracketed_from (o c : N) (inside : bool) (s : str) : str :=
  match s with
  | [] => []
  | x :: r =>
      if inside then
        if x =? c then sub_bracketed_from o c false r
        else sub_bracketed_from o c true r
      else if (x =? o) && mem c r then sub_bracketed_from o c true r
      else x :: sub_bracketed_from o c false r
  end.

Definition sub_bracketed (o c : N) (s : str) : str :=
  sub_bracketed_from o c false s.

(** [s.replace(old, new)] for a one-character [old]. *)
Definition replace_char (old : N) (new : str) (s : str) : str :=
  flat_map (fun x => if x =? old then new else [x]) s.

(** ** QueryNormalizer: [normalize_query] *)

Definition is_fullwidth (code : N) : bool :=
  (code =? 0x3000) || in_range 0xFF01 0xFF5E code.

Definition half_width (code : N) : N :=
  if code =? 0x3000 then 0x20
  else if in_range 0xFF01 0xFF5E code then code - 0xFEE0
  else code.

Definition full2half (s : str) : str := map half_width s.

(** the characters the class of step 4 keeps:
    [\w一-鿿　-〿\-\.:,' ] *)
Definition kept (c : N) : bool :=
  is_word c || in_range 0x4E00 0x9FFF c || in_range 0x3000 0x303F c
  || (c =? 0x2D) || (c =? 0x2E) || (c =? 0x3A) || (c =? 0x2C)
  || (c =? 0x27) || (c =? 0x20).

Definition strip_annotations (s : str) : str :=
  let s := sub_bracketed 0x28 0x29 s in       (* ( ) *)
  let s := sub_bracketed 0x5B 0x5D s in       (* [ ] *)
  let s := sub_bracketed 0xFF08 0xFF09 s in   (* fullwidth ( ) *)
  sub_bracketed 0x3010 0x3011 s.              (* lenticular brackets *)

Definition fold_punctuation (s : str) : str :=
  let s := replace_char 0xB7 [0x20] s in      (* middle dot *)
  let s := replace_char 0x2022 [0x20] s in    (* bullet *)
  let s := replace_char 0x30FB [0x20] s in    (* katakana middle dot *)
  let s := replace_char 0x2026 [0x20] s in    (* ellipsis *)
  let s := replace_char 0xFF1A [0x3A] s in    (* fullwidth colon *)
  let s := replace_char 0x3002 [0x2E] s in    (* ideographic full stop *)
  replace_char 0xFF0C [0x2C] s.               (* fullwidth comma *)

Definition collapse_spaces (s : str) : str := strip (sub_runs isspace s).

Definition normalize_query (s : str) : str :=
  match s with
  | [] => s
  | _ =>
      let s := full2half s in
      let s := strip_annotations s in
      let s := fold_punctuation s in
      let s := sub_runs (fun c => negb (kept c)) s in
      collapse_spaces s
  end.

(** ** Regular expressions

    The patterns of the source that backtrack are written with matchers in
    continuation-passing style: a matcher consumes a prefix of the text and
    hands the rest to its continuation; when the continuation fails, the
    matcher tries its next alternative, in the order of [re]: a greedy
    repetition gives characters back one by one. *)

(** [[class]*] and [[class]+], greedy; the continuation gets the matched
    text and the rest. *)
Fixpoint re_star {A} (p : N -> bool) (k : str -> str -> option A)
    (matched : str) (s : str) : option A :=
  match s with
  | x :: r =>
      if p x then
        match re_star p k (matched ++ [x]) r with
        | Some a => Some a
        | None => k matched s
        end
      else k matched s
  | [] => k matched []
  end.

Definition re_plus {A} (p : N -> bool) (k : str -> str -> option A)
    (s : str) : option A :=
  match s with
  | x :: r => if p x then re_star p k [x] r else None
  | [] => None
  end.

(** one character of a class *)
Definition re_one {A} (p : N -> bool) (k : str -> option A) (s : str)
    : option A :=
  match s with
  | x :: r => if p x then k r else None
  | [] => None
  end.

(** [$] without [re.M]: at the end, or before a newline that ends the text *)
Definition re_eol {A} (a : A) (s : str) : option A :=
  match s with
  | [] => Some a
  | [0x0A] => Some a
  | _ => None
  end.

(** alternatives, tried in order *)
Fixpoint re_alt {A} (ms : list ((str -> option A) -> str -> option A))
    (k : str -> option A) (s : str) : option A :=
  match ms with
  | [] => None
  | m :: ms' =>
      match m k s with
      | Some a => Some a
      | None => re_alt ms' k s
      end
  end.

(** The lower-case mapping [re.I] applies to a character of the text,
    on the code points it sends to an ASCII letter: the ASCII capitals,
    U+0130 and U+212A. *)
Definition lower_simple (c : N) : N :=
  if ascii_upper c then c + 32
  else if c =? 0x130 then 0x69
  else if c =? 0x212A then 0x6B
  else c.

(** [re.I]: a cased literal of the pattern matches the characters whose
    lower case is its lower case, and the literals i and s also match the
    dotless i (U+0131) and the long s (U+017F); a literal without case
    matches itself only. *)
Definition ci_eq (p c : N) : bool :=
  if ascii_upper p || ascii_lower p then
    let lo := lower_simple p in
    let lc := lower_simple c in
    (lc =? lo) || ((lo =? 0x69) && (lc =? 0x131))
    || ((lo =? 0x73) && (lc =? 0x17F))
  else c =? p.

(** a literal under [re.I] *)
Fixpoint re_lit_ci {A} (pat : str) (k : str -> option A) (s : str)
    : option A :=
  match pat with
  | [] => k s
  | p :: pat' =>
      match s with
      | x :: r => if ci_eq p x then re_lit_ci pat' k r else None
      | [] => None
      end
  end.

(** ** Decimal digits: [\d] and [int] *)

Definition decimal_value (c : N) : option N :=
  if c <? 128 then (if ascii_digit c then Some (c - 0x30) else None)
  else uni_decimal c.

Definition is_decimal (c : N) : bool :=
  match decimal_value c with Some _ => true | None => false end.

(** The interpreter's default limit on the number of digits of a numeral
    that [int] converts ([sys.int_info.default_max_str_digits]); the source
    does not change it. *)
Definition int_max_str_digits : nat := 4300.

(** the value of a string of decimal digits *)
Fixpoint int_digits_from (acc : N) (s : str) : option N :=
  match s with
  | [] => Some acc
  | x :: r =>
      match decimal_value x with
      | Some d => int_digits_from (10 * acc + d) r
      | None => None
      end
  end.

(** [int(s)] for a string of decimal digits; [None] stands for the
    [ValueError] that a string with any other character, the empty string,
    or a string of more digits than the limit (leading zeros count) raises.
    (Signs, white space and underscores do not occur where the source calls
    [int] on text.) *)
Definition int_of_digits (s : str) : option N :=
  match s with
  | [] => None
  | _ =>
      if (int_max_str_digits <? length s)%nat then None
      else int_digits_from 0 s
  end.

(** ** KeywordClassifier: [parse_search_keyword] *)

(** [SEARCH_TYPE_MAP] *)
Definition SEARCH_TYPE_book : N := 1.
Definition SEARCH_TYPE_author : N := 2.
Definition SEARCH_TYPE_protagonist : N := 4.
Definition SEARCH_TYPE_supporting : N := 5.
Definition SEARCH_TYPE_other : N := 6.
Definition SEARCH_TYPE_id : N := 7.

Definition SEARCH_TYPE_MAP_values : list N :=
  [SEARCH_TYPE_book; SEARCH_TYPE_author; SEARCH_TYPE_protagonist;
   SEARCH_TYPE_supporting; SEARCH_TYPE_other; SEARCH_TYPE_id].

Definition not_newline (c : N) : bool := negb (c =? 0x0A).

(** [re.match] of "^(?:t|type) \s* [:=] \s* (\d+) \s* ( .* ) $" on [q] with [re.I]:
    the groups 1 and 2 *)
Definition match_type_code (q : str) : option (str * str) :=
  re_alt [re_lit_ci (u "t"); re_lit_ci (u "type")]
    (re_star isspace (fun _ =>
     re_one (fun c => (c =? 0x3A) || (c =? 0x3D)) (
     re_star isspace (fun _ =>
     re_plus is_decimal (fun g1 =>
     re_star isspace (fun _ =>
     re_star not_newline (fun g2 => re_eol (g1, g2)) [])
     [])) [])) []) q.

(** [re.match] of "^(?:W1|W2|...)\s*[:：]\s*(.+)$" on [q] with [re.I]:
    the group 1 *)
Definition match_prefixed (words : list str) (q : str) : option str :=
  re_alt (map (fun w => re_lit_ci w) words)
    (re_star isspace (fun _ =>
     re_one (fun c => (c =? 0x3A) || (c =? 0xFF1A)) (
     re_star isspace (fun _ =>
     re_plus not_newline (fun g => re_eol g)) [])) []) q.

Fixpoint startswith (p s : str) : bool :=
  match p, s with
  | [], _ => true
  | a :: p', b :: s' => (a =? b) && startswith p' s'
  | _ :: _, [] => false
  end.

Definition endswith (p s : str) : bool := startswith (rev p) (rev s).

(** [s.strip(chars)] *)
Fixpoint lstrip_chars (chars : str) (s : str) : str :=
  match s with
  | [] => []
  | x :: r => if mem x chars then lstrip_chars chars r else s
  end.

Definition strip_chars (chars : str) (s : str) : str :=
  rev (lstrip_chars chars (rev (lstrip_chars chars s))).

(** [q[n:-1]] *)
Definition slice_inner (n : nat) (q : str) : str := removelast (skipn n q).

Definition parse_search_keyword (query : str) : str * N :=
  let search_type := SEARCH_TYPE_book in
  match query with
  | [] => (query, search_type)
  | _ =>
  let q := strip query in
  (* format 1; [None] of [int_of_digits] is the exception that the
     [try] discards *)
  let by_code :=
    match match_type_code q with
    | Some (g1, g2) =>
        match int_of_digits g1 with
        | Some tnum =>
            let rest := strip g2 in
            if existsb (N.eqb tnum) SEARCH_TYPE_MAP_values
            then Some (match rest with [] => query | _ => rest end, tnum)
            else None
        | None => None
        end
    | None => None
    end in
  match by_code with
  | Some res => res
  | None =>
  (* format 2 *)
  match match_prefixed [u "作者"; u "author"] q with
  | Some g => (strip g, SEARCH_TYPE_author)
  | None =>
  match match_prefixed [u "主角"; u "protagonist"] q with
  | Some g => (strip g, SEARCH_TYPE_protagonist)
  | None =>
  match match_prefixed [u "配角"; u "supporting"] q with
  | Some g => (strip g, SEARCH_TYPE_supporting)
  | None =>
  match match_prefixed [u "其它"; u "其他"; u "other"] q with
  | Some g => (strip g, SEARCH_TYPE_other)
  | None =>
  match match_prefixed [u "ID"; u "文章ID"; u "id"] q with
  | Some g => (strip g, SEARCH_TYPE_id)
  | None =>
  (* format 3 *)
  if startswith (u "#") q && endswith (u "#") q then
    (strip (strip_chars (u "#") q), SEARCH_TYPE_author)
  else if startswith (u "主角#") q && endswith (u "#") q then
    (strip (slice_inner 3 q), SEARCH_TYPE_protagonist)
  else if startswith (u "配角#") q && endswith (u "#") q then
    (strip (slice_inner 3 q), SEARCH_TYPE_supporting)
  else if startswith (u "其他#") q && endswith (u "#") q then
    (strip (slice_inner 3 q), SEARCH_TYPE_other)
  else if startswith (u "ID#") q && endswith (u "#") q then
    (strip (slice_inner 3 q), SEARCH_TYPE_id)
  else (query, search_type)
  end end end end end end
  end.

(** ** More operations on strings *)

Definition to_lower_ascii (c : N) : N := if ascii_upper c then c + 32 else c.
Definition to_upper_ascii (c : N) : N := if ascii_lower c then c - 32 else c.
Definition is_ascii (s : str) : bool := forallb (fun c => c <? 128) s.

(** [s.lower()] *)
Definition str_lower (s : str) : str :=
  if is_ascii s then map to_lower_ascii s else uni_lower s.

(** [s.capitalize()] *)
Definition str_capitalize (s : str) : str :=
  if is_ascii s then
    match s with
    | [] => []
    | x :: r => to_upper_ascii x :: map to_lower_ascii r
    end
  else uni_capitalize s.

(** [s.split(sep)] for a one-character separator *)
Fixpoint split_char (sep : N) (s : str) : list str :=
  match s with
  | [] => [[]]
  | x :: r =>
      match split_char sep r with
      | [] => [[]]     (* does not occur *)
      | p :: ps => if x =? sep then [] :: p :: ps else (x :: p) :: ps
      end
  end.

(** [sep.join(parts)] *)
Fixpoint join (sep : str) (parts : list str) : str :=
  match parts with
  | [] => []
  | [p] => p
  | p :: ps => p ++ sep ++ join sep ps
  end.

(** [s.replace(old, new)] for a non-empty [old]: the occurrences are
    replaced from the left, without overlap; [skip] counts the characters of
    an occurrence that are still to be passed over. *)
Fixpoint replace_from (old new : str) (skip : nat) (s : str) : str :=
  match s with
  | [] => []
  | x :: r =>
      match skip with
      | S k => replace_from old new k r
      | O =>
          if startswith old s
          then new ++ replace_from old new (length old - 1) r
          else x :: replace_from old new 0 r
      end
  end.

Definition replace (old new s : str) : str := replace_from old new 0 s.

(** [re.split(P, s)] for a pattern [P = [class]+]: the pieces between the
    maximal runs of characters of the class, the empty pieces at both ends
    included. *)
Fixpoint re_split_from (p : N -> bool) (in_run : bool) (s : str) : list str :=
  match s with
  | [] => [[]]
  | x :: r =>
      if p x then
        if in_run then re_split_from p true r
        else [] :: re_split_from p true r
      else
        match re_split_from p false r with
        | [] => [[x]]     (* does not occur *)
        | w :: ws => (x :: w) :: ws
        end
  end.

Definition re_split (p : N -> bool) (s : str) : list str :=
  re_split_from p false s.

(** [re.sub] of "<[^>]+>" by the empty string: a [<] followed by at least
    one character other than [>] and, later, by a [>] is deleted up to the
    first such [>]. *)
Fixpoint remove_tags_from (inside : bool) (s : str) : str :=
  match s with
  | [] => []
  | x :: r =>
      if inside then
        if x =? 0x3E then remove_tags_from false r
        else remove_tags_from true r
      else if (x =? 0x3C)
              && match r with
                 | y :: r' => negb (y =? 0x3E) && mem 0x3E r'
                 | [] => false
                 end
      then remove_tags_from true r
      else x :: remove_tags_from false r
  end.

Definition remove_tags (s : str) : str := remove_tags_from false s.

End Text.

(** ** Python values *)

(** The values that [json.loads] produces and that the book dictionaries
    hold.  A dictionary is the list of its items in insertion order, with
    distinct keys.  (Numbers with a fractional part are not modelled.) *)
#[warnings="-register-all"]
Inductive pyval :=
| PNone
| PBool (b : bool)
| PInt (z : Z)
| PStr (s : str)
| PList (l : list pyval)
| PDict (items : list (str * pyval)).

Definition pydict := list (str * pyval).

(** [bool(v)] *)
Definition truthy (v : pyval) : bool :=
  match v with
  | PNone => false
  | PBool b => b
  | PInt z => negb (z =? 0)%Z
  | PStr s => match s with [] => false | _ => true end
  | PList l => match l with [] => false | _ => true end
  | PDict d => match d with [] => false | _ => true end
  end.

(** [a or b] *)
Definition por (a b : pyval) : pyval := if truthy a then a else b.

Definition empty_str : pyval := PStr [].

(** [k in d], [d[k]], [d.get(k)], [d[k] = v] *)
Fixpoint dict_find (d : pydict) (k : str) : option pyval :=
  match d with
  | [] => None
  | (k', v) :: r => if str_eqb k' k then Some v else dict_find r k
  end.

Definition dict_get (d : pydict) (k : str) : pyval :=
  match dict_find d k with Some v => v | None => PNone end.

Fixpoint dict_set (d : pydict) (k : str) (v : pyval) : pydict :=
  match d with
  | [] => [(k, v)]
  | (k', v') :: r =>
      if str_eqb k' k then (k', v) :: r else (k', v') :: dict_set r k v
  end.

(** [obj.get(k)] where [obj] may be any value: [None] stands for the
    [AttributeError] of a value that is not a dictionary. *)
Definition get_attr (obj : pyval) (k : str) : option pyval :=
  match obj with
  | PDict d => Some (dict_get d k)
  | _ => None
  end.

Definition is_container (v : pyval) : bool :=
  match v with PList _ | PDict _ => true | _ => false end.

(** the nesting depth of a value *)
Fixpoint depth (v : pyval) : nat :=
  match v with
  | PList l => S (fold_right (fun x n => Nat.max (depth x) n) O l)
  | PDict d =>
      S (fold_right (fun kv n => Nat.max (match kv with (_, x) => depth x end) n)
           O d)
  | _ => O
  end.

(** [a == b] *)
Fixpoint py_eq (a b : pyval) : bool :=
  let num v := match v with
               | PBool true => Some 1%Z | PBool false => Some 0%Z
               | PInt z => Some z | _ => None end in
  match a, b with
  | PNone, PNone => true
  | PStr s, PStr t => str_eqb s t
  | PList l, PList m =>
      (fix eq_list (l : list pyval) (m : list pyval) : bool :=
         match l, m with
         | [], [] => true
         | x :: l', y :: m' => py_eq x y && eq_list l' m'
         | _, _ => false
         end) l m
  | PDict d, PDict e =>
      (length d =? length e)%nat
      && (fix sub_dict (d : pydict) : bool :=
            match d with
            | [] => true
            | (k, x) :: d' =>
                match dict_find e k with
                | Some y => py_eq x y && sub_dict d'
                | None => false
                end
            end) d
  | _, _ =>
      match num a, num b with
      | Some x, Some y => (x =? y)%Z
      | _, _ => false
      end
  end.

(** ** The interpreter's library and the network

    Library functions that the repository calls but does not define are
    taken as an interface.  [None] stands for a raised exception. *)
Class Runtime := {
  (** the optional package [html2text], when it is installed *)
  html2text_lib : option (str -> option str);
  (** [str(v)] of a list or a dictionary *)
  py_repr : pyval -> str;
  (** [json.loads] and [json.dumps(v, ensure_ascii=False)] *)
  json_loads : str -> option pyval;
  json_dumps : pyval -> str;
  (** [int(s)] of arbitrary text *)
  int_of_text : str -> option Z;
  (** [urllib.parse]: [urlencode], [unquote], and
      [parse_qs(urlparse(href).query)] *)
  urlencode : list (str * str) -> str;
  unquote : str -> str;
  query_params : str -> list (str * list str);
  (** the order in which a [set] built from the given strings is iterated:
      its distinct elements, in an order that the source does not control *)
  set_iteration : list str -> list str;
  set_iteration_NoDup : forall l, NoDup (set_iteration l);
  set_iteration_In : forall l x, In x (set_iteration l) <-> In x l;
  (** [datetime.fromtimestamp(ts).strftime('%Y-%m-%d')] in the local time
      zone, for [ts] seconds, or [ts] milliseconds divided by 1000 *)
  local_date : N -> bool -> option str
}.

(** *** The HTML library

    [lxml] is outside the repository.  A parsed page answers the XPath
    queries of [parse_book] with the elements they select; of an element
    the parser reads its text nodes, its [src] attribute, its tail and its
    next sibling. *)
Inductive xpath_query :=
| XTitle | XAuthor | XImage | XSummary | XTag | XPubdate.

Record element := {
  text_nodes : list str;                       (* [elem.xpath('.//text()')] *)
  attr_src : option str;                       (* [elem.attrib.get('src')] *)
  tail : option str;                           (* [elem.tail] *)
  next_sibling : option (bool * list str)      (* [elem.getnext()]: whether it
                                                  has children, its text nodes *)
}.

Record html_doc := {
  has_children : bool;                         (* the truth value of the root *)
  select : xpath_query -> list element
}.

Class HtmlLibrary := {
  (** [etree.HTML(text)]; the inner [None] is the value [None], the outer
      one a raised exception *)
  etree_HTML : str -> option (option html_doc)
}.

(** What the pipeline does to the outside world, and the calls between its
    stages that the orchestration properties speak about. *)
Inductive event :=
| EvHttpGet (url : str)
| EvLoadBook (url : str)
| EvSearchBooks (query : str)
| EvSearchUrls (query : str).

Definition trace := list event.

(** An HTTP response: its status and the text [get_res_content] decodes
    from it ([None] when decompressing or decoding raises). *)
Record response := { status : N; content : option str }.

(** The platform: what [urlopen] answers to a GET, given what happened
    before; [None] when it raises.  (The request headers, which carry a
    random user agent, are not modelled.) *)
Class Network := {
  urlopen : trace -> str -> option response;
  (** the order in which the results of the tasks of a pool arrive *)
  as_completed : list (option (list (str * pyval))) ->
                 list (option (list (str * pyval)));
  as_completed_perm : forall l, Permutation (as_completed l) l
}.

(** Computations that extend the trace. *)
Definition M (A : Type) : Type := trace -> A * trace.

Definition ret {A} (a : A) : M A := fun tr => (a, tr).

Definition bind {A B} (m : M A) (f : A -> M B) : M B :=
  fun tr => let (a, tr') := m tr in f a tr'.

Definition emit (e : event) : M unit := fun tr => (tt, tr ++ [e]).

Notation "x <- m ;; f" := (bind m (fun x => f))
  (at level 61, m at next level, right associativity).

Notation "m ;;; f" := (bind m (fun _ => f))
  (at level 61, right associativity).

Definition http_get `{Network} (url : str) : M (option response) :=
  fun tr => (urlopen tr url, tr ++ [EvHttpGet url]).

Definition status_ok (r : response) : bool :=
  (status r =? 200) || (status r =? 201).

Section Pipeline.
Context {U : UnicodeData} {R : Runtime} {L : HtmlLibrary} {W : Network}.

(** [str(v)] *)
Definition str_of_Z (z : Z) : str :=
  u (NilZero.string_of_int (Z.to_int z)).

Definition py_str (v : pyval) : str :=
  match v with
  | PNone => u "None"
  | PBool true => u "True"
  | PBool false => u "False"
  | PInt z => str_of_Z z
  | PStr s => s
  | PList _ | PDict _ => py_repr v
  end.

(** ** [html_to_text] *)

Definition html_to_text (html : str) : str :=
  match html with
  | [] => []
  | _ =>
      let converted :=
        match html2text_lib with
        | Some convert =>
            match convert html with
            | Some t => Some (strip t)
            | None => None          (* the [except] falls through *)
            end
        | None => None
        end in
      match converted with
      | Some t => t
      | None => strip (sub_runs isspace (remove_tags html))
      end
  end.

(** ** Site constants *)

Definition JINJIANG_BASE_URL : str := u "https://www.jjwxc.net/".
Definition JINJIANG_SEARCH_APP_URL : str :=
  u "https://app.jjwxc.org/search/searchV3".
Definition JINJIANG_SEARCH_APP_ANDROID_API : str :=
  u "https://app.jjwxc.org/androidapi/search".
Definition JINJIANG_BOOK_DETAIL_APP_URL : str :=
  u "https://app.jjwxc.org/androidapi/getBookDetail".
Definition PROVIDER_NAME : str := u "Jinjiang Books".
Definition PROVIDER_ID : str := u "jinjiang_enhanced".
Definition JINJIANG_CONCURRENCY_SIZE : Z := 5.

(** [JINJIANG_BOOK_DETAIL_WEB_URL % novelid] *)
Definition book_detail_web_url (novelid : pyval) : str :=
  u "https://www.jjwxc.net/onebook.php?novelid=" ++ py_str novelid.

(** ** SchemaTolerantExtractor of the detail stage: [_pick_from] *)

Fixpoint first_some {A B} (f : A -> option B) (l : list A) : option B :=
  match l with
  | [] => None
  | x :: r => match f x with Some b => Some b | None => first_some f r end
  end.

Definition if_truthy (v : pyval) : option pyval :=
  if truthy v then Some v else None.

(** [key_variants(k)]: a set, iterated in the order of the interpreter *)
Definition key_variants (k : str) : list str :=
  match k with
  | [] => []
  | _ =>
      let camel :=
        match split_char 0x5F k with
        | [] => []
        | p :: ps => p ++ concat (map str_capitalize ps)
        end in
      let no_underscore := replace_char 0x5F [] k in
      set_iteration
        ([k; str_lower k; camel; no_underscore; str_lower no_underscore;
          replace_char 0x20 [] k]
         ++ (if mem 0x5F k then [camel] else []))
  end.

(** [cand in obj and obj[cand]] *)
Definition lookup_truthy (d : pydict) (k : str) : option pyval :=
  match dict_find d k with
  | Some v => if_truthy v
  | None => None
  end.

(** [lowmap[lk]] for [lowmap = {str(kk).lower(): kk for kk in obj.keys()}]:
    the last key of the dictionary whose lower case is [lk] *)
Definition lowmap_find (d : pydict) (lk : str) : option str :=
  fold_left
    (fun found kv => if str_eqb (str_lower (fst kv)) lk then Some (fst kv)
                     else found)
    d None.

Definition lookup_lowercase (d : pydict) (k : str) : option pyval :=
  match lowmap_find d (str_lower k) with
  | Some kk => if_truthy (dict_get d kk)
  | None => None
  end.

Definition detail_nest_keys : list str :=
  [u "book"; u "novel"; u "data"; u "result"].

Fixpoint pick_from_fuel (fuel : nat) (obj : pyval) (keys : list str) : pyval :=
  match fuel with
  | O => empty_str
  | S n =>
      if negb (truthy obj) || match keys with [] => true | _ => false end
      then empty_str
      else
        let direct :=
          match obj with
          | PDict d =>
              match first_some
                      (fun k => first_some (lookup_truthy d) (key_variants k))
                      keys with
              | Some v => Some v
              | None => first_some (lookup_lowercase d) keys
              end
          | _ => None
          end in
        match direct with
        | Some v => v
        | None =>
            let nested :=
              first_some
                (fun nest_key =>
                   match get_attr obj nest_key with
                   | Some (PDict d') => if_truthy (pick_from_fuel n (PDict d') keys)
                   | Some (PList (x :: _)) => if_truthy (pick_from_fuel n x keys)
                   | _ => None
                   end)
                detail_nest_keys in
            match nested with
            | Some v => v
            | None =>
                match obj with
                | PList (x :: _) => pick_from_fuel n x keys
                | _ => empty_str
                end
            end
        end
  end.

(** [_pick_from(obj, *keys)]; the recursion descends into the value, so
    its depth bounds the number of nested calls. *)
Definition _pick_from (obj : pyval) (keys : list str) : pyval :=
  pick_from_fuel (S (depth obj)) obj keys.

(** ** BookRecordBuilder: the fields of [parse_app_book_data] *)

Definition title_candidates : list str :=
  [u "bookname"; u "bookName"; u "book_name"; u "novelname"; u "novelName";
   u "name"; u "title"; u "novelname_format"; u "novelname_format_html"].

Definition author_candidates : list str :=
  [u "authorname"; u "author"; u "authorName"; u "authors"; u "writer";
   u "writerName"; u "author_name"; u "authorNames"].

Definition cover_candidates : list str :=
  [u "coverimg"; u "cover"; u "cover_img"; u "bookimg"; u "coverUrl";
   u "cover_url"].

Definition intro_candidates : list str :=
  [u "intro"; u "novelintroshort"; u "novelintro"; u "description"; u "desc"].

Definition book_title (app_data : pyval) : str :=
  let title := por (_pick_from app_data title_candidates) empty_str in
  let title := if is_container title then PStr (py_str title) else title in
  strip (html_to_text (py_str title)).

(** the delimiters of an author string: , & / ; and the full-width and
    ideographic commas, and white space *)
Definition author_delimiter (c : N) : bool :=
  (c =? 0x2C) || (c =? 0x26) || (c =? 0x2F) || (c =? 0x3B)
  || (c =? 0xFF0C) || (c =? 0x3001) || isspace c.

Definition nonempty (s : str) : bool :=
  match s with [] => false | _ => true end.

(** [[a.strip() for a in re.split(P, author_str) if a.strip()]] *)
Definition split_authors (author_str : str) : list str :=
  map strip
    (filter (fun a => nonempty (strip a)) (re_split author_delimiter author_str)).

Definition author_text (app_data : pyval) : str :=
  let author_field := por (_pick_from app_data author_candidates) empty_str in
  match author_field with
  | PList (x :: l) =>
      join (u ",") (map (fun x => html_to_text (py_str x)) (x :: l))
  | PList [] | PDict _ => html_to_text (json_dumps author_field)
  | _ => html_to_text (py_str author_field)
  end.

Definition book_authors (app_data : pyval) : list str :=
  split_authors (author_text app_data).

(** [s.rstrip('/')], [s.lstrip('/')] *)
Definition rstrip_slash (s : str) : str := rev (lstrip_chars [0x2F] (rev s)).
Definition lstrip_slash (s : str) : str := lstrip_chars [0x2F] s.

Definition is_absolute_or_data (cover : str) : bool :=
  startswith (u "http://") cover || startswith (u "https://") cover
  || startswith (u "data:") cover.

(** the cover value after [str(cover).strip()] *)
Definition normalize_cover (cover : str) : str :=
  let cover :=
    match cover with
    | [] => cover
    | _ =>
        if startswith (u "//") cover then u "https:" ++ cover
        else if startswith (u "/") cover then
          rstrip_slash JINJIANG_BASE_URL ++ cover
        else if negb (startswith (u "http://") cover)
                && negb (startswith (u "https://") cover)
                && negb (startswith (u "data:") cover) then
          rstrip_slash JINJIANG_BASE_URL ++ u "/" ++ lstrip_slash cover
        else cover
    end in
  if nonempty cover && is_absolute_or_data cover then cover else [].

Definition picked_cover (app_data : pyval) : pyval :=
  let cover := por (_pick_from app_data [u "novelCover"]) empty_str in
  let cover := if truthy cover then cover
               else por (_pick_from app_data [u "originalCover"]) empty_str in
  let cover := if truthy cover then cover
               else por (_pick_from app_data cover_candidates) empty_str in
  if truthy cover then cover
  else por (_pick_from app_data [u "localImg"]) empty_str.

Definition book_cover (app_data : pyval) : str :=
  normalize_cover (strip (py_str (picked_cover app_data))).

Definition book_description_html (app_data : pyval) : str :=
  strip (py_str (por (_pick_from app_data intro_candidates) empty_str)).

Definition book_description (app_data : pyval) : str :=
  html_to_text (py_str (por (_pick_from app_data intro_candidates) empty_str)).

Definition book_tags (app_data : pyval) : list pyval :=
  let category := por (_pick_from app_data [u "category"]) empty_str in
  let tags_raw := por (_pick_from app_data [u "tags"]) empty_str in
  let tags :=
    match tags_raw with
    | PStr s => map PStr (filter nonempty (map strip (split_char 0x2C s)))
    | PList l => map PStr (filter nonempty (map (fun t => strip (py_str t)) l))
    | _ => []
    end in
  if truthy category then category :: tags else tags.

(** [s.isdigit()] *)
Definition isdigit (c : N) : bool :=
  if c <? 128 then ascii_digit c else uni_isdigit c.

Definition str_isdigit (s : str) : bool := nonempty s && forallb isdigit s.

(** at most [n] characters of a class, greedy, with what follows *)
Fixpoint span_upto (n : nat) (p : N -> bool) (s : str) : str * str :=
  match n, s with
  | S n', x :: r =>
      if p x then let (a, b) := span_upto n' p r in (x :: a, b) else ([], s)
  | _, _ => ([], s)
  end.

Definition skip_optional (p : N -> bool) (s : str) : str :=
  match s with
  | x :: r => if p x then r else s
  | [] => s
  end.

(** [re.match] of "^(\d{4})[-/年]?(\d{1,2})?[-/月]?(\d{1,2})?": the three
    groups, an absent group being empty.  Nothing follows the optional
    parts, so the greedy choices stand. *)
Definition match_date (s : str) : option (str * str * str) :=
  let (y, r) := span_upto 4 is_decimal s in
  if (length y =? 4)%nat then
    let r := skip_optional
               (fun c => (c =? 0x2D) || (c =? 0x2F) || (c =? 0x5E74)) r in
    let (mo, r) := span_upto 2 is_decimal r in
    let r := skip_optional
               (fun c => (c =? 0x2D) || (c =? 0x2F) || (c =? 0x6708)) r in
    let (d, _) := span_upto 2 is_decimal r in
    Some (y, mo, d)
  else None.

(** [f"{n:02d}"] *)
Definition two_digits (n : N) : str :=
  let s := str_of_Z (Z.of_N n) in
  if n <? 10 then 0x30 :: s else s.

(** the published date from the text of [createtime]; every exception
    of the [try] leaves the text as it is *)
Definition published_date (createtime : str) : str :=
  if str_isdigit createtime then
    match int_of_digits createtime with
    | Some ts =>
        match local_date ts (10 ^ 12 <? ts) with
        | Some d => d
        | None => createtime
        end
    | None => createtime
    end
  else
    match match_date createtime with
    | Some (y, mo, d) =>
        let mo := match mo with [] => u "01" | _ => mo end in
        let d := match d with [] => u "01" | _ => d end in
        match int_of_digits mo, int_of_digits d with
        | Some m, Some n => y ++ u "-" ++ two_digits m ++ u "-" ++ two_digits n
        | _, _ => createtime
        end
    | None => createtime
    end.

(** [int(v)] *)
Definition py_int (v : pyval) : option Z :=
  match v with
  | PInt z => Some z
  | PBool b => Some (if b then 1 else 0)%Z
  | PStr s => int_of_text s
  | _ => None
  end.

(** [try: int(v or 0) except Exception: None] *)
Definition int_or_none (v : pyval) : pyval :=
  match py_int (por v (PInt 0)) with
  | Some z => PInt z
  | None => PNone
  end.

(** The book dictionary of [parse_app_book_data] before the enrichment. *)
Definition base_book (app_data : pyval) (novelid : str) : pydict :=
  [ (u "id", PStr novelid);
    (u "title", PStr (book_title app_data));
    (u "authors", PList (map PStr (book_authors app_data)));
    (u "url", PStr (book_detail_web_url (PStr novelid)));
    (u "cover", PStr (book_cover app_data));
    (u "description_html", PStr (book_description_html app_data));
    (u "description", PStr (book_description app_data));
    (u "tags", PList (book_tags app_data));
    (u "publishedDate",
      PStr (published_date
              (strip (py_str (por (_pick_from app_data
                                     [u "createtime"; u "createTime";
                                      u "publish_time"]) empty_str)))));
    (u "status", por (_pick_from app_data [u "status"]) empty_str);
    (u "word_count",
      por (_pick_from app_data [u "wordcount"; u "wordCount"]) (PInt 0));
    (u "chapters",
      int_or_none (_pick_from app_data
                     [u "chapterCount"; u "chaptercount"; u "chapters"]));
    (u "vip_start",
      int_or_none (_pick_from app_data
                     [u "vip_start"; u "vipStart"; u "vipstart"]));
    (u "source",
      PDict [ (u "id", PStr PROVIDER_ID);
              (u "description", PStr PROVIDER_NAME);
              (u "link", PStr JINJIANG_BASE_URL) ]) ].

(** ** Enrichment: [fetch_and_merge_other_info] *)

Definition other_nest_keys : list str :=
  [u "data"; u "a"; u "novel"; u "result"].

Fixpoint pick_fuel (fuel : nat) (obj : pyval) (keys : list str) : pyval :=
  match fuel with
  | O => empty_str
  | S n =>
      if negb (truthy obj) then empty_str
      else
        let direct :=
          match obj with
          | PDict d =>
              first_some
                (fun k =>
                   match lookup_truthy d k with
                   | Some v => Some v
                   | None => lookup_lowercase d k
                   end)
                keys
          | _ => None
          end in
        match direct with
        | Some v => v
        | None =>
            let nested :=
              first_some
                (fun nest =>
                   match obj with
                   | PDict d =>
                       let nested := dict_get d nest in
                       if truthy nested
                       then if_truthy (pick_fuel n nested keys)
                       else None
                   | _ => None
                   end)
                other_nest_keys in
            match nested with
            | Some v => v
            | None =>
                match obj with
                | PList (x :: _) => pick_fuel n x keys
                | _ => empty_str
                end
            end
        end
  end.

(** the local function [pick(obj, *keys)] *)
Definition pick (obj : pyval) (keys : list str) : pyval :=
  pick_fuel (S (depth obj)) obj keys.

Definition is_dict (v : pyval) : bool :=
  match v with PDict _ => true | _ => false end.

(** [sources]: the extended payload, the base payload and the book itself.
    The book is the live dictionary, so a look-up sees what the enrichment
    has already written to it. *)
Definition sources (other base_data : pyval) (book : pydict) : list pyval :=
  (if is_dict other then [other] else [])
  ++ (if is_dict base_data then [base_data] else [])
  ++ [PDict book].

(** the local function [pick_any] *)
Definition pick_any (srcs : list pyval) (keys : list str) : pyval :=
  match first_some
          (fun src =>
             match pick src keys with
             | PStr s => match strip s with [] => None | t => Some (PStr t) end
             | PNone => None
             | val => Some val
             end)
          srcs with
  | Some v => v
  | None => empty_str
  end.

Definition newline : str := [0x0A].

(** the author's note; the [try] turns the [AttributeError] of a note that
    is not a dictionary into the empty text *)
Definition leave_display (srcs : list pyval) : str :=
  let leave_obj :=
    first_some
      (fun src =>
         match src with
         | PDict d =>
             first_some (lookup_truthy d)
               [u "novelLeave"; u "leave"; u "novelleave"]
         | _ => None
         end)
      srcs in
  match leave_obj with
  | Some (PDict l) =>
      let ld_back := por (dict_get l (u "leaveDateBack"))
                       (por (dict_get l (u "leave_date_back")) empty_str) in
      let ld := por (dict_get l (u "leaveDate"))
                  (por (dict_get l (u "leaveDateStr"))
                     (por (dict_get l (u "leave_date")) empty_str)) in
      let lcont := por (dict_get l (u "leaveContent"))
                     (por (dict_get l (u "leave_content")) empty_str) in
      let leave_lines := map py_str (filter truthy [ld_back; lcont; ld]) in
      match leave_lines with
      | [] => []
      | _ => join newline leave_lines ++ newline ++ u "&lrm;" ++ newline
      end
  | _ => []
  end.

(** [book.get('tags') or []], made a list when it is none *)
Definition existing_tags (book : pydict) : list pyval :=
  match por (dict_get book (u "tags")) (PList []) with
  | PList l => l
  | v => map PStr (filter nonempty (map strip (split_char 0x2C (py_str v))))
  end.

(** The loop that removes duplicates with a [set]: [None] is the
    [TypeError] of a list or dictionary, which cannot be hashed. *)
Fixpoint dedupe_from (seen : list pyval) (l : list pyval)
    : option (list pyval) :=
  match l with
  | [] => Some []
  | t :: r =>
      if truthy t then
        if is_container t then None
        else if existsb (py_eq t) seen then dedupe_from seen r
        else option_map (cons t) (dedupe_from (t :: seen) r)
      else dedupe_from seen r
  end.

Definition dedupe (l : list pyval) : option (list pyval) := dedupe_from [] l.

(** the body of the [try] that puts the genre in front of the tags *)
Definition tags_with_class (novel_class : pyval) (book : pydict)
    : option (list pyval) :=
  let merged :=
    novel_class ::
    filter (fun t => nonempty (strip (py_str t))
                     && negb (str_eqb (strip (py_str t))
                                (strip (py_str novel_class))))
      (existing_tags book) in
  dedupe merged.

Definition merge_novel_class (novel_class : pyval) (book : pydict) : pydict :=
  if truthy novel_class then
    match tags_with_class novel_class book with
    | Some uniq => dict_set book (u "tags") (PList uniq)
    | None => dict_set book (u "tags") (PList [novel_class])
    end
  else book.

(** [re.match] of "^\d+$" *)
Definition all_digits (s : str) : bool :=
  match re_plus is_decimal (fun _ => re_eol tt) s with
  | Some _ => true
  | None => false
  end.

Definition SIGNED : str := u "已签约".
Definition NOT_SIGNED : str := u "未签约".

(** the flag computed from [is_sign] when it is present *)
Definition signed_flag (is_sign : pyval) : bool :=
  match is_sign with
  | PBool b => b
  | _ =>
      let raw_sign := strip (py_str is_sign) in
      let lr := str_lower raw_sign in
      if existsb (str_eqb lr) [u "1"; u "true"; u "yes"] then true
      else if all_digits raw_sign then
        match int_of_digits raw_sign with
        | Some n => 0 <? n
        | None => false
        end
      else false
  end.

Definition signed_display (is_sign : pyval) : str :=
  let shown :=
    match is_sign with
    | PNone => []
    | _ =>
        if nonempty (strip (py_str is_sign))
        then (if signed_flag is_sign then SIGNED else NOT_SIGNED)
        else []
    end in
  match shown with
  | [] => NOT_SIGNED
  | _ => shown
  end.

(** [re.search] of "(\d+)": the first maximal run of decimal digits *)
Fixpoint search_digits (s : str) : option str :=
  match s with
  | [] => None
  | x :: r =>
      if is_decimal x then Some (x :: fst (span_upto (length r) is_decimal r))
      else search_digits r
  end.

(** the extended synopsis goes to [book['comments']] *)
Definition merge_intro (intro : pyval) (book : pydict) : pydict :=
  if truthy intro then
    let intro_txt := html_to_text (py_str intro) in
    let exist_comments := por (dict_get book (u "comments")) empty_str in
    if truthy exist_comments then
      dict_set book (u "comments")
        (PStr (strip (py_str exist_comments) ++ newline ++ newline ++ intro_txt))
    else dict_set book (u "comments") (PStr intro_txt)
  else book.

Definition tag_delimiter (c : N) : bool := author_delimiter c.

Definition parse_tags (tags : pyval) : list str :=
  match tags with
  | PStr s => filter nonempty (map strip (re_split tag_delimiter s))
  | PList l => filter nonempty (map (fun t => strip (py_str t)) l)
  | _ => []
  end.

Definition merge_tags (parsed_tags : list str) (book : pydict) : pydict :=
  match parsed_tags with
  | [] => book
  | _ =>
      let existing := existing_tags book in
      let merged :=
        existing
        ++ map PStr
             (filter (fun t => negb (existsb (py_eq (PStr t)) existing))
                parsed_tags) in
      match dedupe merged with
      | Some uniq => dict_set book (u "tags") (PList uniq)
      | None => dict_set book (u "tags") (PList (map PStr parsed_tags))
      end
  end.

(** [re.sub] of "^(主角|配角|其它|其他)[:：]\s*" by the empty string *)
Definition strip_role_label (txt : str) : str :=
  match re_alt (map (fun w => re_lit_ci w)
                  [u "主角"; u "配角"; u "其它"; u "其他"])
          (re_one (fun c => (c =? 0x3A) || (c =? 0xFF1A))
             (fun r => Some (lstrip r)))
          txt with
  | Some rest => rest
  | None => txt
  end.

Definition clean_role (val : pyval) : str :=
  if truthy val then strip_role_label (html_to_text (py_str val)) else [].

Definition opt_line (label : str) (v : pyval) : list str :=
  if truthy v then [label ++ py_str v] else [].

(** The value of the contract flag, looked up after the genre has been
    merged into the tags. *)
Definition sign_value (other base_data : pyval) (book : pydict) : pyval :=
  let novel_class :=
    pick_any (sources other base_data book)
      [u "novelClass"; u "novel_class"; u "category"] in
  pick_any (sources other base_data (merge_novel_class novel_class book))
    [u "isSign"; u "is_sign"; u "issign"].

(** The part of [fetch_and_merge_other_info] after the payload [other]
    has been found, up to the lines of the enrichment block: the book with
    the merged tags and comments, and the lines. *)
Definition enrichment_block (other base_data : pyval) (book : pydict)
    : pydict * list str :=
  let book0 := book in
  let leave := leave_display (sources other base_data book) in
  (* genre: into the tags *)
  let novel_class :=
    pick_any (sources other base_data book)
      [u "novelClass"; u "novel_class"; u "category"] in
  let book := merge_novel_class novel_class book in
  let srcs := sources other base_data book in
  (* length *)
  let novel_size :=
    pick_any srcs [u "novelSize"; u "novel_size"; u "novelSizeShow";
                   u "novelsizeformat"; u "word_count"; u "words"] in
  let novel_size :=
    if is_container novel_size
    then PStr (html_to_text (json_dumps novel_size)) else novel_size in
  let novip_clicks :=
    pick_any srcs [u "novip_clicks"; u "novipClicks"; u "novipClick";
                   u "novipclicks"] in
  let novel_score := pick_any srcs [u "novelScore"; u "score"; u "novelscore"] in
  (* contract *)
  let is_sign := sign_value other base_data book0 in
  let signed := signed_display is_sign in
  (* favourites, ranking, nutrition *)
  let befav :=
    pick_any srcs [u "novelbefavoritedcount"; u "befavoritedcount";
                   u "favoriteCount"] in
  let nutrition :=
    pick_any srcs [u "nutrition_novel"; u "nutrition"; u "nutritionNovel"] in
  let ranking_raw := pick_any srcs [u "ranking"; u "rank"; u "ranking_str"] in
  let ranking_number :=
    if truthy ranking_raw then
      match search_digits (py_str ranking_raw) with
      | Some g => g
      | None => []
      end
    else [] in
  let befav := if truthy befav then befav else PStr (u "0") in
  let ranking_number :=
    match ranking_number with [] => u "暂无排名" | _ => ranking_number end in
  let nutrition_display :=
    if truthy nutrition then py_str nutrition else u "0" in
  (* extended synopsis: into the comments *)
  let intro :=
    pick_any srcs [u "novelIntro"; u "novelintro"; u "novelIntroShort";
                   u "novelIntroShortHtml"; u "description"; u "desc"] in
  let intro_txt :=
    replace (u "立意 :") (u "立意：")
      (replace (u "立意:") (u "立意：") (html_to_text (py_str intro))) in
  let book := merge_intro intro book in
  let srcs := sources other base_data book in
  (* tags *)
  let tags := pick_any srcs [u "novelTags"; u "novel_tags"; u "tags"] in
  let parsed_tags := parse_tags tags in
  let book := merge_tags parsed_tags book in
  let srcs := sources other base_data book in
  let tags_line :=
    match parsed_tags with
    | [] => []
    | _ => u "标签：" ++ join (u "&nbsp;") parsed_tags
    end in
  (* characters *)
  let prot := pick_any srcs [u "protagonist"; u "protagonists"; u "主角"] in
  let costar := pick_any srcs [u "costar"; u "coStar"; u "配角"] in
  let other_roles := pick_any srcs [u "other"; u "others"] in
  let role (label : str) (v : pyval) : str :=
    match clean_role v with [] => [] | c => label ++ c end in
  let roles_comb :=
    role (u "主角：") prot ++ role (u "配角：") costar
    ++ role (u "其它：") other_roles in
  (* style, point of view, series *)
  let style := pick_any srcs [u "novelStyle"; u "style"] in
  let mainview := pick_any srcs [u "mainview"; u "view"] in
  let series := pick_any srcs [u "series"] in
  let style_line :=
    if truthy style || truthy mainview then
      u "风格：" ++ py_str (por style empty_str)
      ++ u "&nbsp;&nbsp;&nbsp;&nbsp;视角：" ++ py_str (por mainview empty_str)
    else [] in
  let series_line :=
    if truthy series then u "所属：" ++ py_str series else [] in
  (* the block *)
  let first_line :=
    leave ++ (if truthy novel_class
              then u "文章类型：" ++ py_str novel_class else []) in
  let lines :=
    (match first_line with [] => [] | _ => [first_line] end)
    ++ opt_line (u "全文字数：") novel_size
    ++ opt_line (u "非V点击：") novip_clicks
    ++ opt_line (u "文章积分：") novel_score
    ++ (match signed with [] => [] | _ => [u "签约状态：" ++ signed] end)
    ++ [u "&lrm;"]
    ++ [u "⭐&nbsp;" ++ py_str befav ++ u "丨👍&nbsp;No." ++ ranking_number
        ++ u "丨🍼&nbsp;" ++ nutrition_display]
    ++ [u "&lrm;"]
    ++ (if truthy intro && nonempty intro_txt
        then [intro_txt; u "&lrm;"] else [])
    ++ (match tags_line with [] => [] | _ => [tags_line] end)
    ++ (match roles_comb with [] => [] | _ => [roles_comb] end)
    ++ (match style_line with [] => [] | _ => [style_line] end)
    ++ (match series_line with [] => [] | _ => [series_line] end) in
  (book, lines).

(** the lines are appended to both descriptions *)
Definition add_to_descriptions (lines : list str) (book : pydict) : pydict :=
  match lines with
  | [] => book
  | _ =>
      let extra_html :=
        join (u "<br>") (map (replace newline (u "<br>")) lines) in
      let extra_text := join newline lines in
      let exist_html :=
        por (dict_get book (u "description_html"))
          (por (dict_get book (u "description")) empty_str) in
      let book :=
        dict_set book (u "description_html")
          (PStr (if truthy exist_html
                 then py_str exist_html ++ u "<br><br>" ++ extra_html
                 else extra_html)) in
      let exist_txt := por (dict_get book (u "description")) empty_str in
      dict_set book (u "description")
        (PStr (if truthy exist_txt
               then py_str exist_txt ++ newline ++ newline ++ extra_text
               else extra_text))
  end.

Definition merge_other_info (other base_data : pyval) (book : pydict)
    : pydict :=
  let (book, lines) := enrichment_block other base_data book in
  add_to_descriptions lines book.

(** the payload inside the response of the extended-info endpoint *)
Definition other_payload (data : pyval) : pyval :=
  match data with
  | PDict d =>
      match first_some (lookup_truthy d)
              [u "data"; u "a"; u "novelLeave"; u "novel"; u "result"] with
      | Some v => v
      | None => data
      end
  | PList (x :: _) => x
  | _ => data
  end.

Definition other_info_url (novelid : str) : str :=
  u "https://app.jjwxc.org/androidapi/getnovelOtherInfo" ++ u "?"
  ++ urlencode [ (u "versionCode", u "279"); (u "novelId", novelid);
                 (u "type", u "novelbasicinfo") ].

(** How the body of the outer [try] ends. *)
Inductive outcome := Completed | Returned | Raised.

(** The body of the [try] of [fetch_and_merge_other_info], with the book
    as it is when the body ends. *)
Definition other_info_body (novelid : str) (book : pydict) (base_data : pyval)
    : M (outcome * pydict) :=
  res <- http_get (other_info_url novelid) ;;
  match res with
  | None => ret (Raised, book)                    (* [urlopen] raised *)
  | Some r =>
      if negb (status_ok r) then ret (Returned, book)
      else
        match content r with
        | None => ret (Raised, book)              (* [get_res_content] raised *)
        | Some text =>
            let data :=
              match json_loads text with Some d => d | None => PNone end in
            let other := other_payload data in
            if negb (truthy other) then ret (Returned, book)
            else ret (Completed, merge_other_info other base_data book)
        end
  end.

(** [fetch_and_merge_other_info]: the book after the call.  The handler of
    the outer [try] returns, so the caller sees the book as the body left
    it. *)
Definition fetch_and_merge_other_info (novelid : str) (book : pydict)
    (base_data : pyval) : M pydict :=
  match novelid with
  | [] => ret book
  | _ =>
      ob <- other_info_body novelid book base_data ;;
      ret (snd ob)
  end.

(** [parse_app_book_data] *)
Definition parse_app_book_data (app_data : pyval) (novelid : str) : M pydict :=
  fetch_and_merge_other_info novelid (base_book app_data novelid) app_data.

(** ** EndpointFallbackClient, detail stage: [load_book_via_app_api] *)

(** The configuration and state of a [JinjiangBookSearcher]. *)
Record searcher := {
  max_workers : Z;
  jinjiang_delay_enable : bool;
  jinjiang_login_cookie : option str;
  jinjiang_search_with_author : bool;
  jinjiang_prefer_app_api : bool;
  sid : pyval
}.

Definition detail_endpoints : list str :=
  [ u "https://app-cdn.jjwxc.net/androidapi/novelbasicinfo";
    JINJIANG_BOOK_DETAIL_APP_URL;
    u "https://app.jjwxc.org/androidapi/novelbasicinfo" ].

Definition param_variants : list str :=
  [u "novelid"; u "novelId"; u "bookId"; u "bookid"].

Definition detail_url (self : searcher) (endpoint variant novelid : str) : str :=
  endpoint ++ u "?"
  ++ urlencode
       ([(variant, novelid)]
        ++ (if truthy (sid self) then [(u "token", py_str (sid self))] else [])
        ++ [(u "version", u "9.9.9"); (u "platform", u "android")]).

(** [str(it.get('novelid') or it.get('bookId') or it.get('id'))
     == str(novelid)]; an item that is no dictionary is passed over *)
Definition item_matches (novelid : str) (it : pyval) : bool :=
  match it with
  | PDict d =>
      str_eqb
        (py_str (por (dict_get d (u "novelid"))
                   (por (dict_get d (u "bookId")) (dict_get d (u "id")))))
        novelid
  | _ => false
  end.

(** The envelope recognizer of the detail stage: [app_data], or [None]. *)
Definition unwrap_detail (data : pyval) (novelid : str) : pyval :=
  match data with
  | PDict top =>
      let inner := dict_get top (u "data") in
      if py_eq (dict_get top (u "code")) (PInt 0) && truthy inner then
        match inner with
        | PDict d =>
            if truthy (por (dict_get d (u "book")) (dict_get d (u "novel")))
            then por (dict_get d (u "book")) (por (dict_get d (u "novel")) inner)
            else inner
        | _ => inner
        end
      else if truthy inner && is_dict inner then inner
      else if truthy (dict_get top (u "items")) then
        match dict_get top (u "items") with
        | PList (x :: l) =>
            match find (item_matches novelid) (x :: l) with
            | Some found => por found x
            | None => x
            end
        | _ => PNone
        end
      else data
  | PList (x :: _) => x
  | _ => PNone
  end.

(** The block [if data: ...] of the loop: the parsed book when it has a
    title and authors. *)
Definition process_detail_payload (data : pyval) (novelid : str)
    : M (option pydict) :=
  if truthy data then
    let app_data := unwrap_detail data novelid in
    if truthy app_data then
      parsed <- parse_app_book_data app_data novelid ;;
      if truthy (dict_get parsed (u "title"))
         && truthy (dict_get parsed (u "authors"))
      then ret (Some parsed)
      else ret None
    else ret None
  else ret None.

(** [json.loads(content)], then [json.loads(content.strip())] *)
Definition loads_detail (text : str) : pyval :=
  let data := match json_loads text with Some d => d | None => PNone end in
  if truthy data then data
  else match json_loads (strip text) with Some d => d | None => PNone end.

Fixpoint try_detail_urls (novelid : str) (urls : list str)
    : M (option pydict) :=
  match urls with
  | [] => ret None
  | url :: rest =>
      res <- http_get url ;;
      match res with
      | None => try_detail_urls novelid rest
      | Some r =>
          if negb (status_ok r) then try_detail_urls novelid rest
          else
            match content r with
            | None => try_detail_urls novelid rest
            | Some text =>
                found <- process_detail_payload (loads_detail text) novelid ;;
                match found with
                | Some book => ret (Some book)
                | None => try_detail_urls novelid rest
                end
            end
      end
  end.

Definition load_book_via_app_api (self : searcher) (novelid : str)
    : M (option pydict) :=
  try_detail_urls novelid
    (flat_map
       (fun endpoint =>
          map (fun variant => detail_url self endpoint variant novelid)
            param_variants)
       detail_endpoints).

(** ** HtmlFallbackParser: [JinjiangBookHtmlParser] *)

(** the case-sensitive literal *)
Fixpoint re_lit {A} (pat : str) (k : str -> option A) (s : str) : option A :=
  match pat with
  | [] => k s
  | p :: pat' =>
      match s with
      | x :: r => if x =? p then re_lit pat' k r else None
      | [] => None
      end
  end.

(** [re.search]: the match at the leftmost position that has one *)
Fixpoint re_search {A} (m : str -> option A) (s : str) : option A :=
  match m s with
  | Some a => Some a
  | None =>
      match s with
      | [] => None
      | _ :: r => re_search m r
      end
  end.

(** [re.search] of "novelid=(\d+)": the group *)
Definition search_novelid (url : str) : option str :=
  re_search
    (re_lit (u "novelid=") (re_plus is_decimal (fun g _ => Some g))) url.

(** [get_text(elements)] and [get_text(elements, join_lines=True)] *)
Definition element_texts (elements : list element) : list str :=
  filter nonempty
    (map (fun elem => strip (join (u " ") (text_nodes elem))) elements).

Definition get_text (elements : list element) : str :=
  match element_texts elements with
  | t :: _ => t
  | [] => []
  end.

Definition get_text_lines (elements : list element) : str :=
  join newline (element_texts elements).

(** [get_tail(elements)] *)
Fixpoint get_tail (elements : list element) : str :=
  match elements with
  | [] => []
  | elem :: rest =>
      let tail_text :=
        match tail elem with
        | Some t => strip t
        | None => []
        end in
      match tail_text with
      | _ :: _ => tail_text
      | [] =>
          let next_text :=
            match next_sibling elem with
            | Some (true, texts) => strip (strip (join (u " ") texts))
            | _ => []
            end in
          match next_text with
          | _ :: _ => next_text
          | [] => get_tail rest
          end
      end
  end.

(** the cover of the page *)
Definition html_cover (img_elements : list element) : str :=
  match img_elements with
  | [] => []
  | img :: _ =>
      let cover_src :=
        strip (match attr_src img with Some s => s | None => [] end) in
      match cover_src with
      | [] => []
      | _ =>
          let cover_src :=
            if startswith (u "//") cover_src then u "https:" ++ cover_src
            else if startswith (u "/") cover_src then
              rstrip_slash JINJIANG_BASE_URL ++ cover_src
            else if negb (startswith (u "http://") cover_src)
                    && negb (startswith (u "https://") cover_src) then
              if negb (startswith (u "data:") cover_src)
              then rstrip_slash JINJIANG_BASE_URL ++ u "/"
                   ++ lstrip_slash cover_src
              else cover_src
            else cover_src in
          if nonempty cover_src && is_absolute_or_data cover_src
          then cover_src else []
      end
  end.

(** [parse_book(url, book_content, log)] on a page that [etree.HTML] has
    parsed *)
Definition parse_document (url : str) (html : option html_doc)
    : option pydict :=
  match html with
  | None => None
  | Some doc =>
      if negb (has_children doc) then None
      else
        match search_novelid url with
        | None => None
        | Some id =>
            match id with
            | [] => None
            | _ =>
                let title := strip (get_text (select doc XTitle)) in
                match title with
                | [] => None
                | _ =>
                    let author_elements := select doc XAuthor in
                    let authors :=
                      match author_elements with
                      | [] => []
                      | _ => [PStr (strip (get_text author_elements))]
                      end in
                    Some
                      [ (u "id", PStr id);
                        (u "title", PStr title);
                        (u "authors", PList authors);
                        (u "cover", PStr (html_cover (select doc XImage)));
                        (u "description",
                          PStr (get_text_lines (select doc XSummary)));
                        (u "tags",
                          PList (map PStr
                                   (filter nonempty
                                      (map (fun elem => strip (get_text [elem]))
                                         (select doc XTag)))));
                        (u "publishedDate",
                          PStr (get_tail (select doc XPubdate)));
                        (u "url", PStr url);
                        (u "source",
                          PDict [ (u "id", PStr PROVIDER_ID);
                                  (u "description", PStr PROVIDER_NAME);
                                  (u "link", PStr JINJIANG_BASE_URL) ]) ]
                end
            end
        end
  end.

(** [parse_book]; the outer [None] is an exception of the HTML library,
    which the caller catches *)
Definition parse_book (url : str) (book_content : str)
    : option (option pydict) :=
  match etree_HTML book_content with
  | None => None
  | Some html => Some (parse_document url html)
  end.

(** ** [load_book] *)

(** [extract_novelid(href)] *)
Definition extract_novelid (href : str) : option str :=
  match href with
  | [] => None
  | _ =>
      let params := query_params href in
      let get k :=
        match find (fun kv => str_eqb (fst kv) k) params with
        | Some (_, vs) => vs
        | None => []
        end in
      match get (u "novelid") with
      | v :: _ => Some v
      | [] =>
          match get (u "bookId") with
          | v :: _ => Some v
          | [] => None
          end
      end
  end.

Definition build_book_detail_url (novelid : str) : str :=
  book_detail_web_url (PStr novelid).

(** the fall-back of [load_book] to the web page *)
Definition load_book_via_web (url : str) : M (option pydict) :=
  res <- http_get url ;;
  match res with
  | None => ret None
  | Some r =>
      if status_ok r then
        match content r with
        | None => ret None
        | Some book_detail_content =>
            match parse_book url book_detail_content with
            | Some book => ret book
            | None => ret None
            end
        end
      else ret None
  end.

(** [load_book(url, log)].  (The random sleep before the request only
    passes time.) *)
Definition load_book (self : searcher) (url : str) : M (option pydict) :=
  emit (EvLoadBook url) ;;;
  match extract_novelid url with
  | None | Some [] => ret None
  | Some novelid =>
      if jinjiang_prefer_app_api self && truthy (sid self) then
        book <- load_book_via_app_api self novelid ;;
        match book with
        | Some ((_ :: _) as b) => ret (Some b)
        | _ => load_book_via_web url
        end
      else load_book_via_web url
  end.

(** ** The session id: [extract_sid_from_cookie] *)

(** an optional character, taken when it is there *)
Definition re_opt {A} (c : N) (k : str -> option A) (s : str) : option A :=
  match s with
  | x :: r =>
      if x =? c then
        match k r with
        | Some a => Some a
        | None => k s
        end
      else k s
  | [] => k s
  end.

Definition not_semicolon_space (c : N) : bool :=
  negb (c =? 0x3B) && negb (isspace c).

(** [re.search] of "NAME([^;\s]+)": the group *)
Definition search_field (name : str) (c : str) : option str :=
  re_search (re_lit name (re_plus not_semicolon_space (fun g _ => Some g))) c.

(** [re.search] of "sidkey\W*[:=]\W*'?Q?([\w-]+)'?Q?", where Q is the
    double quote: the group *)
Definition search_sidkey (raw : str) : option str :=
  let non_word c := negb (is_word c) in
  re_search
    (re_lit (u "sidkey")
       (re_star non_word (fun _ =>
        re_one (fun c => (c =? 0x3A) || (c =? 0x3D)) (
        re_star non_word (fun _ =>
        re_opt 0x27 (
        re_opt 0x22 (
        re_plus (fun c => is_word c || (c =? 0x2D)) (fun g _ => Some g))))
        [])) [])) raw.

Definition extract_sid_from_cookie (cookie : option str) : pyval :=
  match cookie with
  | None | Some [] => PNone
  | Some c =>
      match search_field (u "sid=") c with
      | Some g => PStr g
      | None =>
      match search_field (u "token=") c with
      | Some g => PStr (unquote g)
      | None =>
      match search_field (u "bbstoken=") c with
      | Some g => PStr (unquote g)
      | None =>
      let from_session :=
        match re_search
                (re_lit (u "JJSESS=")
                   (re_plus (fun c => negb (c =? 0x3B)) (fun g _ => Some g)))
                c with
        | Some g =>
            let raw := unquote g in
            match json_loads raw with
            | Some (PDict j) =>
                first_some (lookup_truthy j) [u "sid"; u "sidkey"; u "token"]
            | Some _ => None
            | None => option_map PStr (search_sidkey raw)
            end
        | None => None
        end in
      match from_session with
      | Some v => v
      | None => PNone
      end
      end end end
  end.

(** the constructor of the searcher, from the options of the plugin *)
Definition new_searcher (concurrency_size : Z) (delay_enable : bool)
    (login_cookie : option str) (search_with_author prefer_app_api : bool)
    : searcher :=
  {| max_workers := concurrency_size;
     jinjiang_delay_enable := delay_enable;
     jinjiang_login_cookie := login_cookie;
     jinjiang_search_with_author := search_with_author;
     jinjiang_prefer_app_api := prefer_app_api;
     sid := extract_sid_from_cookie login_cookie |}.

(** ** EndpointFallbackClient, search stage *)

(** [d.get('books') or d.get('results') or d.get('items') or d.get('list')
    or []]; [None] is the [AttributeError] of a [d] that is no dictionary *)
Definition books_of (d : pyval) : option pyval :=
  match d with
  | PDict m =>
      Some (por (dict_get m (u "books"))
              (por (dict_get m (u "results"))
                 (por (dict_get m (u "items"))
                    (por (dict_get m (u "list")) (PList [])))))
  | _ => None
  end.

(** [_extract_books_from_json(data)] *)
Definition _extract_books_from_json (data : pyval) : option pyval :=
  if negb (truthy data) then Some (PList [])
  else
    match data with
    | PDict top =>
        if py_eq (dict_get top (u "code")) (PInt 0)
           && truthy (dict_get top (u "data"))
        then books_of (dict_get top (u "data"))
        else books_of data
    | PList _ => Some data
    | _ => Some (PList [])
    end.

(** what [for book in books] iterates over; [None] when the value cannot
    be iterated *)
Definition iterate (books : pyval) : option (list pyval) :=
  match books with
  | PList l => Some l
  | PDict d => Some (map (fun kv => PStr (fst kv)) d)
  | PStr s => Some (map (fun c => PStr [c]) s)
  | _ => None
  end.

(** The loop over the hits.  It appends to [book_urls]; the flag tells
    whether it ran to its end or raised on a hit that is no dictionary. *)
Fixpoint collect_urls (self : searcher) (books : list pyval)
    (book_urls : list str) : bool * list str :=
  match books with
  | [] => (true, book_urls)
  | book :: rest =>
      match book with
      | PDict b =>
          let novelid :=
            por (dict_get b (u "novelid"))
              (por (dict_get b (u "bookId")) (dict_get b (u "id"))) in
          if truthy novelid
             && (Z.of_nat (length book_urls) <? max_workers self)%Z
          then collect_urls self rest
                 (book_urls ++ [book_detail_web_url novelid])
          else collect_urls self rest book_urls
      | _ => (false, book_urls)
      end
  end.

(** One of the two strategies of [search_via_app_api]: [true] with the
    list to return, or [false] with the list as the strategy leaves it. *)
Definition search_strategy (self : searcher) (url : str)
    (book_urls : list str) : M (bool * list str) :=
  res <- http_get url ;;
  match res with
  | None => ret (false, book_urls)
  | Some r =>
      if negb (status_ok r) then ret (false, book_urls)
      else
        match content r with
        | None => ret (false, book_urls)
        | Some text =>
            let data :=
              match json_loads text with Some d => d | None => PNone end in
            match _extract_books_from_json data with
            | None => ret (false, book_urls)
            | Some books =>
                if truthy books then
                  match iterate books with
                  | None => ret (false, book_urls)
                  | Some l => ret (collect_urls self l book_urls)
                  end
                else ret (false, book_urls)
            end
        end
  end.

Definition search_via_app_api (self : searcher) (query : str)
    (search_type : N) : M (list str) :=
  if negb (truthy (sid self)) then ret []
  else
    let ty := str_of_Z (Z.of_N search_type) in
    let token := py_str (sid self) in
    let url :=
      JINJIANG_SEARCH_APP_URL ++ u "?"
      ++ urlencode [ (u "keyword", query); (u "type", ty); (u "page", u "1");
                     (u "token", token) ] in
    first <- search_strategy self url [] ;;
    match first with
    | (true, book_urls) => ret book_urls
    | (false, book_urls) =>
        let url2 :=
          JINJIANG_SEARCH_APP_ANDROID_API ++ u "?"
          ++ urlencode [ (u "versionCode", u "282"); (u "keyword", query);
                         (u "type", ty); (u "page", u "1");
                         (u "token", token) ] in
        second <- search_strategy self url2 book_urls ;;
        ret (snd second)
    end.

Definition search_via_web (self : searcher) (query : str) (search_type : N)
    : M (list str) :=
  ret [].

Definition load_book_urls_new (self : searcher) (query : str) : M (list str) :=
  emit (EvSearchUrls query) ;;;
  let (query, search_type) := parse_search_keyword query in
  search_via_app_api self query search_type.

Fixpoint run_all {A} (tasks : list (M A)) : M (list A) :=
  match tasks with
  | [] => ret []
  | t :: rest => a <- t ;; l <- run_all rest ;; ret (a :: l)
  end.

(** [search_books(query, authors, log)].  The detail fetches are tasks of
    a thread pool; the model lets them make their requests one task after
    the other and collects their results in the order of [as_completed]. *)
Definition search_books (self : searcher) (query : str)
    (authors : option (list str)) : M (list pydict) :=
  emit (EvSearchBooks query) ;;;
  let query :=
    match authors with
    | Some (a :: l) =>
        if jinjiang_search_with_author self
        then query ++ u " " ++ join (u " ") (a :: l)
        else query
    | _ => query
    end in
  book_urls <- load_book_urls_new self query ;;
  results <- run_all (map (load_book self) book_urls) ;;
  ret (flat_map
         (fun book => match book with Some ((_ :: _) as b) => [b] | _ => [] end)
         (as_completed results)).

(** ** [generate_title_variations] *)

Definition stopwords : list str :=
  [u "完结"; u "完本"; u "连载"; u "番外"; u "全本"; u "txt"; u "全文";
   u "番外篇"].

(** [sorted(tokens, key=len, reverse=True)]: stable, longest first *)
Fixpoint insert_by_length (t : str) (sorted : list str) : list str :=
  match sorted with
  | [] => [t]
  | x :: r =>
      if (length x <=? length t)%nat then t :: sorted
      else x :: insert_by_length t r
  end.

Definition sort_by_length (tokens : list str) : list str :=
  fold_right insert_by_length [] tokens.

Definition generate_title_variations (cleaned_title : str) : list str :=
  match cleaned_title with
  | [] => []
  | _ =>
      let short :=
        collapse_spaces
          (fold_left (fun short w => replace w (u " ") short) stopwords
             cleaned_title) in
      let variations :=
        if nonempty short && negb (str_eqb short cleaned_title)
        then [short] else [] in
      let tokens :=
        sort_by_length (filter nonempty (re_split isspace cleaned_title)) in
      fold_left
        (fun variations t =>
           if (2 <=? length t)%nat && negb (existsb (str_eqb t) variations)
           then variations ++ [t] else variations)
        (firstn 5 tokens) variations
  end.

(** ** SearchOrchestrator: [identify] *)

(** [get_book_url(identifiers)]: the id and the URL *)
Definition get_book_url (identifiers : pydict) : option (pyval * str) :=
  let jinjiang_id := dict_get identifiers PROVIDER_ID in
  if truthy jinjiang_id
  then Some (jinjiang_id, book_detail_web_url jinjiang_id)
  else None.

(** the retry over the title variations, until one finds books *)
Fixpoint search_variations (self : searcher) (authors : option (list str))
    (variations : list str) (books : list pydict) : M (list pydict) :=
  match variations with
  | [] => ret books
  | var :: rest =>
      found <- search_books self var authors ;;
      match found with
      | _ :: _ => ret found
      | [] => search_variations self authors rest found
      end
  end.

(** The books that [identify] hands over to the result queue; [None] when
    it returns at once because there is nothing to search for.
    [aborted k] tells whether the abort flag is set when the loop is about
    to deliver the book number [k]. *)
Fixpoint deliver (aborted : nat -> bool) (k : nat) (books : list pydict)
    : list pydict :=
  match books with
  | [] => []
  | b :: rest =>
      if aborted k then []
      else match b with
           | [] => deliver aborted (S k) rest
           | _ => b :: deliver aborted (S k) rest
           end
  end.

Definition identify (self : searcher) (aborted : nat -> bool)
    (title : option str) (authors : option (list str))
    (identifiers : pydict) : M (option (list pydict)) :=
  match get_book_url identifiers with
  | Some (book_id, url) =>
      book <- load_book self url ;;
      let books := match book with Some ((_ :: _) as b) => [b] | _ => [] end in
      ret (Some (deliver aborted 0 books))
  | None =>
      let no_title := match title with Some (_ :: _) => false | _ => true end in
      let no_authors :=
        match authors with Some (_ :: _) => false | _ => true end in
      if no_title && no_authors then ret None
      else
        let cleaned_title :=
          match title with Some ((_ :: _) as t) => normalize_query t | _ => [] end in
        let cleaned_authors :=
          match authors with
          | Some ((_ :: _) as l) => map normalize_query l
          | _ => []
          end in
        books <- search_books self
                   (match cleaned_title with
                    | [] => join (u " ") cleaned_authors
                    | _ => cleaned_title
                    end) authors ;;
        books <-
          match books, cleaned_authors with
          | [], _ :: _ =>
              search_books self
                (u "#" ++ join (u " ") cleaned_authors ++ u "#") authors
          | _, _ => ret books
          end ;;
        books <-
          match books, cleaned_title with
          | [], _ :: _ =>
              search_variations self authors
                (generate_title_variations cleaned_title) books
          | _, _ => ret books
          end ;;
        ret (Some (deliver aborted 0 books))
  end.

(** ** [to_metadata]: the published date

    Of [to_metadata] the embedding has the part that reads the published
    date of a record: the text after its three replacements, and the format
    that the first matching pattern hands to [strptime]. *)

(** the formats '%Y-%m-%d', '%Y-%m' and '%Y' *)
Inductive date_format := FormatDay | FormatMonth | FormatYear.

(** [\d{n}] *)
Fixpoint re_digits {A} (n : nat) (k : str -> option A) (s : str) : option A :=
  match n with
  | O => k s
  | S n' => re_one is_decimal (re_digits n' k) s
  end.

Definition re_dash {A} (k : str -> option A) (s : str) : option A :=
  re_one (fun c => c =? 0x2D) k s.

(** [None] when [publishedDate] is empty or no pattern matches: the record
    then gets no date *)
Definition pubdate_format (publishedDate : str) : option (str * date_format) :=
  match publishedDate with
  | [] => None
  | _ =>
      let pubdate_str :=
        replace (u "日") []
          (replace (u "月") (u "-") (replace (u "年") (u "-") publishedDate)) in
      match re_digits 4 (re_dash (re_digits 2 (re_dash (re_digits 2 (re_eol tt)))))
              pubdate_str with
      | Some _ => Some (pubdate_str, FormatDay)
      | None =>
      match re_digits 4 (re_dash (re_digits 2 (re_eol tt))) pubdate_str with
      | Some _ => Some (pubdate_str, FormatMonth)
      | None =>
      match re_digits 4 (re_eol tt) pubdate_str with
      | Some _ => Some (pubdate_str, FormatYear)
      | None => None
      end end end
  end.

End Pipeline.

(* ================================================================== *)
(** * Part II.  Lemmas and theorems *)
(* ================================================================== *)

(** ** A reference interpreter

    An instance of the interfaces, to run the definitions on examples: the
    CJK ideographs are the only letters beyond ASCII, [html2text] is not
    installed, JSON text is not decoded, and the network answers nothing. *)

#[local] Program Instance basic_unicode : UnicodeData := {
  uni_alnum := fun c => in_range 0x4E00 0x9FFF c;
  uni_decimal := fun _ => None;
  uni_lower := fun s => s;
  uni_capitalize := fun s => s;
  uni_isdigit := fun _ => false
}.
Next Obligation.
  unfold in_range in H. apply andb_true_iff in H. destruct H as [H1 H2].
  apply N.leb_le in H1. apply N.leb_le in H2.
  destruct (isspace c) eqn:S; [| reflexivity].
  unfold isspace in S. rewrite !orb_true_iff in S.
  unfold in_range in S. rewrite !andb_true_iff, !N.leb_le, !N.eqb_eq in S. lia.
Qed.

Fixpoint dedup_str (l : list str) : list str :=
  match l with
  | [] => []
  | x :: r => if existsb (str_eqb x) r then dedup_str r else x :: dedup_str r
  end.

Lemma str_eqb_eq a b : str_eqb a b = true <-> a = b.
Proof.
  unfold str_eqb. destruct (list_eq_dec N.eq_dec a b); split; congruence.
Qed.

Lemma dedup_str_In l x : In x (dedup_str l) <-> In x l.
Proof.
  induction l as [| y r IH]; simpl; [tauto |].
  destruct (existsb (str_eqb y) r) eqn:E.
  - rewrite IH. split; [tauto |]. intros [-> | Hin]; [| assumption].
    apply existsb_exists in E. destruct E as [z [Hz Ez]].
    apply str_eqb_eq in Ez. now subst.
  - simpl. rewrite IH. tauto.
Qed.

Lemma dedup_str_NoDup l : NoDup (dedup_str l).
Proof.
  induction l as [| y r IH]; simpl; [constructor |].
  destruct (existsb (str_eqb y) r) eqn:E; [assumption |].
  constructor; [| assumption].
  rewrite dedup_str_In. intros Hin.
  assert (existsb (str_eqb y) r = true); [| congruence].
  apply existsb_exists. exists y. split; [assumption | now apply str_eqb_eq].
Qed.

#[local] Instance basic_runtime : Runtime := {
  html2text_lib := None;
  py_repr := fun _ => u "[...]";
  json_loads := fun _ => None;
  json_dumps := fun _ => u "[...]";
  int_of_text := fun _ => None;
  urlencode := fun ps => join (u "&") (map (fun kv => fst kv ++ u "=" ++ snd kv) ps);
  unquote := fun s => s;
  query_params := fun _ => [];
  set_iteration := dedup_str;
  set_iteration_NoDup := dedup_str_NoDup;
  set_iteration_In := dedup_str_In;
  local_date := fun _ _ => None
}.

#[local] Instance basic_html : HtmlLibrary := {
  etree_HTML := fun _ => None
}.

#[local] Instance silent_network : Network := {
  urlopen := fun _ _ => None;
  as_completed := fun l => l;
  as_completed_perm := fun l => Permutation_refl l
}.

Example u_ascii : u "t=4" = [0x74; 0x3D; 0x34].
Proof. reflexivity. Qed.

Example u_cjk : u "作者：" = [0x4F5C; 0x8005; 0xFF1A].
Proof. reflexivity. Qed.

(** ** Characters and ranges *)

Lemma in_range_spec lo hi c : in_range lo hi c = true <-> lo <= c <= hi.
Proof.
  unfold in_range. rewrite andb_true_iff, !N.leb_le. tauto.
Qed.

Lemma in_range_false lo hi c : in_range lo hi c = false <-> c < lo \/ hi < c.
Proof.
  unfold in_range. rewrite andb_false_iff, !N.leb_gt. tauto.
Qed.

Lemma mem_In c s : mem c s = true <-> In c s.
Proof.
  unfold mem. rewrite existsb_exists. split.
  - intros [x [Hx E]]. apply N.eqb_eq in E. now subst.
  - intros H. exists c. split; [assumption | apply N.eqb_refl].
Qed.

Lemma mem_not_In c s : mem c s = false <-> ~ In c s.
Proof.
  rewrite <- mem_In. destruct (mem c s); split; congruence.
Qed.

(** Turns the boolean tests on code points of a goal into arithmetic. *)
Ltac chars :=
  unfold is_fullwidth, ascii_alnum, ascii_digit, ascii_upper, ascii_lower in *;
  repeat match goal with
  | H : _ && _ = true |- _ => apply andb_true_iff in H; destruct H
  | H : _ || _ = false |- _ => apply orb_false_iff in H; destruct H
  | H : in_range _ _ _ = true |- _ => apply in_range_spec in H
  | H : in_range _ _ _ = false |- _ => apply in_range_false in H
  | H : (_ =? _) = true |- _ => apply N.eqb_eq in H
  | H : (_ =? _) = false |- _ => apply N.eqb_neq in H
  | H : (_ <? _) = true |- _ => apply N.ltb_lt in H
  | H : (_ <? _) = false |- _ => apply N.ltb_ge in H
  end.

Lemma isspace_cases c :
  isspace c = true ->
  c <= 0x20 \/ c = 0x85 \/ c = 0xA0 \/ c = 0x1680 \/ 0x2000 <= c <= 0x205F
  \/ c = 0x3000.
Proof.
  unfold isspace. rewrite !orb_true_iff, !in_range_spec, !N.eqb_eq. lia.
Qed.

Section TextFacts.
Context {U : UnicodeData}.

Lemma is_word_not_space c : is_word c = true -> isspace c = false.
Proof.
  unfold is_word, isalnum. intros H.
  apply orb_true_iff in H. destruct H as [H | H].
  - destruct (c <? 128) eqn:E.
    + destruct (isspace c) eqn:S; [| reflexivity].
      apply isspace_cases in S. unfold ascii_alnum in H.
      rewrite !orb_true_iff in H. unfold ascii_digit, ascii_upper, ascii_lower in H.
      rewrite !in_range_spec in H. apply N.ltb_lt in E. lia.
    + now apply uni_alnum_not_space.
  - apply N.eqb_eq in H. subst. reflexivity.
Qed.

(** A kept character that is white space is the plain space, unless it is
    the ideographic space (which [full2half] has folded before). *)
Lemma kept_space c :
  kept c = true -> isspace c = true -> c = 0x20 \/ c = 0x3000.
Proof.
  unfold kept. rewrite !orb_true_iff. intros H S.
  destruct H as [[[[[[[[H | H] | H] | H] | H] | H] | H] | H] | H].
  - apply is_word_not_space in H. congruence.
  - apply in_range_spec in H. apply isspace_cases in S. lia.
  - apply in_range_spec in H. apply isspace_cases in S. lia.
  - apply N.eqb_eq in H. subst. discriminate.
  - apply N.eqb_eq in H. subst. discriminate.
  - apply N.eqb_eq in H. subst. discriminate.
  - apply N.eqb_eq in H. subst. discriminate.
  - apply N.eqb_eq in H. subst. discriminate.
  - apply N.eqb_eq in H. now left.
Qed.

End TextFacts.

(** ** The scanners keep, drop or insert characters *)

Section Scanners.
Context {U : UnicodeData}.

Lemma sub_bracketed_from_In o c b s y :
  In y (sub_bracketed_from o c b s) -> In y s.
Proof.
  revert b. induction s as [| x r IH]; intros b; simpl; [tauto |].
  destruct b.
  - destruct (x =? c); intros H; right; eapply IH; eassumption.
  - destruct ((x =? o) && mem c r).
    + intros H; right; eapply IH; eassumption.
    + simpl. intros [H | H]; [now left | right; eapply IH; eassumption].
Qed.

Lemma Forall_sub_bracketed (P : N -> Prop) o c s :
  Forall P s -> Forall P (sub_bracketed o c s).
Proof.
  rewrite !Forall_forall. intros H y Hy.
  apply H. eapply sub_bracketed_from_In. exact Hy.
Qed.

Lemma replace_char_In old new s y :
  In y (replace_char old new s) <->
  (In y s /\ y <> old) \/ (In old s /\ In y new).
Proof.
  unfold replace_char. rewrite in_flat_map. split.
  - intros [x [Hx Hy]]. destruct (N.eqb_spec x old) as [-> | Hne].
    + right. tauto.
    + left. destruct Hy as [-> | []]. tauto.
  - intros [[Hy Hne] | [Ho Hy]].
    + exists y. split; [assumption |].
      destruct (N.eqb_spec y old); [contradiction | now left].
    + exists old. split; [assumption |]. now rewrite N.eqb_refl.
Qed.

Lemma sub_runs_from_In p b s y :
  In y (sub_runs_from p b s) -> (In y s /\ p y = false) \/ y = 0x20.
Proof.
  revert b. induction s as [| x r IH]; intros b; simpl; [tauto |].
  destruct (p x) eqn:E.
  - destruct b; simpl.
    + intros H. destruct (IH _ H) as [[? ?] | ?]; tauto.
    + intros [H | H]; [now right |].
      destruct (IH _ H) as [[? ?] | ?]; tauto.
  - simpl. intros [H | H].
    + subst. tauto.
    + destruct (IH _ H) as [[? ?] | ?]; tauto.
Qed.

Lemma lstrip_In s y : In y (lstrip s) -> In y s.
Proof.
  induction s as [| x r IH]; simpl; [tauto |].
  destruct (isspace x); [intros H; right; auto | simpl; tauto].
Qed.

Lemma rstrip_In s y : In y (rstrip s) -> In y s.
Proof.
  induction s as [| x r IH]; simpl; [tauto |].
  destruct (rstrip r) as [| z r'].
  - destruct (isspace x); simpl; tauto.
  - intros [H | H]; [now left | right; apply IH, H].
Qed.

Lemma strip_In s y : In y (strip s) -> In y s.
Proof.
  unfold strip. intros H. now apply lstrip_In, rstrip_In.
Qed.

Lemma collapse_spaces_In s y :
  In y (collapse_spaces s) -> In y s \/ y = 0x20.
Proof.
  unfold collapse_spaces, sub_runs. intros H.
  apply strip_In, sub_runs_from_In in H. tauto.
Qed.

(** *** Matching brackets *)

(** No opening character has a closing character after it. *)
Fixpoint no_pair (o c : N) (s : str) : Prop :=
  match s with
  | [] => True
  | x :: r => (x = o -> ~ In c r) /\ no_pair o c r
  end.

Definition skeleton (o c : N) (s : str) : str :=
  filter (fun x => (x =? o) || (x =? c)) s.

Lemma skeleton_In o c s : In c (skeleton o c s) <-> In c s.
Proof.
  unfold skeleton. rewrite filter_In, N.eqb_refl, orb_true_r. tauto.
Qed.

Lemma no_pair_skeleton o c s : no_pair o c s <-> no_pair o c (skeleton o c s).
Proof.
  induction s as [| x r IH]; simpl; [tauto |].
  destruct (N.eqb_spec x o) as [-> | Ho]; simpl.
  - rewrite skeleton_In. fold (skeleton o c r). tauto.
  - destruct (N.eqb_spec x c) as [-> | Hc]; simpl.
    + rewrite skeleton_In. fold (skeleton o c r). tauto.
    + tauto.
Qed.

Lemma no_pair_absent o c s : ~ In o s -> no_pair o c s.
Proof.
  induction s as [| x r IH]; simpl; [tauto |].
  intros H. split.
  - intros ->. tauto.
  - apply IH. tauto.
Qed.

Lemma sub_bracketed_from_no_pair o c b s :
  no_pair o c (sub_bracketed_from o c b s).
Proof.
  revert b. induction s as [| x r IH]; intros b; simpl; [exact I |].
  destruct b.
  - destruct (x =? c); apply IH.
  - destruct ((x =? o) && mem c r) eqn:E; [apply IH |].
    simpl. split; [| apply IH].
    intros ->. rewrite N.eqb_refl in E. simpl in E.
    apply mem_not_In in E. intros H. apply E.
    eapply sub_bracketed_from_In. exact H.
Qed.

Lemma sub_bracketed_id o c s : no_pair o c s -> sub_bracketed o c s = s.
Proof.
  unfold sub_bracketed.
  induction s as [| x r IH]; simpl; [reflexivity |].
  intros [Hx Hr].
  destruct (N.eqb_spec x o) as [-> | Hne]; simpl.
  - destruct (mem c r) eqn:E.
    + apply mem_In in E. now destruct Hx.
    + now rewrite IH.
  - now rewrite IH.
Qed.

Lemma skeleton_replace_char o c old new s :
  old <> o -> old <> c -> ~ In o new -> ~ In c new ->
  skeleton o c (replace_char old new s) = skeleton o c s.
Proof.
  intros Ho Hc Hno Hnc.
  assert (Hnew : skeleton o c new = []).
  { unfold skeleton. clear - Hno Hnc.
    induction new as [| y n IH]; simpl; [reflexivity |].
    simpl in Hno, Hnc.
    destruct (N.eqb_spec y o); [tauto |].
    destruct (N.eqb_spec y c); [tauto |]. simpl. apply IH; tauto. }
  unfold replace_char.
  induction s as [| x r IH]; simpl; [reflexivity |].
  unfold skeleton in *. rewrite filter_app.
  destruct (N.eqb_spec x old) as [-> | Hne].
  - rewrite Hnew. simpl.
    destruct (N.eqb_spec old o); [contradiction |].
    destruct (N.eqb_spec old c); [contradiction |]. simpl. apply IH.
  - simpl. rewrite IH. destruct ((x =? o) || (x =? c)); reflexivity.
Qed.

Lemma skeleton_sub_runs_from o c p b s :
  p o = false -> p c = false -> o <> 0x20 -> c <> 0x20 ->
  skeleton o c (sub_runs_from p b s) = skeleton o c s.
Proof.
  intros Ho Hc Hso Hsc. revert b.
  induction s as [| x r IH]; intros b; simpl; [reflexivity |].
  assert (Hx : p x = true -> (x =? o) || (x =? c) = false).
  { intros Hp. destruct (N.eqb_spec x o); [congruence |].
    destruct (N.eqb_spec x c); [congruence | reflexivity]. }
  assert (Hsp : (0x20 =? o) || (0x20 =? c) = false).
  { destruct (N.eqb_spec 0x20 o); [congruence |].
    destruct (N.eqb_spec 0x20 c); [congruence | reflexivity]. }
  destruct (p x) eqn:E.
  - rewrite (Hx eq_refl). destruct b.
    + apply IH.
    + unfold skeleton at 1. cbn [filter]. rewrite Hsp. apply IH.
  - unfold skeleton at 1. cbn [filter]. fold (skeleton o c (sub_runs_from p false r)).
    now rewrite IH.
Qed.

Lemma skeleton_lstrip o c s :
  isspace o = false -> isspace c = false ->
  skeleton o c (lstrip s) = skeleton o c s.
Proof.
  intros Ho Hc. induction s as [| x r IH]; simpl; [reflexivity |].
  destruct (isspace x) eqn:E; [| reflexivity].
  rewrite IH.
  destruct (N.eqb_spec x o); [congruence |].
  destruct (N.eqb_spec x c); [congruence | reflexivity].
Qed.

Lemma skeleton_rstrip o c s :
  isspace o = false -> isspace c = false ->
  skeleton o c (rstrip s) = skeleton o c s.
Proof.
  intros Ho Hc. induction s as [| x r IH]; simpl; [reflexivity |].
  rewrite <- IH. destruct (rstrip r) as [| z r'].
  - destruct (isspace x) eqn:E; simpl; [| reflexivity].
    destruct (N.eqb_spec x o); [congruence |].
    destruct (N.eqb_spec x c); [congruence | reflexivity].
  - reflexivity.
Qed.

End Scanners.

(** ** White space: collapsing and trimming *)

Section Spaces.
Context {U : UnicodeData}.

Definition head_not_space (s : str) : Prop :=
  match s with
  | [] => True
  | y :: _ => isspace y = false
  end.

(** Every white-space character is a plain space followed by a character
    that is not white space (or by the end of the string). *)
Fixpoint spaced (s : str) : Prop :=
  match s with
  | [] => True
  | x :: r => (isspace x = true -> x = 0x20 /\ head_not_space r) /\ spaced r
  end.

Lemma sub_runs_spaced b s :
  spaced (sub_runs_from isspace b s) /\
  (b = true -> head_not_space (sub_runs_from isspace b s)).
Proof.
  revert b. induction s as [| x r IH]; intros b; simpl; [tauto |].
  destruct (isspace x) eqn:E.
  - destruct b.
    + apply IH.
    + split; [| discriminate]. simpl. split.
      * intros _. split; [reflexivity | now apply (IH true)].
      * apply (IH true).
  - simpl. split.
    + split; [congruence | apply (IH false)].
    + intros _. exact E.
Qed.

Lemma sub_runs_from_head b s :
  head_not_space s -> sub_runs_from isspace b s = sub_runs_from isspace false s.
Proof.
  destruct s as [| x r]; simpl; [reflexivity |].
  intros ->. reflexivity.
Qed.

Lemma spaced_sub_runs_id s : spaced s -> sub_runs isspace s = s.
Proof.
  unfold sub_runs. induction s as [| x r IH]; simpl; [reflexivity |].
  intros [Hx Hr]. destruct (isspace x) eqn:E.
  - destruct (Hx eq_refl) as [-> Hh].
    rewrite (sub_runs_from_head true r Hh). now rewrite IH.
  - now rewrite IH.
Qed.

Lemma spaced_lstrip s : spaced s -> spaced (lstrip s).
Proof.
  induction s as [| x r IH]; simpl; [tauto |].
  intros [Hx Hr]. destruct (isspace x) eqn:E; [auto |].
  simpl. split; [congruence | assumption].
Qed.

Lemma rstrip_head s : head_not_space s -> head_not_space (rstrip s).
Proof.
  destruct s as [| x r]; simpl; [tauto |].
  intros E. destruct (rstrip r); [rewrite E |]; exact E.
Qed.

Lemma rstrip_cons_head y s r : rstrip s = y :: r -> exists r', s = y :: r'.
Proof.
  destruct s as [| x s']; simpl; [discriminate |].
  destruct (rstrip s').
  - destruct (isspace x); [discriminate |]. intros H. injection H as -> _. eauto.
  - intros H. injection H as -> _. eauto.
Qed.

Lemma spaced_rstrip s : spaced s -> spaced (rstrip s).
Proof.
  induction s as [| x r IH]; simpl; [tauto |].
  intros [Hx Hr]. specialize (IH Hr).
  destruct (rstrip r) as [| z r'] eqn:E.
  - destruct (isspace x) eqn:S; simpl; [exact I |].
    split; [congruence | exact I].
  - simpl. split; [| exact IH].
    intros S. destruct (Hx S) as [-> Hh]. split; [reflexivity |].
    destruct (rstrip_cons_head _ _ _ E) as [r'' ->]. exact Hh.
Qed.

Lemma rstrip_idem s : rstrip (rstrip s) = rstrip s.
Proof.
  induction s as [| x r IH]; simpl; [reflexivity |].
  destruct (rstrip r) as [| z r'] eqn:E.
  - destruct (isspace x) eqn:S; simpl; [reflexivity | now rewrite S].
  - change (rstrip (x :: z :: r')) with
      (match rstrip (z :: r') with
       | [] => if isspace x then [] else [x]
       | w => x :: w
       end).
    now rewrite IH.
Qed.

Lemma lstrip_head s : head_not_space (lstrip s).
Proof.
  induction s as [| x r IH]; simpl; [exact I |].
  destruct (isspace x) eqn:E; [exact IH | exact E].
Qed.

Lemma lstrip_id s : head_not_space s -> lstrip s = s.
Proof.
  destruct s as [| x r]; simpl; [reflexivity |]. now intros ->.
Qed.

Lemma strip_idem s : strip (strip s) = strip s.
Proof.
  unfold strip.
  rewrite (lstrip_id (rstrip (lstrip s))).
  - apply rstrip_idem.
  - apply rstrip_head, lstrip_head.
Qed.

Lemma collapse_spaces_idem s :
  collapse_spaces (collapse_spaces s) = collapse_spaces s.
Proof.
  unfold collapse_spaces.
  rewrite (spaced_sub_runs_id (strip (sub_runs isspace s))).
  - apply strip_idem.
  - unfold strip. apply spaced_rstrip, spaced_lstrip, sub_runs_spaced.
Qed.

Lemma sub_runs_id p s :
  Forall (fun x => p x = false) s -> sub_runs p s = s.
Proof.
  unfold sub_runs. induction 1 as [| x r Hx _ IH]; simpl; [reflexivity |].
  now rewrite Hx, IH.
Qed.

Lemma replace_char_id old new s : ~ In old s -> replace_char old new s = s.
Proof.
  unfold replace_char. induction s as [| x r IH]; simpl; [reflexivity |].
  intros H. destruct (N.eqb_spec x old); [tauto |].
  simpl. rewrite IH; tauto.
Qed.

End Spaces.

(** ** QueryNormalizer: what a normalized query looks like *)

Section Normalizer.
Context {U : UnicodeData}.

Lemma half_width_not_fullwidth c : is_fullwidth (half_width c) = false.
Proof.
  unfold half_width.
  destruct (c =? 0x3000) eqn:E; [reflexivity |].
  destruct (in_range 0xFF01 0xFF5E c) eqn:R.
  - chars. unfold is_fullwidth. apply orb_false_iff. split.
    + apply N.eqb_neq. lia.
    + apply in_range_false. lia.
  - unfold is_fullwidth. now rewrite E, R.
Qed.

Lemma half_width_id c : is_fullwidth c = false -> half_width c = c.
Proof.
  unfold is_fullwidth, half_width. intros H.
  apply orb_false_iff in H. destruct H as [-> ->]. reflexivity.
Qed.

Lemma full2half_id s :
  Forall (fun c => is_fullwidth c = false) s -> full2half s = s.
Proof.
  unfold full2half. induction 1 as [| x r Hx _ IH]; simpl; [reflexivity |].
  now rewrite half_width_id, IH.
Qed.

Lemma Forall_replace_char (P : N -> Prop) old new s :
  Forall P s -> Forall P new -> Forall P (replace_char old new s).
Proof.
  rewrite !Forall_forall. intros Hs Hn y Hy.
  apply replace_char_In in Hy. destruct Hy as [[H _] | [_ H]]; auto.
Qed.

Lemma replace_char_removes old new s :
  ~ In old new -> Forall (fun y => y <> old) (replace_char old new s).
Proof.
  intros Hn. apply Forall_forall. intros y Hy.
  apply replace_char_In in Hy. destruct Hy as [[_ H] | [_ H]]; [exact H |].
  intros ->. contradiction.
Qed.

Lemma fold_punctuation_Forall (P : N -> Prop) s :
  Forall P s -> P 0x20 -> P 0x3A -> P 0x2E -> P 0x2C ->
  Forall P (fold_punctuation s).
Proof.
  intros Hs H1 H2 H3 H4. unfold fold_punctuation.
  repeat (apply Forall_replace_char; [| repeat constructor; assumption]).
  exact Hs.
Qed.

(** the characters that [fold_punctuation] replaces *)
Definition folded (c : N) : bool :=
  (c =? 0xB7) || (c =? 0x2022) || (c =? 0x30FB) || (c =? 0x2026)
  || (c =? 0xFF1A) || (c =? 0x3002) || (c =? 0xFF0C).

Ltac gone :=
  first
    [ apply replace_char_removes; simpl; intros [E | []]; discriminate E
    | apply Forall_replace_char;
      [ gone | repeat constructor; intros E; discriminate E ] ].

Lemma fold_punctuation_removes s :
  Forall (fun y => folded y = false) (fold_punctuation s).
Proof.
  assert (H1 : Forall (fun y => y <> 0xB7) (fold_punctuation s))
    by (unfold fold_punctuation; gone).
  assert (H2 : Forall (fun y => y <> 0x2022) (fold_punctuation s))
    by (unfold fold_punctuation; gone).
  assert (H3 : Forall (fun y => y <> 0x30FB) (fold_punctuation s))
    by (unfold fold_punctuation; gone).
  assert (H4 : Forall (fun y => y <> 0x2026) (fold_punctuation s))
    by (unfold fold_punctuation; gone).
  assert (H5 : Forall (fun y => y <> 0xFF1A) (fold_punctuation s))
    by (unfold fold_punctuation; gone).
  assert (H6 : Forall (fun y => y <> 0x3002) (fold_punctuation s))
    by (unfold fold_punctuation; gone).
  assert (H7 : Forall (fun y => y <> 0xFF0C) (fold_punctuation s))
    by (unfold fold_punctuation; gone).
  rewrite Forall_forall in *. intros y Hy. unfold folded.
  repeat (apply orb_false_iff; split); apply N.eqb_neq; auto.
Qed.

Lemma fold_punctuation_id s :
  Forall (fun y => folded y = false) s -> fold_punctuation s = s.
Proof.
  intros H. rewrite Forall_forall in H.
  assert (Hid : forall old new, folded old = true -> replace_char old new s = s).
  { intros old new Ho. apply replace_char_id. intros Hin.
    apply H in Hin. congruence. }
  unfold fold_punctuation.
  rewrite (Hid 0xB7), (Hid 0x2022), (Hid 0x30FB), (Hid 0x2026), (Hid 0xFF1A),
    (Hid 0x3002), (Hid 0xFF0C); reflexivity.
Qed.

Lemma skeleton_fold_punctuation s :
  skeleton 0x3010 0x3011 (fold_punctuation s) = skeleton 0x3010 0x3011 s.
Proof.
  unfold fold_punctuation.
  rewrite !skeleton_replace_char; try reflexivity;
    first [ discriminate | simpl; intros [E | []]; discriminate E ].
Qed.

Lemma kept_cjk_punctuation c : in_range 0x3000 0x303F c = true -> kept c = true.
Proof.
  unfold kept. intros ->. rewrite orb_true_r. reflexivity.
Qed.

Lemma skeleton_collapse_spaces o c s :
  isspace o = false -> isspace c = false ->
  skeleton o c (collapse_spaces s) = skeleton o c s.
Proof.
  intros Ho Hc. unfold collapse_spaces, strip, sub_runs.
  rewrite skeleton_rstrip, skeleton_lstrip, skeleton_sub_runs_from;
    try assumption; try reflexivity; intros ->; discriminate.
Qed.

(** The five steps of [normalize_query] after the test for the empty
    string. *)
Definition normalize_steps (s : str) : str :=
  collapse_spaces
    (sub_runs (fun c => negb (kept c))
       (fold_punctuation (strip_annotations (full2half s)))).

Lemma normalize_query_steps s :
  normalize_query s = match s with [] => [] | _ => normalize_steps s end.
Proof. destruct s; reflexivity. Qed.

(** Every character the steps insert satisfies [P], and every character of
    the half-width form satisfies it: then the whole result does. *)
Lemma normalize_steps_Forall (P : N -> Prop) s :
  Forall P (full2half s) -> P 0x20 -> P 0x3A -> P 0x2E -> P 0x2C ->
  Forall P (normalize_steps s).
Proof.
  intros Hs H1 H2 H3 H4. unfold normalize_steps.
  assert (Hf : Forall P (fold_punctuation (strip_annotations (full2half s)))).
  { apply fold_punctuation_Forall; try assumption.
    unfold strip_annotations. now repeat apply Forall_sub_bracketed. }
  rewrite Forall_forall in *. intros y Hy.
  apply collapse_spaces_In in Hy. destruct Hy as [Hy | ->]; [| assumption].
  apply sub_runs_from_In in Hy. destruct Hy as [[Hy _] | ->]; auto.
Qed.

Lemma normalize_steps_not_fullwidth s :
  Forall (fun c => is_fullwidth c = false) (normalize_steps s).
Proof.
  apply normalize_steps_Forall; try reflexivity.
  unfold full2half. apply Forall_forall. intros y Hy.
  apply in_map_iff in Hy. destruct Hy as [x [<- _]].
  apply half_width_not_fullwidth.
Qed.

Lemma normalize_steps_folded s :
  Forall (fun c => folded c = false) (normalize_steps s).
Proof.
  unfold normalize_steps. apply Forall_forall. intros y Hy.
  pose proof (fold_punctuation_removes (strip_annotations (full2half s))) as F.
  rewrite Forall_forall in F.
  apply collapse_spaces_In in Hy. destruct Hy as [Hy | ->]; [| reflexivity].
  apply sub_runs_from_In in Hy. destruct Hy as [[Hy _] | ->]; [| reflexivity].
  now apply F.
Qed.

Lemma normalize_steps_kept s :
  Forall (fun c => kept c = true) (normalize_steps s).
Proof.
  unfold normalize_steps. apply Forall_forall. intros y Hy.
  apply collapse_spaces_In in Hy.
  destruct Hy as [Hy | ->]; [| unfold kept; now rewrite orb_true_r].
  apply sub_runs_from_In in Hy.
  destruct Hy as [[_ Hy] | ->]; [| unfold kept; now rewrite orb_true_r].
  now apply negb_false_iff in Hy.
Qed.

Lemma normalize_steps_no_pair s : no_pair 0x3010 0x3011 (normalize_steps s).
Proof.
  unfold normalize_steps.
  apply (proj2 (no_pair_skeleton _ _ _)).
  rewrite skeleton_collapse_spaces by reflexivity.
  unfold sub_runs. rewrite skeleton_sub_runs_from.
  - rewrite skeleton_fold_punctuation. apply (proj1 (no_pair_skeleton _ _ _)).
    unfold strip_annotations, sub_bracketed. apply sub_bracketed_from_no_pair.
  - now rewrite kept_cjk_punctuation.
  - now rewrite kept_cjk_punctuation.
  - discriminate.
  - discriminate.
Qed.

(** The steps leave their own output unchanged. *)
Lemma normalize_steps_fixpoint s :
  normalize_steps (normalize_steps s) = normalize_steps s.
Proof.
  pose proof (normalize_steps_not_fullwidth s) as Hfw.
  pose proof (normalize_steps_folded s) as Hfold.
  pose proof (normalize_steps_kept s) as Hkept.
  pose proof (normalize_steps_no_pair s) as Hpair.
  set (t := normalize_steps s) in *.
  assert (Habs : forall c, kept c = false \/ is_fullwidth c = true -> ~ In c t).
  { intros c Hc Hin. rewrite Forall_forall in Hfw, Hkept.
    specialize (Hfw c Hin). specialize (Hkept c Hin).
    destruct Hc; congruence. }
  unfold normalize_steps at 1.
  rewrite (full2half_id t Hfw).
  assert (Ha : strip_annotations t = t).
  { unfold strip_annotations.
    rewrite (sub_bracketed_id 0x28 0x29 t)
      by (apply no_pair_absent, Habs; left; reflexivity).
    rewrite (sub_bracketed_id 0x5B 0x5D t)
      by (apply no_pair_absent, Habs; left; reflexivity).
    rewrite (sub_bracketed_id 0xFF08 0xFF09 t)
      by (apply no_pair_absent, Habs; right; reflexivity).
    apply sub_bracketed_id. exact Hpair. }
  rewrite Ha, (fold_punctuation_id t Hfold).
  rewrite sub_runs_id.
  - unfold t, normalize_steps. apply collapse_spaces_idem.
  - apply Forall_forall. intros y Hy. rewrite Forall_forall in Hkept.
    rewrite (Hkept y Hy). reflexivity.
Qed.

(** C5. [normalize_query] is idempotent, and on an input made only of
    full-width punctuation and spaces (code points 0xFF01-0xFF5E and 0x3000)
    every character of the result is the half-width equivalent of such a
    character: a printable ASCII character or the plain space, never a
    full-width one. *)
Theorem normalize_query_idempotent_halfwidth :
  (forall s, normalize_query (normalize_query s) = normalize_query s) /\
  (forall s, Forall (fun c => is_fullwidth c = true) s ->
     Forall (fun c => (exists d, is_fullwidth d = true /\ half_width d = c)
                      /\ in_range 0x20 0x7E c = true
                      /\ is_fullwidth c = false)
            (normalize_query s)).
Proof.
  split.
  - intros s. rewrite (normalize_query_steps s).
    destruct s as [| x r]; [reflexivity |].
    rewrite normalize_query_steps, normalize_steps_fixpoint.
    now destruct (normalize_steps (x :: r)).
  - intros s Hs. rewrite normalize_query_steps.
    destruct s as [| x r]; [constructor |].
    apply normalize_steps_Forall.
    + unfold full2half. apply Forall_forall. intros y Hy.
      apply in_map_iff in Hy. destruct Hy as [d [<- Hd]].
      rewrite Forall_forall in Hs. specialize (Hs d Hd).
      split; [eauto |]. split; [| apply half_width_not_fullwidth].
      unfold half_width. unfold is_fullwidth in Hs.
      destruct (d =? 0x3000) eqn:E; [reflexivity |].
      simpl in Hs. rewrite Hs. chars. apply in_range_spec. lia.
    + split; [exists 0x3000; split; reflexivity | split; reflexivity].
    + split; [exists 0xFF1A; split; reflexivity | split; reflexivity].
    + split; [exists 0xFF0E; split; reflexivity | split; reflexivity].
    + split; [exists 0xFF0C; split; reflexivity | split; reflexivity].
Qed.

End Normalizer.

(** ** KeywordClassifier *)

Section Classifier.
Context {U : UnicodeData}.

Example classify_author_prefix :
  parse_search_keyword (u "作者:张三") = (u "张三", 2).
Proof. vm_compute. reflexivity. Qed.

Example classify_type_upper :
  parse_search_keyword (u "TYPE : 5 x") = (u "x", 5).
Proof. vm_compute. reflexivity. Qed.

Example classify_type_unknown_code :
  parse_search_keyword (u "t=3 abc") = (u "t=3 abc", 1).
Proof. vm_compute. reflexivity. Qed.

Example classify_type_no_rest :
  parse_search_keyword (u " t=2 ") = (u " t=2 ", 2).
Proof. vm_compute. reflexivity. Qed.

Example classify_fullwidth_colon :
  parse_search_keyword (u "Author： Qishan ") = (u "Qishan", 2).
Proof. vm_compute. reflexivity. Qed.

Example classify_tag_protagonist :
  parse_search_keyword (u "主角#李四#") = (u "李四", 4).
Proof. vm_compute. reflexivity. Qed.

Example classify_tag_id :
  parse_search_keyword (u "ID#123#") = (u "123", 7).
Proof. vm_compute. reflexivity. Qed.

Lemma SEARCH_TYPE_MAP_values_spec t :
  existsb (N.eqb t) SEARCH_TYPE_MAP_values = true -> In t SEARCH_TYPE_MAP_values.
Proof.
  intros H. apply existsb_exists in H. destruct H as [x [Hx E]].
  apply N.eqb_eq in E. now subst.
Qed.

(** C4. Keyword classification is total: every query string yields a pair
    of a keyword and one of the six search types, the step that may raise
    ([int]) being caught; the empty query is echoed with the Title type;
    and the four queries of the specification classify as it says. *)
Theorem parse_search_keyword_total :
  (forall query, exists kw ty,
      parse_search_keyword query = (kw, ty) /\ In ty SEARCH_TYPE_MAP_values)
  /\ parse_search_keyword [] = ([], SEARCH_TYPE_book)
  /\ parse_search_keyword (u "作者:张三") = (u "张三", SEARCH_TYPE_author)
  /\ parse_search_keyword (u "#张三#") = (u "张三", SEARCH_TYPE_author)
  /\ parse_search_keyword (u "t=4 李四") = (u "李四", SEARCH_TYPE_protagonist)
  /\ parse_search_keyword (u "随便书名") = (u "随便书名", SEARCH_TYPE_book).
Proof.
  split; [| repeat split; vm_compute; reflexivity].
  intros query. unfold parse_search_keyword.
  destruct query as [| x r]; [eexists _, _; split; [reflexivity | now left] |].
  set (q := strip (x :: r)).
  assert (Hin : forall t, In t [1; 2; 4; 5; 6; 7] -> In t SEARCH_TYPE_MAP_values)
    by (intros t H; exact H).
  destruct (match_type_code q) as [[g1 g2] |].
  - destruct (int_of_digits g1) as [tnum |].
    + destruct (existsb (N.eqb tnum) SEARCH_TYPE_MAP_values) eqn:E.
      * eexists _, _. split; [reflexivity |].
        now apply SEARCH_TYPE_MAP_values_spec.
      * repeat match goal with
        | |- context [match ?m with Some _ => _ | None => _ end] => destruct m
        | |- context [if ?b then _ else _] => destruct b
        end; eexists _, _; (split; [reflexivity | apply Hin; simpl; tauto]).
    + repeat match goal with
      | |- context [match ?m with Some _ => _ | None => _ end] => destruct m
      | |- context [if ?b then _ else _] => destruct b
      end; eexists _, _; (split; [reflexivity | apply Hin; simpl; tauto]).
  - repeat match goal with
    | |- context [match ?m with Some _ => _ | None => _ end] => destruct m
    | |- context [if ?b then _ else _] => destruct b
    end; eexists _, _; (split; [reflexivity | apply Hin; simpl; tauto]).
Qed.

End Classifier.

(** ** Examples on the reference interpreter *)

Example variations_example :
  generate_title_variations (u "总有老师要请家长完结")
  = [u "总有老师要请家长"; u "总有老师要请家长完结"].
Proof. vm_compute. reflexivity. Qed.

Example variations_tokens :
  generate_title_variations (u "ab cde fg h")
  = [u "cde"; u "ab"; u "fg"].
Proof. vm_compute. reflexivity. Qed.

Example pick_example :
  _pick_from (PDict [(u "novelName", PStr (u "X"))]) [u "bookname"; u "novelName"]
  = PStr (u "X").
Proof. vm_compute. reflexivity. Qed.

Example pick_lowercase_example :
  _pick_from (PDict [(u "BOOKNAME", PStr (u "X"))]) [u "bookname"]
  = PStr (u "X").
Proof. vm_compute. reflexivity. Qed.

Example pick_nested_example :
  _pick_from (PDict [(u "data", PList [PDict [(u "title", PStr (u "X"))]])])
    [u "bookname"; u "title"]
  = PStr (u "X").
Proof. vm_compute. reflexivity. Qed.

Example cover_example :
  normalize_cover (u "//img.example/x.jpg") = u "https://img.example/x.jpg".
Proof. vm_compute. reflexivity. Qed.

Example html_to_text_example :
  html_to_text (u "<p>a  <b>b</b></p> <> c") = u "a b <> c".
Proof. vm_compute. reflexivity. Qed.

Example split_authors_example :
  split_authors (u "张三, 李四、王五/Z&Y;") = [u "张三"; u "李四"; u "王五"; u "Z"; u "Y"].
Proof. vm_compute. reflexivity. Qed.

Example sid_example :
  extract_sid_from_cookie (Some (u "a=1; sid=abc_1; token=x")) = PStr (u "abc_1").
Proof. vm_compute. reflexivity. Qed.

Example sidkey_example :
  search_sidkey (u "{sidkey': '12-ab',") = Some (u "12-ab").
Proof. vm_compute. reflexivity. Qed.

Example signed_examples :
  map signed_display
    [PBool true; PStr (u "1"); PStr (u "TRUE"); PStr (u "Yes"); PStr (u "007");
     PInt 3; PStr (u "0"); PStr (u "no"); PStr []; PInt (-1)]
  = [SIGNED; SIGNED; SIGNED; SIGNED; SIGNED; SIGNED;
     NOT_SIGNED; NOT_SIGNED; NOT_SIGNED; NOT_SIGNED].
Proof. vm_compute. reflexivity. Qed.

(** ** BookRecordBuilder: the cover *)

Lemma startswith_app p s : startswith p (p ++ s) = true.
Proof.
  induction p as [| a p IH]; simpl; [reflexivity |].
  now rewrite N.eqb_refl, IH.
Qed.

Lemma startswith_slash_spec cover :
  startswith (u "/") cover
  = match cover with a :: _ => 47 =? a | [] => false end.
Proof.
  change (u "/") with [47]. destruct cover as [| a r]; [reflexivity |].
  cbn [startswith]. apply andb_true_r.
Qed.

Lemma startswith_slashes_spec cover :
  startswith (u "//") cover
  = match cover with a :: b :: _ => (47 =? a) && (47 =? b) | _ => false end.
Proof.
  change (u "//") with [47; 47].
  destruct cover as [| a [| b r]]; cbn [startswith]; try reflexivity.
  - apply andb_false_r.
  - now rewrite andb_true_r.
Qed.

Lemma startswith_slash cover :
  startswith (u "/") cover = false -> lstrip_slash cover = cover.
Proof.
  rewrite startswith_slash_spec. destruct cover as [| a r]; [reflexivity |].
  unfold lstrip_slash. cbn [lstrip_chars mem existsb].
  rewrite N.eqb_sym, orb_false_r. now intros ->.
Qed.

Lemma slashes_slash cover :
  startswith (u "/") cover = false -> startswith (u "//") cover = false.
Proof.
  rewrite startswith_slash_spec, startswith_slashes_spec.
  destruct cover as [| a [| b r]]; try reflexivity. now intros ->.
Qed.

Lemma normalize_cover_protocol_relative cover :
  startswith (u "//") cover = true -> normalize_cover cover = u "https:" ++ cover.
Proof.
  intros H. unfold normalize_cover. rewrite H.
  rewrite startswith_slashes_spec in H.
  destruct cover as [| a [| b r]]; try discriminate H.
  apply andb_true_iff in H. destruct H as [Ha Hb].
  apply N.eqb_eq in Ha, Hb. subst. reflexivity.
Qed.

Lemma normalize_cover_root_relative cover :
  startswith (u "/") cover = true -> startswith (u "//") cover = false ->
  normalize_cover cover = u "https://www.jjwxc.net" ++ cover.
Proof.
  intros H1 H2. unfold normalize_cover. rewrite H1, H2.
  rewrite startswith_slash_spec in H1.
  destruct cover as [| a r]; [discriminate H1 |].
  apply N.eqb_eq in H1. subst. reflexivity.
Qed.

Lemma normalize_cover_relative cover :
  cover <> [] -> startswith (u "/") cover = false ->
  is_absolute_or_data cover = false ->
  normalize_cover cover = u "https://www.jjwxc.net/" ++ cover.
Proof.
  intros Hne Hs Ha.
  unfold normalize_cover. rewrite Hs, (slashes_slash cover Hs).
  unfold is_absolute_or_data in Ha.
  apply orb_false_iff in Ha. destruct Ha as [Ha Hd].
  apply orb_false_iff in Ha. destruct Ha as [Hh Hhs].
  rewrite Hh, Hhs, Hd. cbn [negb andb].
  rewrite (startswith_slash cover Hs).
  destruct cover as [| a r]; [contradiction | reflexivity].
Qed.

Lemma absolute_not_slash cover :
  is_absolute_or_data cover = true -> startswith (u "/") cover = false.
Proof.
  rewrite startswith_slash_spec. unfold is_absolute_or_data.
  change (u "http://") with [104; 116; 116; 112; 58; 47; 47].
  change (u "https://") with [104; 116; 116; 112; 115; 58; 47; 47].
  change (u "data:") with [100; 97; 116; 97; 58].
  destruct cover as [| a r]; [reflexivity |]. cbn [startswith].
  destruct (N.eqb_spec 47 a) as [<- | ]; [| reflexivity].
  discriminate.
Qed.

Lemma normalize_cover_absolute cover :
  is_absolute_or_data cover = true -> normalize_cover cover = cover.
Proof.
  intros Ha. pose proof (absolute_not_slash cover Ha) as Hs.
  assert (Hc : negb (startswith (u "http://") cover)
               && negb (startswith (u "https://") cover)
               && negb (startswith (u "data:") cover) = false).
  { unfold is_absolute_or_data in Ha.
    destruct (startswith (u "http://") cover); [reflexivity |].
    destruct (startswith (u "https://") cover); [reflexivity |].
    destruct (startswith (u "data:") cover); [reflexivity | discriminate Ha]. }
  unfold normalize_cover. rewrite Hs, (slashes_slash cover Hs), Hc.
  destruct cover as [| a r]; [reflexivity |].
  cbv zeta. rewrite Ha. reflexivity.
Qed.

Lemma normalize_cover_empty cover : normalize_cover cover = [] <-> cover = [].
Proof.
  split; [| intros ->; reflexivity].
  intros H. destruct cover as [| a r]; [reflexivity | exfalso].
  destruct (startswith (u "//") (a :: r)) eqn:H2.
  { rewrite normalize_cover_protocol_relative in H by assumption.
    discriminate H. }
  destruct (startswith (u "/") (a :: r)) eqn:H1.
  { rewrite normalize_cover_root_relative in H by assumption.
    discriminate H. }
  destruct (is_absolute_or_data (a :: r)) eqn:Ha.
  - rewrite normalize_cover_absolute in H by assumption. discriminate H.
  - rewrite normalize_cover_relative in H by (assumption || discriminate).
    discriminate H.
Qed.

(** C2, as the specification states it, fails: a relative path without a
    leading slash is neither absolute, protocol-relative, root-relative nor
    a data URI, and it is resolved against the site, not discarded. *)
Lemma normalize_cover_relative_not_discarded :
  ~ (forall cover : str,
       (startswith (u "//") cover = true ->
        normalize_cover cover = u "https:" ++ cover)
       /\ (is_absolute_or_data cover = false ->
           startswith (u "//") cover = false ->
           startswith (u "/") cover = false ->
           normalize_cover cover = [])).
Proof.
  intros H. destruct (H (u "x.jpg")) as [_ H2].
  specialize (H2 eq_refl eq_refl eq_refl). vm_compute in H2. discriminate H2.
Qed.

(** ** BookRecordBuilder: the authors *)

Lemma re_split_from_nonempty p b s : re_split_from p b s <> [].
Proof.
  revert b. induction s as [| x r IH]; intros b; simpl; [discriminate |].
  destruct (p x).
  - destruct b; [apply IH | discriminate].
  - destruct (re_split_from p false r); discriminate.
Qed.

Lemma re_split_from_clean p b s :
  Forall (Forall (fun c => p c = false)) (re_split_from p b s).
Proof.
  revert b. induction s as [| x r IH]; intros b; simpl.
  - repeat constructor.
  - destruct (p x) eqn:E.
    + destruct b; [apply IH |]. constructor; [constructor | apply IH].
    + specialize (IH false). destruct (re_split_from p false r) as [| w ws].
      * repeat constructor. exact E.
      * inversion IH; subst. constructor; [| assumption].
        constructor; assumption.
Qed.

Lemma re_split_from_concat p b s :
  concat (re_split_from p b s) = filter (fun c => negb (p c)) s.
Proof.
  revert b. induction s as [| x r IH]; intros b; simpl; [reflexivity |].
  destruct (p x) eqn:E; simpl.
  - destruct b; simpl; apply IH.
  - specialize (IH false). pose proof (re_split_from_nonempty p false r) as Hne.
    destruct (re_split_from p false r) as [| w ws]; [contradiction |].
    simpl in *. now rewrite IH.
Qed.

Lemma author_delimiter_space c : isspace c = true -> author_delimiter c = true.
Proof. unfold author_delimiter. intros ->. apply orb_true_r. Qed.

Lemma lstrip_clean s : Forall (fun c => isspace c = false) s -> lstrip s = s.
Proof. destruct 1 as [| x r Hx _]; simpl; [reflexivity | now rewrite Hx]. Qed.

Lemma rstrip_clean s : Forall (fun c => isspace c = false) s -> rstrip s = s.
Proof.
  induction 1 as [| x r Hx _ IH]; simpl; [reflexivity |].
  rewrite IH. destruct r; [now rewrite Hx | reflexivity].
Qed.

Lemma strip_clean s : Forall (fun c => author_delimiter c = false) s -> strip s = s.
Proof.
  intros H.
  assert (Hs : Forall (fun c => isspace c = false) s).
  { eapply Forall_impl; [| exact H]. intros c Hc.
    destruct (isspace c) eqn:E; [| reflexivity].
    apply author_delimiter_space in E. congruence. }
  unfold strip. now rewrite lstrip_clean, rstrip_clean.
Qed.

Lemma split_authors_filter s :
  split_authors s = filter nonempty (re_split author_delimiter s).
Proof.
  unfold split_authors, re_split.
  pose proof (re_split_from_clean author_delimiter false s) as Hc.
  induction Hc as [| w ws Hw _ IH]; simpl; [reflexivity |].
  rewrite (strip_clean w Hw).
  destruct (nonempty w); simpl; [rewrite (strip_clean w Hw) |]; now rewrite IH.
Qed.

(** a name that [split_authors] returns as it is *)
Definition plain_name (a : str) : Prop :=
  a <> [] /\ Forall (fun c => author_delimiter c = false) a.

Lemma split_authors_names s : Forall plain_name (split_authors s).
Proof.
  rewrite split_authors_filter. unfold re_split.
  pose proof (re_split_from_clean author_delimiter false s) as Hc.
  induction Hc as [| w ws Hw _ IH]; simpl; [constructor |].
  destruct w as [| x w']; simpl; [exact IH |].
  constructor; [| exact IH]. split; [discriminate | exact Hw].
Qed.

Lemma concat_filter_nonempty (l : list str) :
  concat (filter nonempty l) = concat l.
Proof.
  induction l as [| w ws IH]; simpl; [reflexivity |].
  destruct w; simpl; now rewrite IH.
Qed.

Lemma split_authors_concat s :
  concat (split_authors s) = filter (fun c => negb (author_delimiter c)) s.
Proof.
  rewrite split_authors_filter, concat_filter_nonempty.
  apply re_split_from_concat.
Qed.

Lemma re_split_from_name p b a s :
  a <> [] -> Forall (fun c => p c = false) a ->
  re_split_from p b (a ++ s) =
  match re_split_from p false s with
  | w :: ws => (a ++ w) :: ws
  | [] => [a]
  end.
Proof.
  intros Hne Ha. revert b.
  induction Ha as [| x r Hx Hr IH]; [contradiction |].
  intros b. simpl. rewrite Hx.
  destruct r as [| y r'].
  - simpl. pose proof (re_split_from_nonempty p false s).
    destruct (re_split_from p false s); [contradiction | reflexivity].
  - rewrite IH by discriminate.
    pose proof (re_split_from_nonempty p false s).
    destruct (re_split_from p false s); [contradiction | reflexivity].
Qed.

Lemma re_split_from_run p s :
  match s with x :: _ => p x = false | [] => True end ->
  re_split_from p true s = re_split_from p false s.
Proof.
  destruct s as [| x r]; simpl; [reflexivity |]. now intros ->.
Qed.

Lemma re_split_from_delimiter p x s :
  p x = true -> re_split_from p false (x :: s) = [] :: re_split_from p true s.
Proof. intros H. simpl. now rewrite H. Qed.

Lemma join_cons2 (sep a b : str) (l : list str) :
  join sep (a :: b :: l) = a ++ sep ++ join sep (b :: l).
Proof. reflexivity. Qed.

Lemma split_authors_join sep names :
  author_delimiter sep = true -> Forall plain_name names ->
  split_authors (join [sep] names) = names.
Proof.
  intros Hsep Hn. rewrite split_authors_filter. unfold re_split.
  induction Hn as [| a ns [Hne Ha] Hns IH]; [reflexivity |].
  destruct ns as [| a' ns'].
  - simpl. rewrite <- (app_nil_r a) at 1.
    rewrite re_split_from_name by assumption. simpl.
    rewrite app_nil_r. destruct a; [contradiction | reflexivity].
  - rewrite join_cons2, re_split_from_name by assumption.
    change ([sep] ++ join [sep] (a' :: ns'))
      with (sep :: join [sep] (a' :: ns')).
    rewrite re_split_from_delimiter by assumption.
    rewrite app_nil_r, re_split_from_run.
    + cbn [filter]. destruct a as [| x r]; [contradiction |].
      cbn [nonempty]. now rewrite IH.
    + inversion Hns as [| ? ? [Hne' Ha'] _]; subst.
      destruct a' as [| x r]; [contradiction |].
      inversion Ha'; subst.
      destruct ns'; simpl; assumption.
Qed.

(** C6, as the specification states it, fails: the list of authors is not
    de-duplicated. *)
Lemma split_authors_keeps_duplicates :
  ~ (forall author_str : str, NoDup (split_authors author_str)).
Proof.
  intros H. specialize (H (u "Z,Z")).
  vm_compute in H. inversion H as [| x l Hin _]; subst.
  apply Hin. now left.
Qed.

(** ** Dictionaries *)

Lemma str_eqb_refl a : str_eqb a a = true.
Proof. now apply str_eqb_eq. Qed.

Lemma str_eqb_neq a b : str_eqb a b = false <-> a <> b.
Proof.
  unfold str_eqb. destruct (list_eq_dec N.eq_dec a b); split; congruence.
Qed.

Lemma dict_find_set_other d k v k' :
  k <> k' -> dict_find (dict_set d k v) k' = dict_find d k'.
Proof.
  intros Hne. induction d as [| [k0 v0] r IH]; simpl.
  - apply str_eqb_neq in Hne. now rewrite Hne.
  - destruct (str_eqb k0 k) eqn:E; simpl.
    + apply str_eqb_eq in E. subst k0.
      apply str_eqb_neq in Hne. now rewrite Hne.
    + now rewrite IH.
Qed.

Lemma dict_get_set_other d k v k' :
  k <> k' -> dict_get (dict_set d k v) k' = dict_get d k'.
Proof. intros Hne. unfold dict_get. now rewrite dict_find_set_other. Qed.

Lemma dict_find_set_same d k v : dict_find (dict_set d k v) k = Some v.
Proof.
  induction d as [| [k0 v0] r IH]; simpl.
  - now rewrite str_eqb_refl.
  - destruct (str_eqb k0 k) eqn:E; simpl; now rewrite E.
Qed.

Lemma dict_get_set_same d k v : dict_get (dict_set d k v) k = v.
Proof. unfold dict_get. now rewrite dict_find_set_same. Qed.

(** ** Enrichment writes four fields only *)

(** the fields of the book that the enrichment may write *)
Definition is_enriched_field (k : str) : bool :=
  existsb (str_eqb k)
    [u "tags"; u "comments"; u "description_html"; u "description"].

Lemma not_enriched_field k :
  is_enriched_field k = false ->
  u "tags" <> k /\ u "comments" <> k /\ u "description_html" <> k
  /\ u "description" <> k.
Proof.
  unfold is_enriched_field. cbn [existsb]. rewrite !orb_false_iff.
  intros (H1 & H2 & H3 & H4 & _).
  apply str_eqb_neq in H1, H2, H3, H4. repeat split; congruence.
Qed.

Section Enrichment.
Context {U : UnicodeData} {R : Runtime} {L : HtmlLibrary} {W : Network}.

Lemma merge_novel_class_get novel_class book k :
  u "tags" <> k ->
  dict_get (merge_novel_class novel_class book) k = dict_get book k.
Proof.
  intros Hk. unfold merge_novel_class.
  destruct (truthy novel_class); [| reflexivity].
  destruct (tags_with_class novel_class book); now apply dict_get_set_other.
Qed.

Lemma merge_intro_get intro book k :
  u "comments" <> k -> dict_get (merge_intro intro book) k = dict_get book k.
Proof.
  intros Hk. unfold merge_intro.
  destruct (truthy intro); [| reflexivity].
  destruct (truthy (por (dict_get book (u "comments")) empty_str));
    now apply dict_get_set_other.
Qed.

Lemma merge_tags_get parsed_tags book k :
  u "tags" <> k -> dict_get (merge_tags parsed_tags book) k = dict_get book k.
Proof.
  intros Hk. unfold merge_tags.
  destruct parsed_tags; [reflexivity |].
  destruct (dedupe _); now apply dict_get_set_other.
Qed.

Lemma add_to_descriptions_get lines book k :
  u "description_html" <> k -> u "description" <> k ->
  dict_get (add_to_descriptions lines book) k = dict_get book k.
Proof.
  intros H1 H2. unfold add_to_descriptions.
  destruct lines; [reflexivity |].
  cbv zeta. now rewrite !dict_get_set_other.
Qed.

Lemma enrichment_block_get other base_data book k :
  u "tags" <> k -> u "comments" <> k ->
  dict_get (fst (enrichment_block other base_data book)) k = dict_get book k.
Proof.
  intros H1 H2. unfold enrichment_block. cbv zeta. cbn [fst].
  now rewrite merge_tags_get, merge_intro_get, merge_novel_class_get.
Qed.

Lemma merge_other_info_get other base_data book k :
  is_enriched_field k = false ->
  dict_get (merge_other_info other base_data book) k = dict_get book k.
Proof.
  intros Hk. apply not_enriched_field in Hk.
  destruct Hk as (H1 & H2 & H3 & H4).
  unfold merge_other_info.
  pose proof (enrichment_block_get other base_data book k H1 H2) as E.
  destruct (enrichment_block other base_data book) as [b lines].
  cbn [fst] in E. now rewrite add_to_descriptions_get.
Qed.

(** How the body of the [try] ends, and with which book. *)
Lemma other_info_body_cases novelid book base_data tr :
  exists o b,
    other_info_body novelid book base_data tr
    = ((o, b), tr ++ [EvHttpGet (other_info_url novelid)])
    /\ ((o <> Completed /\ b = book)
        \/ (o = Completed /\ exists other,
               truthy other = true /\ b = merge_other_info other base_data book)).
Proof.
  unfold other_info_body, bind, http_get, ret.
  destruct (urlopen tr (other_info_url novelid)) as [r |].
  - destruct (status_ok r); cbn [negb].
    + destruct (content r) as [text |].
      * destruct (truthy (other_payload _)) eqn:T; cbn [negb].
        -- eexists _, _. split; [reflexivity |]. right. split; [reflexivity |].
           eexists. split; [exact T | reflexivity].
        -- eexists _, _. split; [reflexivity |]. left. split; [discriminate | reflexivity].
      * eexists _, _. split; [reflexivity |]. left. split; [discriminate | reflexivity].
    + eexists _, _. split; [reflexivity |]. left. split; [discriminate | reflexivity].
  - eexists _, _. split; [reflexivity |]. left. split; [discriminate | reflexivity].
Qed.

Lemma fetch_and_merge_get novelid book base_data tr k :
  is_enriched_field k = false ->
  dict_get (fst (fetch_and_merge_other_info novelid book base_data tr)) k
  = dict_get book k.
Proof.
  intros Hk. unfold fetch_and_merge_other_info.
  destruct novelid as [| c n]; [reflexivity |].
  unfold bind.
  destruct (other_info_body_cases (c :: n) book base_data tr)
    as (o & b & E & [[_ ->] | [_ (other & _ & ->)]]); rewrite E; cbn [fst snd ret].
  - reflexivity.
  - now apply merge_other_info_get.
Qed.

(** C3 (amended). No exception of the enrichment reaches the caller: the
    call always returns a book.  When the body of the outer [try] raises
    (the request or the decoding of the response fails) or returns early,
    the book is returned as it was.  In every case the enrichment writes
    nothing but the tags, the comments and the two descriptions, so the
    title and the authors of a successful base fetch stay. *)
Theorem fetch_and_merge_other_info_safe novelid book base_data tr :
  (exists book' tr',
      fetch_and_merge_other_info novelid book base_data tr = (book', tr')
      /\ forall k, is_enriched_field k = false ->
                   dict_get book' k = dict_get book k)
  /\ (forall o b tr',
        other_info_body novelid book base_data tr = ((o, b), tr') ->
        o <> Completed ->
        b = book
        /\ (novelid <> [] ->
            fst (fetch_and_merge_other_info novelid book base_data tr) = book)).
Proof.
  split.
  - destruct (fetch_and_merge_other_info novelid book base_data tr)
      as [book' tr'] eqn:E.
    exists book', tr'. split; [reflexivity |].
    intros k Hk.
    pose proof (fetch_and_merge_get novelid book base_data tr k Hk) as G.
    now rewrite E in G.
  - intros o b tr' E Ho.
    destruct (other_info_body_cases novelid book base_data tr)
      as (o' & b' & E' & Hc).
    rewrite E in E'. injection E' as <- <- _.
    destruct Hc as [[_ ->] | [-> _]]; [| contradiction].
    split; [reflexivity |].
    intros Hn. unfold fetch_and_merge_other_info.
    destruct novelid; [contradiction |].
    unfold bind. now rewrite E.
Qed.

End Enrichment.

(** *** An exception inside the enrichment that changes the book *)

(** an extended payload whose genre is a list, not a string *)
Definition genre_list_payload : pyval :=
  PDict [(u "novelClass", PList [PStr (u "言情")])].

(** an interpreter and a platform for which the extended-info endpoint
    answers with that payload *)
Definition genre_list_runtime : Runtime := {|
  html2text_lib := None;
  py_repr := fun _ => u "['言情']";
  json_loads := fun _ => Some genre_list_payload;
  json_dumps := fun _ => u "[...]";
  int_of_text := fun _ => None;
  urlencode := fun ps => join (u "&") (map (fun kv => fst kv ++ u "=" ++ snd kv) ps);
  unquote := fun s => s;
  query_params := fun _ => [];
  set_iteration := dedup_str;
  set_iteration_NoDup := dedup_str_NoDup;
  set_iteration_In := dedup_str_In;
  local_date := fun _ _ => None
|}.

Definition answering_network : Network := {|
  urlopen := fun _ _ => Some {| status := 200; content := Some (u "{...}") |};
  as_completed := fun l => l;
  as_completed_perm := fun l => Permutation_refl l
|}.

Definition plain_book : pydict :=
  [ (u "id", PStr (u "1")); (u "title", PStr (u "Y"));
    (u "authors", PList [PStr (u "Z")]); (u "tags", PList []) ].

(** C3, as the specification states it, fails: with a genre that is a
    list, the loop that removes duplicates raises inside the enrichment
    (a list cannot be hashed); the exception is caught, yet the book that is
    returned is not the base record: its tags (in the end the printed form
    of the list) and its descriptions are written. *)
Lemma enrichment_exception_changes_book :
  tags_with_class (R := genre_list_runtime) (PList [PStr (u "言情")]) plain_book
  = None
  /\ fst (fetch_and_merge_other_info (R := genre_list_runtime)
            (W := answering_network) (u "1") plain_book PNone [])
     <> plain_book
  /\ dict_get
       (fst (fetch_and_merge_other_info (R := genre_list_runtime)
               (W := answering_network) (u "1") plain_book PNone []))
       (u "tags")
     = PList [PStr (u "['言情']")].
Proof.
  split; [vm_compute; reflexivity |].
  split; [| vm_compute; reflexivity].
  intros E.
  assert (F : dict_get
                (fst (fetch_and_merge_other_info (R := genre_list_runtime)
                        (W := answering_network) (u "1") plain_book PNone []))
                (u "tags")
              = dict_get plain_book (u "tags")) by now rewrite E.
  vm_compute in F. discriminate F.
Qed.

(** ** SchemaTolerantExtractor: keys without variants *)

(** a key of lower-case ASCII letters and digits *)
Definition simple_key (k : str) : bool :=
  nonempty k && forallb (fun c => ascii_lower c || ascii_digit c) k.

Lemma simple_char c :
  ascii_lower c || ascii_digit c = true ->
  (c <? 128) = true /\ to_lower_ascii c = c /\ c <> 0x5F /\ c <> 0x20.
Proof.
  intros Hc. apply orb_true_iff in Hc.
  unfold ascii_lower, ascii_digit in Hc. rewrite !in_range_spec in Hc.
  repeat split; try lia.
  - apply N.ltb_lt. lia.
  - unfold to_lower_ascii, ascii_upper.
    destruct (in_range 65 90 c) eqn:E; [| reflexivity].
    apply in_range_spec in E. lia.
Qed.

Section Keys.
Context {U : UnicodeData} {R : Runtime}.

Lemma simple_key_lower k :
  forallb (fun c => ascii_lower c || ascii_digit c) k = true -> str_lower k = k.
Proof.
  intros Hk. unfold str_lower.
  assert (Ha : is_ascii k = true /\ map to_lower_ascii k = k).
  { induction k as [| c r IH]; [split; reflexivity |].
    cbn [forallb] in Hk. apply andb_true_iff in Hk. destruct Hk as [Hc Hr].
    destruct (simple_char c Hc) as (H1 & H2 & _).
    destruct (IH Hr) as [I1 I2]. unfold is_ascii in *. cbn [forallb map].
    now rewrite H1, I1, H2, I2. }
  destruct Ha as [-> ->]. reflexivity.
Qed.

Lemma simple_key_no_char k x :
  x = 0x5F \/ x = 0x20 ->
  forallb (fun c => ascii_lower c || ascii_digit c) k = true -> ~ In x k.
Proof.
  intros Hx Hk Hin. rewrite forallb_forall in Hk.
  destruct (simple_char x (Hk x Hin)) as (_ & _ & H1 & H2).
  destruct Hx; contradiction.
Qed.

Lemma split_char_absent sep k : ~ In sep k -> split_char sep k = [k].
Proof.
  induction k as [| c r IH]; [reflexivity |].
  intros Hn. cbn [split_char]. rewrite IH by (intros Hi; apply Hn; now right).
  destruct (N.eqb_spec c sep) as [-> | ]; [| reflexivity].
  exfalso. apply Hn. now left.
Qed.

Lemma set_iteration_constant k l :
  In k l -> (forall x, In x l -> x = k) -> set_iteration l = [k].
Proof.
  intros Hk Hall.
  pose proof (set_iteration_NoDup l) as Hnd.
  pose proof (set_iteration_In l) as Hin.
  destruct (set_iteration l) as [| y r].
  - exfalso. now apply (Hin k).
  - assert (y = k) by (apply Hall, Hin; now left). subst y.
    destruct r as [| z r']; [reflexivity | exfalso].
    assert (z = k) by (apply Hall, Hin; right; now left). subst z.
    inversion Hnd as [| ? ? Hn _]; subst. apply Hn. now left.
Qed.

Lemma key_variants_simple k : simple_key k = true -> key_variants k = [k].
Proof.
  unfold simple_key. intros Hk. apply andb_true_iff in Hk.
  destruct Hk as [Hne Hk].
  pose proof (simple_key_no_char k 0x5F (or_introl eq_refl) Hk) as Hu.
  pose proof (simple_key_no_char k 0x20 (or_intror eq_refl) Hk) as Hs.
  unfold key_variants. destruct k as [| c r]; [discriminate Hne |].
  rewrite (split_char_absent _ _ Hu).
  rewrite (replace_char_id 0x5F [] _ Hu), (replace_char_id 0x20 [] _ Hs).
  rewrite (simple_key_lower _ Hk).
  apply mem_not_In in Hu. rewrite Hu. cbn [map concat].
  rewrite !app_nil_r.
  apply set_iteration_constant; [now left |].
  cbn [In]. intros x Hx. intuition congruence.
Qed.

Lemma pick_variants_simple d k :
  simple_key k = true ->
  first_some (lookup_truthy d) (key_variants k) = lookup_truthy d k.
Proof.
  intros Hk. rewrite (key_variants_simple k Hk). cbn [first_some].
  now destruct (lookup_truthy d k).
Qed.

(** A hit under one of the candidate keys themselves decides
    [_pick_from] on a dictionary, whatever its depth. *)
Lemma pick_from_direct d keys v :
  d <> [] -> keys <> [] ->
  first_some (fun k => first_some (lookup_truthy d) (key_variants k)) keys
  = Some v ->
  _pick_from (PDict d) keys = v.
Proof.
  intros Hd Hk E. unfold _pick_from. cbn [pick_from_fuel].
  destruct d; [contradiction |]. destruct keys; [contradiction |].
  cbn [truthy negb orb]. now rewrite E.
Qed.

End Keys.

(** ** The detail pipeline on the payload of the specification *)

(** the payload and the book data inside its envelope *)
Definition example_book_data : pydict :=
  [(u "bookname", PStr (u "Y")); (u "author", PStr (u "Z"))].

Definition example_payload : pyval :=
  PDict [ (u "code", PInt 0);
          (u "data", PDict [(u "book", PDict example_book_data)]) ].

Section DetailExample.
Context {U : UnicodeData} {R : Runtime} {L : HtmlLibrary} {W : Network}.

(** The package [html2text], when it is installed and does not raise,
    renders the plain text [s] as itself, up to surrounding white space. *)
Definition renders_plain (s : str) : Prop :=
  match html2text_lib with
  | Some convert =>
      match convert s with
      | Some t => strip t = s
      | None => True
      end
  | None => True
  end.

Lemma html_to_text_plain s :
  renders_plain s -> strip (sub_runs isspace (remove_tags s)) = s ->
  html_to_text s = s.
Proof.
  unfold renders_plain, html_to_text. intros Hr Hf.
  destruct s as [| c r]; [reflexivity |].
  destruct html2text_lib as [convert |]; [| exact Hf].
  destruct (convert (c :: r)); [exact Hr | exact Hf].
Qed.

Lemma example_title :
  renders_plain (u "Y") -> book_title (PDict example_book_data) = u "Y".
Proof.
  intros Hr. unfold book_title.
  rewrite (pick_from_direct example_book_data title_candidates (PStr (u "Y")));
    try discriminate.
  - change (por (PStr (u "Y")) empty_str) with (PStr (u "Y")).
    cbn [is_container py_str].
    rewrite (html_to_text_plain _ Hr) by reflexivity. reflexivity.
  - unfold title_candidates. cbn [first_some].
    rewrite pick_variants_simple by reflexivity. reflexivity.
Qed.

Lemma example_authors :
  renders_plain (u "Z") -> book_authors (PDict example_book_data) = [u "Z"].
Proof.
  intros Hr. unfold book_authors, author_text.
  rewrite (pick_from_direct example_book_data author_candidates (PStr (u "Z")));
    try discriminate.
  - change (por (PStr (u "Z")) empty_str) with (PStr (u "Z")).
    cbn [py_str]. rewrite (html_to_text_plain _ Hr) by reflexivity.
    reflexivity.
  - unfold author_candidates. cbn [first_some].
    rewrite !pick_variants_simple by reflexivity. reflexivity.
Qed.

Lemma parse_app_book_data_get app_data novelid tr k :
  is_enriched_field k = false ->
  dict_get (fst (parse_app_book_data app_data novelid tr)) k
  = dict_get (base_book app_data novelid) k.
Proof. intros Hk. unfold parse_app_book_data. now apply fetch_and_merge_get. Qed.

Lemma parse_app_book_data_title app_data novelid tr :
  dict_get (fst (parse_app_book_data app_data novelid tr)) (u "title")
  = PStr (book_title app_data).
Proof. now rewrite parse_app_book_data_get. Qed.

Lemma parse_app_book_data_authors app_data novelid tr :
  dict_get (fst (parse_app_book_data app_data novelid tr)) (u "authors")
  = PList (map PStr (book_authors app_data)).
Proof. now rewrite parse_app_book_data_get. Qed.

Lemma parse_app_book_data_cover app_data novelid tr :
  dict_get (fst (parse_app_book_data app_data novelid tr)) (u "cover")
  = PStr (book_cover app_data).
Proof. now rewrite parse_app_book_data_get. Qed.

(** C1. For the payload {"code":0,"data":{"book":{"bookname":"Y",
    "author":"Z"}}} the envelope recognizer of [load_book_via_app_api]
    hands the inner book object to [parse_app_book_data], and the record
    that is built and accepted has the title "Y" and the authors ["Z"],
    whatever the enrichment request answers.  (When the optional package
    [html2text] is installed, it is taken to render the plain texts "Y" and
    "Z" as themselves.) *)
Theorem detail_pipeline_example novelid tr :
  renders_plain (u "Y") -> renders_plain (u "Z") ->
  unwrap_detail example_payload novelid = PDict example_book_data
  /\ exists book tr',
       process_detail_payload example_payload novelid tr = (Some book, tr')
       /\ dict_get book (u "title") = PStr (u "Y")
       /\ dict_get book (u "authors") = PList [PStr (u "Z")].
Proof.
  intros HY HZ. split; [reflexivity |].
  unfold process_detail_payload.
  change (truthy example_payload) with true. cbv iota.
  change (unwrap_detail example_payload novelid) with (PDict example_book_data).
  change (truthy (PDict example_book_data)) with true. cbv iota.
  unfold bind.
  pose proof (parse_app_book_data_title (PDict example_book_data) novelid tr) as Ht.
  pose proof (parse_app_book_data_authors (PDict example_book_data) novelid tr) as Ha.
  rewrite (example_title HY) in Ht. rewrite (example_authors HZ) in Ha.
  destruct (parse_app_book_data (PDict example_book_data) novelid tr)
    as [parsed tr'].
  cbn [fst] in Ht, Ha. rewrite Ht, Ha.
  exists parsed, tr'. repeat split; assumption.
Qed.

End DetailExample.

(** an interpreter in which [html2text] is installed and ends its output
    with two newlines *)
Definition html2text_runtime : Runtime := {|
  html2text_lib := Some (fun s => Some (s ++ [0x0A; 0x0A]));
  py_repr := fun _ => u "[...]";
  json_loads := fun _ => None;
  json_dumps := fun _ => u "[...]";
  int_of_text := fun _ => None;
  urlencode := fun ps => join (u "&") (map (fun kv => fst kv ++ u "=" ++ snd kv) ps);
  unquote := fun s => s;
  query_params := fun _ => [];
  set_iteration := dedup_str;
  set_iteration_NoDup := dedup_str_NoDup;
  set_iteration_In := dedup_str_In;
  local_date := fun _ _ => None
|}.

Lemma detail_pipeline_example_witness :
  (renders_plain (R := html2text_runtime) (u "Y")
   /\ renders_plain (R := html2text_runtime) (u "Z"))
  /\ exists book tr',
       process_detail_payload (U := basic_unicode) (R := html2text_runtime)
         (W := answering_network) example_payload (u "123") []
       = (Some book, tr')
       /\ dict_get book (u "title") = PStr (u "Y")
       /\ dict_get book (u "authors") = PList [PStr (u "Z")].
Proof.
  split; [split; reflexivity |].
  apply (detail_pipeline_example (U := basic_unicode) (R := html2text_runtime)
           (W := answering_network) (u "123") []);
    reflexivity.
Defined.

(** ** BookRecordBuilder: the theorems on the cover and the authors *)

Section Builder.
Context {U : UnicodeData} {R : Runtime} {W : Network}.

(** C2 (amended). The cover field of the record is [normalize_cover] of
    the trimmed text of the picked value.  A value that starts with "//"
    gets "https:" in front; a root-relative value gets the site origin in
    front; an absolute http(s) URL or a data URI is kept; every other
    non-empty value is taken as a path relative to the site root and gets
    the origin and a slash in front.  The cover field is empty only when the
    trimmed value is empty. *)
Theorem cover_normalization app_data novelid tr :
  dict_get (fst (parse_app_book_data app_data novelid tr)) (u "cover")
  = PStr (normalize_cover (strip (py_str (picked_cover app_data))))
  /\ forall cover : str,
       (startswith (u "//") cover = true ->
        normalize_cover cover = u "https:" ++ cover)
       /\ (startswith (u "/") cover = true ->
           startswith (u "//") cover = false ->
           normalize_cover cover = u "https://www.jjwxc.net" ++ cover)
       /\ (is_absolute_or_data cover = true -> normalize_cover cover = cover)
       /\ (cover <> [] -> startswith (u "/") cover = false ->
           is_absolute_or_data cover = false ->
           normalize_cover cover = u "https://www.jjwxc.net/" ++ cover)
       /\ (normalize_cover cover = [] <-> cover = []).
Proof.
  split; [apply parse_app_book_data_cover |].
  intros cover. repeat split.
  - apply normalize_cover_protocol_relative.
  - apply normalize_cover_root_relative.
  - apply normalize_cover_absolute.
  - apply normalize_cover_relative.
  - apply normalize_cover_empty.
  - intros ->. reflexivity.
Qed.

(** C6 (amended). The authors of the record are [split_authors] of the
    author text: the pieces between the runs of delimiters (comma,
    ampersand, slash, semicolon, full-width comma, ideographic comma, white
    space), without the empty ones.  Every author is non-empty and free of
    delimiters, the authors in their order make up the text without its
    delimiters, and names joined by a delimiter come back as they are, in
    order and with their repetitions: the list is not de-duplicated. *)
Theorem authors_split app_data novelid tr :
  dict_get (fst (parse_app_book_data app_data novelid tr)) (u "authors")
  = PList (map PStr (split_authors (author_text app_data)))
  /\ (forall s : str,
        split_authors s = filter nonempty (re_split author_delimiter s)
        /\ Forall plain_name (split_authors s)
        /\ concat (split_authors s)
           = filter (fun c => negb (author_delimiter c)) s)
  /\ (forall (sep : N) (names : list str),
        author_delimiter sep = true -> Forall plain_name names ->
        split_authors (join [sep] names) = names).
Proof.
  split; [apply parse_app_book_data_authors |].
  split.
  - intros s. split; [apply split_authors_filter |].
    split; [apply split_authors_names | apply split_authors_concat].
  - apply split_authors_join.
Qed.

End Builder.

Example authors_repeated :
  split_authors (u "Z,Z") = [u "Z"; u "Z"].
Proof. vm_compute. reflexivity. Qed.

(** ** Enrichment: the contract flag *)

Lemma existsb_str_In x l : existsb (str_eqb x) l = true <-> In x l.
Proof.
  rewrite existsb_exists. split.
  - intros [y [Hy E]]. apply str_eqb_eq in E. now subst.
  - intros Hin. exists x. split; [assumption | apply str_eqb_refl].
Qed.

Section SignedFlag.
Context {U : UnicodeData} {R : Runtime}.

Lemma int_digits_from_decimal acc r n :
  int_digits_from acc r = Some n -> forallb is_decimal r = true.
Proof.
  revert acc. induction r as [| x r IH]; intros acc; [reflexivity |].
  cbn [int_digits_from forallb]. unfold is_decimal at 1.
  destruct (decimal_value x); [| discriminate].
  intros E. now rewrite (IH _ E).
Qed.

Lemma re_star_decimal_all r matched :
  forallb is_decimal r = true ->
  re_star is_decimal (fun _ => re_eol tt) matched r = Some tt.
Proof.
  revert matched. induction r as [| x r IH]; intros matched; [reflexivity |].
  cbn [forallb re_star]. intros E. apply andb_true_iff in E.
  destruct E as [-> E]. now rewrite IH.
Qed.

(** [int] on digits: the value, unless there are too many of them *)
Lemma int_of_digits_Some r n :
  int_of_digits r = Some n <->
  r <> [] /\ (length r <= int_max_str_digits)%nat
  /\ int_digits_from 0 r = Some n.
Proof.
  unfold int_of_digits. destruct r as [| x r].
  - split; [discriminate | intros [H _]; contradiction].
  - destruct (Nat.ltb_spec int_max_str_digits (length (x :: r))) as [Hl | Hl].
    + split; [discriminate | intros (_ & H & _); lia].
    + split; [intros E; repeat split; [discriminate | exact Hl | exact E] |].
      now intros (_ & _ & E).
Qed.

Lemma int_of_digits_long r :
  (int_max_str_digits < length r)%nat -> int_of_digits r = None.
Proof.
  intros Hl. destruct (int_of_digits r) as [n |] eqn:E; [| reflexivity].
  apply int_of_digits_Some in E. destruct E as (_ & H & _). lia.
Qed.

Lemma all_digits_decimal r :
  r <> [] -> forallb is_decimal r = true -> all_digits r = true.
Proof.
  unfold all_digits, re_plus. destruct r as [| x r]; [contradiction |].
  intros _ E. cbn [forallb] in E. apply andb_true_iff in E.
  destruct E as [-> E]. now rewrite re_star_decimal_all.
Qed.

Lemma int_of_digits_all_digits r n :
  int_of_digits r = Some n -> all_digits r = true.
Proof.
  intros E. apply int_of_digits_Some in E. destruct E as (Hne & _ & E).
  apply int_digits_from_decimal in E. now apply all_digits_decimal.
Qed.

Lemma int_digits_from_total r : forall acc,
  forallb is_decimal r = true ->
  exists n, int_digits_from acc r = Some n /\ acc <= n.
Proof.
  induction r as [| x r IH]; intros acc H; cbn [int_digits_from].
  - exists acc. split; [reflexivity | lia].
  - cbn [forallb] in H. apply andb_true_iff in H. destruct H as [Hx Hr].
    unfold is_decimal in Hx. destruct (decimal_value x) as [d |];
      [| discriminate Hx].
    destruct (IH (10 * acc + d) Hr) as (n & E & Hn).
    exists n. split; [exact E | lia].
Qed.

Lemma ascii_decimal c :
  is_decimal c = true -> (c <? 128) = true ->
  ascii_digit c = true /\ decimal_value c = Some (c - 0x30).
Proof.
  unfold is_decimal, decimal_value. intros H E. rewrite E in *.
  destruct (ascii_digit c); [now split | cbn in H; discriminate H].
Qed.

Lemma ascii_digit_decimal c : ascii_digit c = true -> is_decimal c = true.
Proof.
  intros H. unfold is_decimal, decimal_value. rewrite H.
  replace (c <? 128) with true; [reflexivity |].
  symmetry. apply N.ltb_lt. unfold ascii_digit in H.
  apply in_range_spec in H. lia.
Qed.

(** a string of ASCII digits is its own trimmed and lower-cased form *)
Lemma ascii_digits_plain r :
  forallb ascii_digit r = true ->
  forallb is_decimal r = true /\ strip r = r /\ str_lower r = r.
Proof.
  intros H. rewrite forallb_forall in H. repeat split.
  - apply forallb_forall. intros c Hc. now apply ascii_digit_decimal, H.
  - unfold strip.
    assert (Hs : Forall (fun c => isspace c = false) r).
    { apply Forall_forall. intros c Hc. specialize (H c Hc).
      unfold ascii_digit in H. apply in_range_spec in H.
      destruct (isspace c) eqn:S; [| reflexivity].
      apply isspace_cases in S. lia. }
    now rewrite lstrip_clean, rstrip_clean.
  - unfold str_lower.
    assert (Ha : is_ascii r = true).
    { unfold is_ascii. apply forallb_forall. intros c Hc.
      specialize (H c Hc). unfold ascii_digit in H.
      apply in_range_spec in H. apply N.ltb_lt. lia. }
    rewrite Ha. rewrite <- (map_id r) at 2. apply map_ext_in.
    intros c Hc. specialize (H c Hc). unfold to_lower_ascii, ascii_upper.
    unfold ascii_digit in H. apply in_range_spec in H.
    replace (in_range 0x41 0x5A c) with false; [reflexivity |].
    symmetry. apply in_range_false. lia.
Qed.

(** the texts that count as "signed" *)
Definition signed_text (r : str) : Prop :=
  In (str_lower r) [u "1"; u "true"; u "yes"]
  \/ exists n, int_of_digits r = Some n /\ 0 < n.

Lemma signed_flag_text v :
  (forall b, v <> PBool b) ->
  signed_flag v = true <-> signed_text (strip (py_str v)).
Proof.
  intros Hb. unfold signed_text.
  assert (E : signed_flag v =
              let raw_sign := strip (py_str v) in
              if existsb (str_eqb (str_lower raw_sign)) [u "1"; u "true"; u "yes"]
              then true
              else if all_digits raw_sign then
                     match int_of_digits raw_sign with
                     | Some n => 0 <? n
                     | None => false
                     end
                   else false).
  { destruct v; try reflexivity. now destruct (Hb b). }
  rewrite E. cbv zeta. clear E.
  set (r := strip (py_str v)).
  destruct (existsb (str_eqb (str_lower r)) [u "1"; u "true"; u "yes"]) eqn:Ex.
  - apply existsb_str_In in Ex. tauto.
  - assert (Hn : ~ In (str_lower r) [u "1"; u "true"; u "yes"]).
    { intros Hin. apply existsb_str_In in Hin. congruence. }
    destruct (int_of_digits r) as [n |] eqn:Ei.
    + rewrite (int_of_digits_all_digits r n Ei). rewrite N.ltb_lt. split.
      * intros Hlt. right. exists n. tauto.
      * intros [Hin | [m [Em Hm]]]; [contradiction |]. congruence.
    + split.
      * destruct (all_digits r); discriminate.
      * intros [Hin | [m [Em Hm]]]; [contradiction | discriminate].
Qed.

Lemma signed_display_flag v :
  signed_display v
  = if match v with PNone => false | _ => nonempty (strip (py_str v)) end
       && signed_flag v
    then SIGNED else NOT_SIGNED.
Proof.
  unfold signed_display.
  destruct v; try reflexivity;
    match goal with
    | |- context [nonempty ?s] => destruct (nonempty s)
    end; try reflexivity;
    match goal with
    | |- context [signed_flag ?s] => destruct (signed_flag s)
    end; reflexivity.
Qed.

Lemma signed_display_binary v :
  signed_display v = SIGNED \/ signed_display v = NOT_SIGNED.
Proof.
  rewrite signed_display_flag.
  destruct (_ && _); [now left | now right].
Qed.

Lemma signed_text_nonempty r : signed_text r -> nonempty r = true.
Proof.
  destruct r; [| reflexivity].
  intros [Hin | [n [E _]]]; [| discriminate E].
  vm_compute in Hin. intuition discriminate.
Qed.

Lemma signed_display_text v :
  (forall b, v <> PBool b) ->
  signed_display v = SIGNED <-> signed_text (strip (py_str v)).
Proof.
  intros Hb. rewrite signed_display_flag.
  destruct v as [| b | z | s | l | d];
    try (rewrite <- (signed_flag_text _ Hb);
         match goal with
         | |- context [nonempty ?s] => destruct (nonempty s) eqn:En
         end;
         [ cbn [andb]; destruct (signed_flag _); split;
           try reflexivity; try discriminate
         | cbn [andb]; split; [discriminate |];
           intros Hf; apply (signed_flag_text _ Hb), signed_text_nonempty in Hf;
           congruence ]).
  split; [discriminate |].
  intros [Hin | [n [E _]]].
  - vm_compute in Hin. intuition discriminate.
  - vm_compute in E. discriminate E.
Qed.

Lemma pick_any_absent srcs keys :
  Forall (fun src => pick src keys = empty_str) srcs ->
  pick_any srcs keys = empty_str.
Proof.
  unfold pick_any. intros Hs.
  assert (E : first_some
                (fun src =>
                   match pick src keys with
                   | PStr s => match strip s with [] => None | t => Some (PStr t) end
                   | PNone => None
                   | val => Some val
                   end) srcs = None).
  { induction Hs as [| src r Hsrc _ IH]; [reflexivity |].
    cbn [first_some]. rewrite Hsrc. cbn. exact IH. }
  now rewrite E.
Qed.

End SignedFlag.

Section SignedLine.
Context {U : UnicodeData} {R : Runtime}.

Lemma strip_is_ascii s : is_ascii s = true -> is_ascii (strip s) = true.
Proof.
  unfold is_ascii. rewrite !forallb_forall. intros Hs x Hx.
  apply Hs. now apply strip_In.
Qed.

(** the sources in which the contract flag is looked up *)
Definition sign_sources (other base_data : pyval) (book : pydict)
    : list pyval :=
  sources other base_data
    (merge_novel_class
       (pick_any (sources other base_data book)
          [u "novelClass"; u "novel_class"; u "category"]) book).

Definition sign_keys : list str := [u "isSign"; u "is_sign"; u "issign"].

Lemma sign_value_sources other base_data book :
  sign_value other base_data book
  = pick_any (sign_sources other base_data book) sign_keys.
Proof. reflexivity. Qed.

Lemma signed_line_rendered other base_data book :
  In (u "签约状态：" ++ signed_display (sign_value other base_data book))
     (snd (enrichment_block other base_data book)).
Proof.
  unfold enrichment_block. cbv zeta. cbn [snd].
  do 4 (apply in_or_app; right). apply in_or_app; left.
  destruct (signed_display_binary (sign_value other base_data book)) as [E | E];
    rewrite E; now left.
Qed.

Lemma merge_other_info_description other base_data book :
  dict_get (merge_other_info other base_data book) (u "description")
  = PStr
      (let lines := snd (enrichment_block other base_data book) in
       let exist_txt := por (dict_get book (u "description")) empty_str in
       if truthy exist_txt
       then py_str exist_txt ++ newline ++ newline ++ join newline lines
       else join newline lines).
Proof.
  pose proof (signed_line_rendered other base_data book) as Hin.
  pose proof (enrichment_block_get other base_data book (u "description")) as G.
  unfold merge_other_info.
  destruct (enrichment_block other base_data book) as [b lines].
  cbn [fst snd] in *.
  rewrite <- G by discriminate.
  unfold add_to_descriptions.
  destruct lines as [| l ls]; [destruct Hin |].
  cbv zeta. rewrite dict_get_set_same.
  now rewrite dict_get_set_other by discriminate.
Qed.

(** the look-up helper of the enrichment finds a non-empty value under the
    first key *)
Lemma pick_first_key d k keys v :
  dict_find d k = Some v -> truthy v = true -> pick (PDict d) (k :: keys) = v.
Proof.
  intros Hf Hv. unfold pick. cbn [pick_fuel].
  destruct d as [| kv d']; [discriminate Hf |].
  cbn [truthy negb first_some]. unfold lookup_truthy at 1.
  rewrite Hf. unfold if_truthy. now rewrite Hv.
Qed.

Lemma pick_any_first src rest keys v :
  pick src keys = v -> truthy v = true ->
  (forall s, v = PStr s -> strip s <> []) ->
  pick_any (src :: rest) keys
  = match v with PStr s => PStr (strip s) | _ => v end.
Proof.
  intros Hp Hv Hs. unfold pick_any. cbn [first_some]. rewrite Hp.
  destruct v as [| b | z | s | l | d]; try reflexivity; [discriminate Hv |].
  destruct (strip s) eqn:E; [| reflexivity].
  now destruct (Hs s eq_refl).
Qed.

Lemma signed_display_trimmed v :
  signed_display (match v with PStr s => PStr (strip s) | _ => v end)
  = signed_display v.
Proof.
  destruct v as [| b | z | s | l | d]; try reflexivity.
  unfold signed_display, signed_flag. cbn [py_str].
  now rewrite !strip_idem.
Qed.

Lemma sign_value_present d base_data book v :
  dict_find d (u "isSign") = Some v -> truthy v = true ->
  (forall s, v = PStr s -> strip s <> []) ->
  signed_display (sign_value (PDict d) base_data book) = signed_display v.
Proof.
  intros Hf Hv Hs. rewrite sign_value_sources.
  unfold sign_sources, sources. cbn [is_dict app].
  rewrite (pick_any_first _ _ _ v); [apply signed_display_trimmed | | exact Hv | exact Hs].
  unfold sign_keys. now apply pick_first_key.
Qed.

(** a string of ASCII digits counts as signed exactly when its value is
    positive and [int] accepts its length *)
Lemma signed_display_numeral r :
  r <> [] -> forallb ascii_digit r = true ->
  exists n,
    int_digits_from 0 r = Some n
    /\ (signed_display (PStr r) = SIGNED
        <-> 0 < n /\ (length r <= int_max_str_digits)%nat).
Proof.
  intros Hne Ha.
  destruct (ascii_digits_plain r Ha) as (Hd & Hs & Hl).
  destruct (int_digits_from_total r 0 Hd) as (n & En & _).
  exists n. split; [exact En |].
  rewrite signed_display_text by discriminate.
  cbn [py_str]. rewrite Hs. unfold signed_text. rewrite Hl. split.
  - intros [Hin | (m & Em & Hm)].
    + destruct Hin as [E | [E | [E | []]]]; subst r.
      * vm_compute in En. injection En as <-.
        split; [reflexivity |]. apply Nat.leb_le. vm_compute. reflexivity.
      * vm_compute in Ha. discriminate Ha.
      * vm_compute in Ha. discriminate Ha.
    + apply int_of_digits_Some in Em. destruct Em as (_ & Hlen & Em).
      split; [congruence | exact Hlen].
  - intros [Hn Hlen]. right. exists n. split; [| exact Hn].
    apply int_of_digits_Some. repeat split; assumption.
Qed.

(** C8 (amended). The contract flag becomes one of two labels.  The
    boolean True, and every other value whose trimmed text is "1", "true"
    or "yes" after lower-casing or is a string of decimal digits that [int]
    converts to a positive number, gives "已签约"; every other value, the
    boolean False and the absent field included, gives "未签约".  [int]
    refuses more than 4300 digits: a string of ASCII digits is signed
    exactly when its value is positive and it has at most 4300 digits.  The
    value judged is the one the payload holds: a non-empty value under
    isSign in the extended payload decides the label.  The line with the
    label is part of the enrichment block, and so of the description, in
    both cases. *)
Theorem signed_contract_label other base_data book :
  SIGNED <> NOT_SIGNED
  /\ signed_display (PBool true) = SIGNED
  /\ signed_display (PBool false) = NOT_SIGNED
  /\ (forall v, (forall b, v <> PBool b) ->
        (signed_display v = SIGNED <-> signed_text (strip (py_str v)))
        /\ (~ signed_text (strip (py_str v)) -> signed_display v = NOT_SIGNED))
  /\ (forall s, is_ascii s = true ->
        In (map to_lower_ascii (strip s)) [u "1"; u "true"; u "yes"] ->
        signed_display (PStr s) = SIGNED)
  /\ (forall r, r <> [] -> forallb ascii_digit r = true ->
        exists n,
          int_digits_from 0 r = Some n
          /\ (signed_display (PStr r) = SIGNED
              <-> 0 < n /\ (length r <= int_max_str_digits)%nat)
          /\ (signed_display (PStr r) = NOT_SIGNED
              <-> n = 0 \/ (int_max_str_digits < length r)%nat))
  /\ (Forall (fun src => pick src sign_keys = empty_str)
        (sign_sources other base_data book) ->
      signed_display (sign_value other base_data book) = NOT_SIGNED)
  /\ (forall d v,
        other = PDict d ->
        dict_find d (u "isSign") = Some v -> truthy v = true ->
        (forall s, v = PStr s -> strip s <> []) ->
        signed_display (sign_value other base_data book) = signed_display v
        /\ In (u "签约状态：" ++ signed_display v)
              (snd (enrichment_block other base_data book)))
  /\ (let label := signed_display (sign_value other base_data book) in
      (label = SIGNED \/ label = NOT_SIGNED)
      /\ In (u "签约状态：" ++ label)
            (snd (enrichment_block other base_data book))
      /\ dict_get (merge_other_info other base_data book) (u "description")
         = PStr
             (let lines := snd (enrichment_block other base_data book) in
              let exist_txt := por (dict_get book (u "description")) empty_str in
              if truthy exist_txt
              then py_str exist_txt ++ newline ++ newline ++ join newline lines
              else join newline lines)).
Proof.
  split; [discriminate |].
  split; [reflexivity |].
  split; [reflexivity |].
  split.
  { intros v Hb. split; [now apply signed_display_text |].
    intros Hn. destruct (signed_display_binary v) as [E | E]; [| exact E].
    apply (signed_display_text v Hb) in E. contradiction. }
  split.
  { intros s Hs Hin. apply signed_display_text; [discriminate |].
    left. cbn [py_str]. unfold str_lower.
    now rewrite (strip_is_ascii s Hs). }
  split.
  { intros r Hne Ha.
    destruct (signed_display_numeral r Hne Ha) as (n & En & Hiff).
    exists n. split; [exact En |]. split; [exact Hiff |].
    destruct (signed_display_binary (PStr r)) as [E | E]; rewrite E.
    - apply Hiff in E. split; [discriminate | lia].
    - split; [intros _ | reflexivity].
      destruct (N.eq_dec n 0) as [-> | Hn]; [now left |]. right.
      destruct (Nat.le_gt_cases (length r) int_max_str_digits) as [Hl | Hl];
        [| exact Hl].
      assert (Hs : signed_display (PStr r) = SIGNED) by (apply Hiff; split; [lia | exact Hl]).
      rewrite E in Hs. discriminate Hs. }
  split.
  { intros Hs. rewrite sign_value_sources, (pick_any_absent _ _ Hs).
    reflexivity. }
  split.
  { intros d v -> Hf Hv Hs.
    pose proof (sign_value_present d base_data book v Hf Hv Hs) as E.
    split; [exact E |]. rewrite <- E. apply signed_line_rendered. }
  cbv zeta. split; [apply signed_display_binary |].
  split; [apply signed_line_rendered | apply merge_other_info_description].
Qed.

End SignedLine.

(** C8, as the specification states it, fails: a string of 4301 digits 1
    is all digits and its value is positive, but [int] refuses it, the
    handler takes over and the label is "未签约". *)
Lemma long_numeral_not_signed :
  ~ (forall s : str,
       all_digits (U := basic_unicode) s = true ->
       (exists n, int_digits_from (U := basic_unicode) 0 s = Some n /\ 0 < n) ->
       signed_display (U := basic_unicode) (R := basic_runtime) (PStr s)
       = SIGNED).
Proof.
  intros H. set (s := repeat 0x31 (S int_max_str_digits)).
  assert (Ha : forallb ascii_digit s = true).
  { apply forallb_forall. intros c Hc. apply repeat_spec in Hc. now subst c. }
  assert (Hne : s <> []) by discriminate.
  destruct (ascii_digits_plain (U := basic_unicode) s Ha) as (Hd & _ & _).
  destruct (signed_display_numeral (U := basic_unicode) (R := basic_runtime)
              s Hne Ha) as (n & En & Hiff).
  assert (Hs : signed_display (U := basic_unicode) (R := basic_runtime)
                 (PStr s) = SIGNED).
  { apply H; [now apply all_digits_decimal |].
    assert (Hn : exists m, int_digits_from (U := basic_unicode) 1 (repeat 0x31 int_max_str_digits)
                           = Some m /\ 1 <= m).
    { apply int_digits_from_total. apply forallb_forall.
      intros c Hc. apply repeat_spec in Hc. now subst c. }
    destruct Hn as (m & Em & Hm). exists m. split; [exact Em | lia]. }
  apply Hiff in Hs. destruct Hs as [_ Hl].
  unfold s in Hl. rewrite repeat_length in Hl. lia.
Qed.

(** ** HtmlFallbackParser *)

Section HtmlParser.
Context {U : UnicodeData} {R : Runtime} {L : HtmlLibrary} {W : Network}.

Lemma re_star_capture p m r g :
  re_star p (fun g _ => Some g) m r = Some g -> exists t, g = m ++ t.
Proof.
  revert m. induction r as [| x r IH]; intros m; cbn [re_star].
  - intros E. injection E as <-. exists []. now rewrite app_nil_r.
  - destruct (p x).
    + destruct (re_star p (fun g _ => Some g) (m ++ [x]) r) as [g' |] eqn:E.
      * intros E'. injection E' as <-. destruct (IH _ E) as [t ->].
        exists (x :: t). now rewrite <- app_assoc.
      * intros E'. injection E' as <-. exists []. now rewrite app_nil_r.
    + intros E'. injection E' as <-. exists []. now rewrite app_nil_r.
Qed.

Lemma re_lit_plus_nonempty lit p s g :
  re_lit lit (re_plus p (fun g _ => Some g)) s = Some g -> g <> [].
Proof.
  revert s. induction lit as [| c lit IH]; intros s; cbn [re_lit].
  - unfold re_plus. destruct s as [| x r]; [discriminate |].
    destruct (p x); [| discriminate].
    intros E. destruct (re_star_capture _ _ _ _ E) as [t ->]. discriminate.
  - destruct s as [| x r]; [discriminate |].
    destruct (x =? c); [apply IH | discriminate].
Qed.

Lemma re_search_found {A} (m : str -> option A) (P : A -> Prop) s a :
  (forall t b, m t = Some b -> P b) -> re_search m s = Some a -> P a.
Proof.
  intros Hm. induction s as [| x r IH]; cbn [re_search].
  - destruct (m []) eqn:E; [| discriminate].
    intros E'. injection E' as <-. eapply Hm, E.
  - destruct (m (x :: r)) eqn:E.
    + intros E'. injection E' as <-. eapply Hm, E.
    + exact IH.
Qed.

Lemma search_novelid_nonempty url id : search_novelid url = Some id -> id <> [].
Proof.
  unfold search_novelid. apply (re_search_found _ (fun g => g <> [])).
  intros t b. apply re_lit_plus_nonempty.
Qed.

Lemma parse_document_title url html book :
  parse_document url html = Some book ->
  exists title, title <> [] /\ dict_get book (u "title") = PStr title.
Proof.
  unfold parse_document.
  destruct html as [doc |]; [| discriminate].
  destruct (has_children doc); [| discriminate]. cbn [negb].
  destruct (search_novelid url) as [[| c id] |]; try discriminate.
  destruct (strip (get_text (select doc XTitle))) as [| t title] eqn:E;
    [discriminate |].
  intros E'. injection E' as <-. exists (t :: title).
  split; [discriminate | reflexivity].
Qed.

(** C9 (amended). The HTML parser hands the page to the HTML library
    before it looks for the book id, so an exception of the library passes
    through it whatever the address is; it raises in no other case.
    Without an id in the address it never returns a record: it returns no
    record when the library accepts the page, and [load_book], which
    catches the exception, has no record in both cases.  A page that yields
    no non-empty title gives no record: every record has a non-empty title.
    A page with an id and a title but no author element gives a record
    whose authors list is empty. *)
Theorem parse_book_acceptance url :
  (forall html, search_novelid url = None -> parse_document url html = None)
  /\ (forall content,
        parse_book url content = None <-> etree_HTML content = None)
  /\ (forall content,
        search_novelid url = None ->
        (etree_HTML content <> None -> parse_book url content = Some None)
        /\ (forall book, parse_book url content <> Some (Some book)))
  /\ (forall tr,
        search_novelid url = None -> fst (load_book_via_web url tr) = None)
  /\ (forall doc,
        strip (get_text (select doc XTitle)) = [] ->
        parse_document url (Some doc) = None)
  /\ (forall content doc,
        etree_HTML content = Some (Some doc) ->
        strip (get_text (select doc XTitle)) = [] ->
        parse_book url content = Some None)
  /\ (forall html book,
        parse_document url html = Some book ->
        exists title, title <> [] /\ dict_get book (u "title") = PStr title)
  /\ (forall doc id,
        has_children doc = true ->
        search_novelid url = Some id ->
        strip (get_text (select doc XTitle)) <> [] ->
        select doc XAuthor = [] ->
        exists book,
          parse_document url (Some doc) = Some book
          /\ dict_get book (u "id") = PStr id
          /\ dict_get book (u "title")
             = PStr (strip (get_text (select doc XTitle)))
          /\ dict_get book (u "authors") = PList []).
Proof.
  assert (Hid : forall html, search_novelid url = None ->
                             parse_document url html = None).
  { intros html E. unfold parse_document. rewrite E.
    destruct html as [doc |]; [| reflexivity].
    now destruct (has_children doc). }
  assert (Htitle : forall doc,
            strip (get_text (select doc XTitle)) = [] ->
            parse_document url (Some doc) = None).
  { intros doc E. unfold parse_document. rewrite E.
    destruct (has_children doc); [| reflexivity]. cbn [negb].
    destruct (search_novelid url) as [[| c id] |]; reflexivity. }
  split; [exact Hid |].
  split.
  { intros content. unfold parse_book.
    destruct (etree_HTML content) as [html |]; split;
      try discriminate; reflexivity. }
  split.
  { intros content E. unfold parse_book.
    destruct (etree_HTML content) as [html |].
    - rewrite (Hid html E). split; [reflexivity | discriminate].
    - split; [intros H; now elim H | discriminate]. }
  split.
  { intros tr E. unfold load_book_via_web, bind, http_get.
    destruct (urlopen tr url) as [r |]; [| reflexivity].
    destruct (status_ok r); [| reflexivity].
    destruct (content r) as [text |]; [| reflexivity].
    unfold parse_book. destruct (etree_HTML text) as [html |]; [| reflexivity].
    now rewrite (Hid html E). }
  split; [exact Htitle |].
  split.
  { intros content doc Eh Et. unfold parse_book. rewrite Eh.
    now rewrite (Htitle doc Et). }
  split; [apply parse_document_title |].
  intros doc id Hc Hid' Ht Ha. unfold parse_document.
  rewrite Hc, Hid', Ha. cbn [negb].
  pose proof (search_novelid_nonempty url id Hid') as Hne.
  destruct id as [| c id]; [contradiction |].
  destruct (strip (get_text (select doc XTitle))) as [| t title];
    [contradiction |].
  eexists. split; [reflexivity |]. repeat split.
Qed.

End HtmlParser.

(** an HTML library that refuses a text with an XML declaration and finds
    no document in any other *)
Definition refusing_html : HtmlLibrary :=
  {| etree_HTML := fun text =>
       if startswith (u "<?xml") text then None else Some None |}.

(** C9, as the specification states it, fails: the address below carries
    no book id, but the parser does not return at once; it first hands the
    page to the HTML library, and when that raises, the call does not
    return null but ends with the exception. *)
Lemma parse_book_raises_without_id :
  ~ (forall (L : HtmlLibrary) (url content : str),
       search_novelid (U := basic_unicode) url = None ->
       parse_book (U := basic_unicode) (L := L) url content = Some None).
Proof.
  intros H.
  specialize (H refusing_html (u "https://www.jjwxc.net/")
                (u "<?xml version='1.0' encoding='utf-8'?><html></html>")
                eq_refl).
  vm_compute in H. discriminate H.
Qed.

(** ** SearchOrchestrator: what the stages add to the trace *)

Definition is_http (e : event) : Prop :=
  match e with EvHttpGet _ => True | _ => False end.

Definition is_search (e : event) : Prop :=
  match e with EvSearchBooks _ | EvSearchUrls _ => True | _ => False end.

(** a computation that only makes HTTP requests *)
Definition adds_http {A} (m : M A) : Prop :=
  forall tr, exists evs, snd (m tr) = tr ++ evs /\ Forall is_http evs.

Lemma adds_http_ret {A} (a : A) : adds_http (ret a).
Proof. intros tr. exists []. split; [now rewrite app_nil_r | constructor]. Qed.

Lemma adds_http_bind {A B} (m : M A) (f : A -> M B) :
  adds_http m -> (forall a, adds_http (f a)) -> adds_http (bind m f).
Proof.
  intros Hm Hf tr. unfold bind.
  destruct (Hm tr) as [e1 [E1 F1]].
  destruct (m tr) as [a tr1]. cbn [snd] in E1. subst tr1.
  destruct (Hf a (tr ++ e1)) as [e2 [E2 F2]].
  exists (e1 ++ e2). rewrite E2, app_assoc. split; [reflexivity |].
  apply Forall_app. now split.
Qed.

Section Traces.
Context {U : UnicodeData} {R : Runtime} {L : HtmlLibrary} {W : Network}.

Lemma adds_http_get url : adds_http (http_get url).
Proof.
  intros tr. exists [EvHttpGet url]. split; [reflexivity |].
  repeat constructor.
Qed.

Ltac http_step :=
  repeat first
    [ apply adds_http_ret
    | apply adds_http_get
    | apply adds_http_bind; [| intros ?]
    | match goal with
      | |- adds_http (match ?x with _ => _ end) => destruct x
      | |- adds_http (if ?b then _ else _) => destruct b
      end ].

Lemma adds_http_fetch_and_merge novelid book base_data :
  adds_http (fetch_and_merge_other_info novelid book base_data).
Proof.
  unfold fetch_and_merge_other_info, other_info_body. http_step.
Qed.

Lemma adds_http_process_detail data novelid :
  adds_http (process_detail_payload data novelid).
Proof.
  unfold process_detail_payload, parse_app_book_data.
  destruct (truthy data); [| apply adds_http_ret].
  destruct (truthy (unwrap_detail data novelid)); [| apply adds_http_ret].
  apply adds_http_bind; [apply adds_http_fetch_and_merge |].
  intros parsed. destruct (_ && _); apply adds_http_ret.
Qed.

Lemma adds_http_try_detail novelid urls :
  adds_http (try_detail_urls novelid urls).
Proof.
  induction urls as [| url rest IH]; cbn [try_detail_urls];
    [apply adds_http_ret |].
  apply adds_http_bind; [apply adds_http_get |].
  intros [r |]; [| exact IH].
  destruct (negb (status_ok r)); [exact IH |].
  destruct (content r); [| exact IH].
  apply adds_http_bind; [apply adds_http_process_detail |].
  intros [book |]; [apply adds_http_ret | exact IH].
Qed.

Lemma adds_http_load_web url : adds_http (load_book_via_web url).
Proof. unfold load_book_via_web. http_step. Qed.

(** [load_book] records its call and then only makes HTTP requests. *)
Lemma load_book_trace self url tr :
  exists evs,
    snd (load_book self url tr) = tr ++ EvLoadBook url :: evs
    /\ Forall is_http evs.
Proof.
  unfold load_book, bind, emit.
  set (rest := match extract_novelid url with
               | Some ((_ :: _) as novelid) =>
                   if jinjiang_prefer_app_api self && truthy (sid self)
                   then _ else _
               | _ => ret None
               end).
  assert (Hr : adds_http rest).
  { unfold rest. destruct (extract_novelid url) as [[| c n] |];
      try apply adds_http_ret.
    destruct (_ && _); [| apply adds_http_load_web].
    apply adds_http_bind; [apply adds_http_try_detail |].
    intros [[| kv b] |]; first [apply adds_http_ret | apply adds_http_load_web]. }
  destruct (Hr (tr ++ [EvLoadBook url])) as [evs [E F]].
  exists evs. split; [| exact F].
  rewrite <- app_assoc in E. exact E.
Qed.

(** C7. When the identifiers hold a Jinjiang id, [identify] calls
    [load_book] once, on the URL built from that id, and calls neither
    [search_books] nor [load_book_urls_new]: besides the one call the trace
    only grows by the HTTP requests of that detail fetch.  At most one
    record is delivered. *)
Theorem identify_by_id self aborted title authors identifiers tr :
  truthy (dict_get identifiers PROVIDER_ID) = true ->
  exists books evs,
    identify self aborted title authors identifiers tr
    = (Some books,
       tr ++ EvLoadBook (book_detail_web_url (dict_get identifiers PROVIDER_ID))
          :: evs)
    /\ Forall is_http evs
    /\ (length books <= 1)%nat.
Proof.
  intros Hid. unfold identify, get_book_url. rewrite Hid.
  unfold bind.
  set (url := book_detail_web_url (dict_get identifiers PROVIDER_ID)).
  destruct (load_book_trace self url tr) as [evs [E F]].
  destruct (load_book self url tr) as [book tr']. cbn [snd] in E. subst tr'.
  unfold ret. eexists _, evs. split; [reflexivity |]. split; [exact F |].
  destruct book as [[| kv b] |]; cbn [deliver length]; try lia.
  destruct (aborted 0%nat); cbn [length]; lia.
Qed.

End Traces.

Lemma identify_by_id_witness :
  truthy (dict_get [(PROVIDER_ID, PStr (u "123"))] PROVIDER_ID) = true
  /\ exists books evs,
       identify (U := basic_unicode) (R := basic_runtime) (L := basic_html)
         (W := silent_network)
         (new_searcher 5 true None false true) (fun _ => false)
         (Some (u "Y")) None [(PROVIDER_ID, PStr (u "123"))] []
       = (Some books,
          [] ++ EvLoadBook
                  (book_detail_web_url (R := basic_runtime)
                     (dict_get [(PROVIDER_ID, PStr (u "123"))] PROVIDER_ID))
             :: evs)
       /\ Forall is_http evs
       /\ (length books <= 1)%nat.
Proof.
  split; [reflexivity |].
  exact (identify_by_id (U := basic_unicode) (R := basic_runtime)
           (L := basic_html) (W := silent_network)
           (new_searcher 5 true None false true) (fun _ => false)
           (Some (u "Y")) None [(PROVIDER_ID, PStr (u "123"))] [] eq_refl).
Defined.

(** ** Searching without a session id *)

Section NoSid.
Context {U : UnicodeData} {R : Runtime} {L : HtmlLibrary} {W : Network}.

Lemma as_completed_nil : as_completed [] = [].
Proof.
  pose proof (as_completed_perm []) as P.
  apply Permutation_sym, Permutation_nil in P. exact P.
Qed.

Lemma search_via_app_api_no_sid self query search_type tr :
  truthy (sid self) = false ->
  search_via_app_api self query search_type tr = ([], tr).
Proof. intros Hs. unfold search_via_app_api. now rewrite Hs. Qed.

Lemma load_book_urls_new_no_sid self query tr :
  truthy (sid self) = false ->
  load_book_urls_new self query tr = ([], tr ++ [EvSearchUrls query]).
Proof.
  intros Hs. unfold load_book_urls_new, bind, emit.
  destruct (parse_search_keyword query) as [q ty].
  now apply search_via_app_api_no_sid.
Qed.

Lemma search_books_no_sid self query authors tr :
  truthy (sid self) = false ->
  exists query',
    search_books self query authors tr
    = ([], tr ++ [EvSearchBooks query; EvSearchUrls query']).
Proof.
  intros Hs. unfold search_books, bind, emit.
  eexists. rewrite (load_book_urls_new_no_sid self _ _ Hs).
  cbn [map run_all]. unfold ret.
  match goal with
  | |- context [as_completed ?l] =>
      replace (as_completed l) with (@nil (option pydict))
        by (symmetry; apply as_completed_nil)
  end.
  cbn [flat_map]. now rewrite <- app_assoc.
Qed.

Lemma search_variations_no_sid self authors variations books tr :
  truthy (sid self) = false -> books = [] ->
  exists evs,
    search_variations self authors variations books tr = ([], tr ++ evs)
    /\ Forall is_search evs.
Proof.
  intros Hs ->. revert tr.
  induction variations as [| var rest IH]; intros tr; cbn [search_variations].
  - exists []. unfold ret. split; [now rewrite app_nil_r | constructor].
  - unfold bind.
    destruct (search_books_no_sid self var authors tr Hs) as [q' ->].
    destruct (IH (tr ++ [EvSearchBooks var; EvSearchUrls q'])) as [evs [E F]].
    exists ([EvSearchBooks var; EvSearchUrls q'] ++ evs).
    rewrite E, app_assoc. split; [reflexivity |].
    apply Forall_app. split; [| exact F]. repeat constructor.
Qed.

Lemma identify_no_sid self aborted title authors identifiers tr :
  truthy (sid self) = false ->
  get_book_url identifiers = None ->
  exists result evs,
    identify self aborted title authors identifiers tr = (result, tr ++ evs)
    /\ (result = None \/ result = Some [])
    /\ Forall is_search evs.
Proof.
  intros Hs Hid. unfold identify. rewrite Hid.
  destruct (_ && _).
  { exists None, []. unfold ret. rewrite app_nil_r.
    split; [reflexivity |]. split; [now left | constructor]. }
  unfold bind.
  match goal with
  | |- context [search_books self ?q authors tr] =>
      destruct (search_books_no_sid self q authors tr Hs) as [q1 ->];
      set (tr1 := tr ++ [EvSearchBooks q; EvSearchUrls q1])
  end.
  assert (F1 : exists e1, tr1 = tr ++ e1 /\ Forall is_search e1).
  { eexists. split; [reflexivity |]. repeat constructor. }
  clearbody tr1.
  (* the retry with the authors only *)
  set (cleaned_authors := match authors with
                          | Some ((_ :: _) as l) => map normalize_query l
                          | _ => []
                          end).
  assert (F2 : exists tr2 e2,
             (match @nil pydict, cleaned_authors with
              | [], _ :: _ =>
                  search_books self
                    (u "#" ++ join (u " ") cleaned_authors ++ u "#") authors
              | _, _ => ret []
              end) tr1 = ([], tr2)
             /\ tr2 = tr ++ e2 /\ Forall is_search e2).
  { destruct F1 as [e1 [-> F1]].
    destruct cleaned_authors as [| a l].
    - exists (tr ++ e1), e1. repeat split. exact F1.
    - destruct (search_books_no_sid self
                  (u "#" ++ join (u " ") (a :: l) ++ u "#") authors
                  (tr ++ e1) Hs) as [q2 ->].
      exists ((tr ++ e1) ++ [EvSearchBooks (u "#" ++ join (u " ") (a :: l) ++ u "#");
                             EvSearchUrls q2]),
             (e1 ++ [EvSearchBooks (u "#" ++ join (u " ") (a :: l) ++ u "#");
                     EvSearchUrls q2]).
      split; [reflexivity |].
      split; [symmetry; apply app_assoc |].
      apply Forall_app. split; [exact F1 |]. repeat constructor. }
  destruct F2 as (tr2 & e2 & -> & -> & F2).
  (* the retry with the variations of the title *)
  match goal with
  | |- context [match ?ct with [] => _ | _ :: _ => _ end] => set (cleaned_title := ct)
  end.
  destruct cleaned_title as [| c t] eqn:Ect.
  - unfold ret. exists (Some []), e2. cbn [deliver].
    split; [reflexivity |]. split; [now right | exact F2].
  - destruct (search_variations_no_sid self authors
                (generate_title_variations (c :: t)) [] (tr ++ e2) Hs eq_refl)
      as [e3 [-> F3]].
    unfold ret. exists (Some []), (e2 ++ e3). cbn [deliver].
    rewrite app_assoc. split; [reflexivity |]. split; [now right |].
    apply Forall_app. now split.
Qed.

(** C10. Without a session id (in particular when no login cookie is
    configured, or when none of the extraction strategies finds one)
    [search_via_app_api] returns the empty list and makes no HTTP request;
    [search_via_web] returns the empty list in every case; so
    [load_book_urls_new] and [search_books] find nothing, and a search of
    [identify] driven by title or authors delivers no record, makes no
    request and fetches no detail. *)
Theorem no_sid_no_candidates self :
  truthy (sid self) = false ->
  (forall query search_type tr,
      search_via_app_api self query search_type tr = ([], tr))
  /\ (forall any query search_type tr,
        search_via_web any query search_type tr = ([], tr))
  /\ (forall query tr,
        load_book_urls_new self query tr = ([], tr ++ [EvSearchUrls query]))
  /\ (forall query authors tr,
        exists query',
          search_books self query authors tr
          = ([], tr ++ [EvSearchBooks query; EvSearchUrls query']))
  /\ (forall aborted title authors identifiers tr,
        get_book_url identifiers = None ->
        exists result evs,
          identify self aborted title authors identifiers tr
          = (result, tr ++ evs)
          /\ (result = None \/ result = Some [])
          /\ Forall is_search evs)
  /\ extract_sid_from_cookie None = PNone
  /\ extract_sid_from_cookie (Some []) = PNone.
Proof.
  intros Hs.
  split; [intros; now apply search_via_app_api_no_sid |].
  split; [reflexivity |].
  split; [intros; now apply load_book_urls_new_no_sid |].
  split; [intros; now apply search_books_no_sid |].
  split; [intros; now apply identify_no_sid |].
  split; reflexivity.
Qed.

End NoSid.

(** ** The look-ups do not run out of fuel *)

Lemma depth_dict_find d k v :
  dict_find d k = Some v -> (depth v < depth (PDict d))%nat.
Proof.
  cbn [depth]. induction d as [| [k0 v0] r IH]; cbn [dict_find fold_right].
  - discriminate.
  - destruct (str_eqb k0 k).
    + intros E. injection E as <-. lia.
    + intros E. specialize (IH E). lia.
Qed.

Lemma depth_dict_get d k :
  dict_get d k = PNone \/ (depth (dict_get d k) < depth (PDict d))%nat.
Proof.
  unfold dict_get. destruct (dict_find d k) eqn:E; [right | now left].
  now apply depth_dict_find in E.
Qed.

Lemma depth_head x l : (depth x < depth (PList (x :: l)))%nat.
Proof. cbn [depth fold_right]. lia. Qed.

Lemma first_some_ext {A B} (f g : A -> option B) l :
  (forall x, f x = g x) -> first_some f l = first_some g l.
Proof.
  intros E. induction l as [| x r IH]; [reflexivity |].
  cbn [first_some]. now rewrite E, IH.
Qed.

Section Fuel.
Context {U : UnicodeData} {R : Runtime}.

Lemma pick_from_fuel_enough n m obj keys :
  (depth obj < n)%nat -> (depth obj < m)%nat ->
  pick_from_fuel n obj keys = pick_from_fuel m obj keys.
Proof.
  revert m obj. induction n as [| n IH]; intros m obj Hn Hm; [lia |].
  destruct m as [| m]; [lia |].
  cbn [pick_from_fuel].
  destruct (negb (truthy obj) || match keys with [] => true | _ => false end);
    [reflexivity |].
  match goal with
  | |- match ?d with Some _ => _ | None => _ end = _ => destruct d
  end; [reflexivity |].
  assert (E : forall nest_key,
             match get_attr obj nest_key with
             | Some (PDict d') => if_truthy (pick_from_fuel n (PDict d') keys)
             | Some (PList (x :: _)) => if_truthy (pick_from_fuel n x keys)
             | _ => None
             end
             = match get_attr obj nest_key with
               | Some (PDict d') => if_truthy (pick_from_fuel m (PDict d') keys)
               | Some (PList (x :: _)) => if_truthy (pick_from_fuel m x keys)
               | _ => None
               end).
  { intros nest_key. destruct obj as [| | | | l | d]; try reflexivity.
    cbn [get_attr].
    destruct (depth_dict_get d nest_key) as [-> | Hd]; [reflexivity |].
    destruct (dict_get d nest_key) as [| | | | [| x l'] | d']; try reflexivity.
    - pose proof (depth_head x l'). rewrite (IH m x); [reflexivity | lia | lia].
    - rewrite (IH m (PDict d')); [reflexivity | lia | lia]. }
  rewrite (first_some_ext _ _ detail_nest_keys E).
  destruct (first_some _ detail_nest_keys); [reflexivity |].
  destruct obj as [| | | | [| x l] | d]; try reflexivity.
  pose proof (depth_head x l). apply IH; lia.
Qed.

Lemma pick_fuel_enough n m obj keys :
  (depth obj < n)%nat -> (depth obj < m)%nat ->
  pick_fuel n obj keys = pick_fuel m obj keys.
Proof.
  revert m obj. induction n as [| n IH]; intros m obj Hn Hm; [lia |].
  destruct m as [| m]; [lia |].
  cbn [pick_fuel].
  destruct (negb (truthy obj)); [reflexivity |].
  match goal with
  | |- match ?d with Some _ => _ | None => _ end = _ => destruct d
  end; [reflexivity |].
  assert (E : forall nest,
             match obj with
             | PDict d =>
                 if truthy (dict_get d nest)
                 then if_truthy (pick_fuel n (dict_get d nest) keys)
                 else None
             | _ => None
             end
             = match obj with
               | PDict d =>
                   if truthy (dict_get d nest)
                   then if_truthy (pick_fuel m (dict_get d nest) keys)
                   else None
               | _ => None
               end).
  { intros nest. destruct obj as [| | | | l | d]; try reflexivity.
    destruct (depth_dict_get d nest) as [-> | Hd]; [reflexivity |].
    rewrite (IH m (dict_get d nest)); [reflexivity | lia | lia]. }
  rewrite (first_some_ext _ _ other_nest_keys E).
  destruct (first_some _ other_nest_keys); [reflexivity |].
  destruct obj as [| | | | [| x l] | d]; try reflexivity.
  pose proof (depth_head x l). apply IH; lia.
Qed.

(** With any fuel above the depth of the value, [_pick_from] and [pick]
    are the look-ups with that fuel: the bound of their definitions is never
    reached. *)
Lemma _pick_from_fuel n obj keys :
  (depth obj < n)%nat -> pick_from_fuel n obj keys = _pick_from obj keys.
Proof. intros Hn. unfold _pick_from. apply pick_from_fuel_enough; lia. Qed.

Lemma pick_fuel_any n obj keys :
  (depth obj < n)%nat -> pick_fuel n obj keys = pick obj keys.
Proof. intros Hn. unfold pick. apply pick_fuel_enough; lia. Qed.

End Fuel.

Lemma no_sid_no_candidates_witness :
  truthy (sid (new_searcher (U := basic_unicode) (R := basic_runtime)
                 5 true None false true)) = false
  /\ forall query search_type tr,
       search_via_app_api (R := basic_runtime) (W := answering_network)
         (new_searcher (U := basic_unicode) (R := basic_runtime)
            5 true None false true) query search_type tr
       = ([], tr).
Proof.
  split; [reflexivity |].
  apply (no_sid_no_candidates (U := basic_unicode) (R := basic_runtime)
           (L := basic_html) (W := answering_network)
           (new_searcher (U := basic_unicode) (R := basic_runtime)
              5 true None false true)).
  reflexivity.
Defined.

(** ** The scanners on corner cases of the patterns *)

Example type_code_newline_inside :
  match_type_code (u "t = 12  ab" ++ [0x0A] ++ u "cd") = None.
Proof. vm_compute. reflexivity. Qed.

Example type_code_no_rest : match_type_code (u "type:7") = Some (u "7", []).
Proof. vm_compute. reflexivity. Qed.

Example type_code_final_newline :
  match_type_code (u "T=1 x" ++ [0x0A]) = Some (u "1", u "x")
  /\ match_type_code (u "t=12" ++ [0x0A; 0x0A]) = Some (u "12", []).
Proof. split; vm_compute; reflexivity. Qed.

Example type_code_rest_with_digits :
  match_type_code (u "t=4 5 6") = Some (u "4", u "5 6")
  /\ match_type_code (u "ty=1") = None.
Proof. split; vm_compute; reflexivity. Qed.

Example prefixed_backtracks :
  let ids := [u "ID"; u "文章ID"; u "id"] in
  match_prefixed ids (u "id : " ++ [0x0A] ++ u " x") = Some (u "x")
  /\ match_prefixed ids (u "id:") = None
  /\ match_prefixed ids (u "id: " ++ [0x0A]) = Some (u " ")
  /\ match_prefixed ids ([0x130] ++ u "d:5") = Some (u "5")
  /\ match_prefixed ids ([0x131] ++ u "D：a b") = Some (u "a b")
  /\ match_prefixed ids (u "文章id:9") = Some (u "9").
Proof. repeat split; vm_compute; reflexivity. Qed.

Example sub_bracketed_cases :
  sub_bracketed 0x28 0x29 (u "a(b(c)d)e") = u "ad)e"
  /\ sub_bracketed 0x28 0x29 (u "((a)") = []
  /\ sub_bracketed 0x28 0x29 (u "(a") = u "(a"
  /\ sub_bracketed 0x28 0x29 (u "a)b(c") = u "a)b(c"
  /\ sub_bracketed 0x28 0x29 (u "()x()") = u "x"
  /\ sub_bracketed 0x3010 0x3011 (u "【a【b】c】d") = u "c】d".
Proof. repeat split; vm_compute; reflexivity. Qed.

Example remove_tags_cases :
  remove_tags (u "<>a<b>") = u "<>a"
  /\ remove_tags (u "<a<b>c>d") = u "c>d"
  /\ remove_tags (u "a<b") = u "a<b"
  /\ remove_tags (u "<<a>>") = u ">"
  /\ remove_tags (u "x<" ++ [0x0A] ++ u ">y") = u "xy".
Proof. repeat split; vm_compute; reflexivity. Qed.

Example match_date_cases :
  match_date (u "2020-1-2") = Some (u "2020", u "1", u "2")
  /\ match_date (u "2020年12月3日") = Some (u "2020", u "12", u "3")
  /\ match_date (u "20201203x") = Some (u "2020", u "12", u "03")
  /\ match_date (u "2020/7") = Some (u "2020", u "7", [])
  /\ match_date (u "202") = None
  /\ published_date (u "2020年1月3日") = u "2020-01-03".
Proof. repeat split; vm_compute; reflexivity. Qed.

Example search_sidkey_cases :
  search_sidkey (u "sidkey=--") = Some (u "-")
  /\ search_sidkey (u "sidkey:=-'-") = Some (u "-")
  /\ search_sidkey (u "sidkey 12") = None.
Proof. repeat split; vm_compute; reflexivity. Qed.

Example string_operations :
  strip_chars (u "#") (u "#a#b##") = u "a#b"
  /\ slice_inner 3 (u "ab#") = []
  /\ split_char 0x58 (u "aXbXXc") = [u "a"; u "b"; []; u "c"]
  /\ replace (u "bc") (u "Z") (u "abcabc") = u "aZaZ"
  /\ replace (u "aa") (u "b") (u "aaa") = u "ba"
  /\ re_split isspace (u " a  b ") = [[]; u "a"; u "b"; []]
  /\ search_digits (u "rank 12 of 30") = Some (u "12")
  /\ str_capitalize (u "aB") = u "Ab".
Proof. repeat split; vm_compute; reflexivity. Qed.

(** ** The scanners against their patterns

    [re.sub] scans from the left: where the pattern matches, the match is
    replaced and the scan resumes behind it; elsewhere the character is
    kept.  The scanners of Part I satisfy this equation for the patterns
    written with the backtracking matchers. *)

(** "O[^C]*C" at the start of the text: what is left behind the match *)
Definition match_bracketed (o c : N) (s : str) : option str :=
  re_one (N.eqb o)
    (re_star (fun x => negb (x =? c))
       (fun _ => re_one (fun x => x =? c) (fun r => Some r)) []) s.

(** "<[^>]+>" at the start of the text *)
Definition match_tag (s : str) : option str :=
  re_one (N.eqb 0x3C)
    (re_plus (fun x => negb (x =? 0x3E))
       (fun _ => re_one (fun x => x =? 0x3E) (fun r => Some r))) s.

Fixpoint after_first (c : N) (s : str) : option str :=
  match s with
  | [] => None
  | x :: r => if x =? c then Some r else after_first c r
  end.

Lemma re_star_until c matched s :
  re_star (fun x => negb (x =? c))
    (fun _ => re_one (fun x => x =? c) (fun r => Some r)) matched s
  = after_first c s.
Proof.
  revert matched. induction s as [| x r IH]; intros matched; [reflexivity |].
  cbn [re_star after_first re_one].
  destruct (x =? c); cbn [negb]; [reflexivity |].
  rewrite IH. now destruct (after_first c r).
Qed.

Lemma after_first_mem c s : mem c s = true <-> after_first c s <> None.
Proof.
  unfold mem. induction s as [| x r IH]; cbn [existsb after_first].
  - split; [discriminate | congruence].
  - rewrite (N.eqb_sym c x). destruct (x =? c); cbn [orb].
    + split; [discriminate | reflexivity].
    + exact IH.
Qed.

Lemma sub_bracketed_inside o c s :
  sub_bracketed_from o c true s
  = match after_first c s with
    | Some rest => sub_bracketed_from o c false rest
    | None => []
    end.
Proof.
  induction s as [| x r IH]; [reflexivity |].
  cbn [sub_bracketed_from after_first]. now destruct (x =? c).
Qed.

Lemma sub_bracketed_equation o c x r :
  sub_bracketed o c (x :: r)
  = match match_bracketed o c (x :: r) with
    | Some rest => sub_bracketed o c rest
    | None => x :: sub_bracketed o c r
    end.
Proof.
  unfold sub_bracketed, match_bracketed. cbn [sub_bracketed_from re_one].
  rewrite re_star_until, (N.eqb_sym o x).
  destruct (x =? o); cbn [andb]; [| reflexivity].
  destruct (mem c r) eqn:E.
  - rewrite sub_bracketed_inside. apply after_first_mem in E.
    now destruct (after_first c r).
  - destruct (after_first c r) eqn:A; [| reflexivity].
    assert (mem c r = true) by (apply after_first_mem; congruence).
    congruence.
Qed.

Lemma remove_tags_inside s :
  remove_tags_from true s
  = match after_first 0x3E s with
    | Some rest => remove_tags_from false rest
    | None => []
    end.
Proof.
  induction s as [| x r IH]; [reflexivity |].
  cbn [remove_tags_from after_first]. now destruct (x =? 0x3E).
Qed.

Lemma remove_tags_equation x r :
  remove_tags (x :: r)
  = match match_tag (x :: r) with
    | Some rest => remove_tags rest
    | None => x :: remove_tags r
    end.
Proof.
  unfold remove_tags, match_tag. cbn [remove_tags_from re_one].
  rewrite (N.eqb_sym 0x3C x).
  destruct (x =? 0x3C); cbn [andb]; [| reflexivity].
  destruct r as [| y r']; [reflexivity |].
  unfold re_plus. destruct (y =? 0x3E) eqn:Ey; cbn [negb andb]; [reflexivity |].
  rewrite re_star_until.
  destruct (mem 0x3E r') eqn:E.
  - rewrite remove_tags_inside. cbn [after_first]. rewrite Ey.
    apply after_first_mem in E. now destruct (after_first 0x3E r').
  - destruct (after_first 0x3E r') eqn:A; [| reflexivity].
    assert (mem 0x3E r' = true) by (apply after_first_mem; congruence).
    congruence.
Qed.

(** a run of the class is replaced as a whole *)
Fixpoint skip_run (p : N -> bool) (s : str) : str :=
  match s with
  | [] => []
  | x :: r => if p x then skip_run p r else s
  end.

Lemma sub_runs_in_run p s :
  sub_runs_from p true s = sub_runs_from p false (skip_run p s).
Proof.
  induction s as [| x r IH]; [reflexivity |].
  cbn [sub_runs_from skip_run]. destruct (p x) eqn:E; [exact IH |].
  cbn [sub_runs_from]. now rewrite E.
Qed.

Lemma sub_runs_equation p x r :
  sub_runs p (x :: r)
  = if p x then 0x20 :: sub_runs p (skip_run p r) else x :: sub_runs p r.
Proof.
  unfold sub_runs. cbn [sub_runs_from].
  destruct (p x); [| reflexivity]. now rewrite sub_runs_in_run.
Qed.

(* ================================================================== *)
(** * Part III.  Further properties of the code *)
(* ================================================================== *)

(** ** QueryNormalizer: the shape of a normalized query *)

Section NormalizerShape.
Context {U : UnicodeData}.

Lemma spaced_collapse_spaces s : spaced (collapse_spaces s).
Proof.
  unfold collapse_spaces, strip.
  apply spaced_rstrip, spaced_lstrip, sub_runs_spaced.
Qed.

Lemma rstrip_last s c : isspace c = false -> rstrip (s ++ [c]) = s ++ [c].
Proof.
  intros Hc. induction s as [| x r IH]; cbn [app rstrip].
  - now rewrite Hc.
  - rewrite IH. destruct (r ++ [c]) eqn:E; [| reflexivity].
    now destruct r.
Qed.

Lemma rstrip_last_not_space s :
  match rev (rstrip s) with
  | [] => True
  | c :: _ => isspace c = false
  end.
Proof.
  induction s as [| x r IH]; cbn [rstrip]; [exact I |].
  destruct (rstrip r) as [| y r'] eqn:E.
  - destruct (isspace x) eqn:S; cbn; [exact I | exact S].
  - cbn [rev] in *. destruct (rev r' ++ [y]) eqn:E2.
    + now destruct (rev r').
    + cbn [app]. exact IH.
Qed.

(** X1.  A normalized query is made of kept characters only (word characters,
    CJK ideographs and punctuation, and - . : , ' and the space), none of
    them full-width or one of the folded separators; its only white space
    is the single space, never doubled, never at the start or the end. *)
Theorem normalize_query_shape s :
  let t := normalize_query s in
  Forall (fun c => kept c = true /\ is_fullwidth c = false /\ folded c = false
                   /\ (isspace c = true -> c = 0x20)) t
  /\ spaced t
  /\ head_not_space t
  /\ match rev t with [] => True | c :: _ => isspace c = false end
  /\ strip t = t.
Proof.
  intros t. subst t. rewrite normalize_query_steps.
  destruct s as [| x r]; [repeat split; constructor |].
  pose proof (normalize_steps_kept (x :: r)) as Hk.
  pose proof (normalize_steps_not_fullwidth (x :: r)) as Hf.
  pose proof (normalize_steps_folded (x :: r)) as Hd.
  split.
  { rewrite Forall_forall in *. intros c Hc.
    specialize (Hk c Hc). specialize (Hf c Hc). specialize (Hd c Hc).
    repeat split; try assumption.
    intros S. destruct (kept_space c Hk S) as [-> | ->];
      [reflexivity | discriminate Hf]. }
  unfold normalize_steps.
  split; [apply spaced_collapse_spaces |].
  split; [unfold collapse_spaces, strip; apply rstrip_head, lstrip_head |].
  split; [unfold collapse_spaces, strip; apply rstrip_last_not_space |].
  unfold collapse_spaces. apply strip_idem.
Qed.

End NormalizerShape.

Example normalize_query_example :
  normalize_query (u "（完结）Ａｂ　ｃ·d【x】") = u "Ab c d".
Proof. vm_compute. reflexivity. Qed.

(** ** [generate_title_variations] *)

Section Variations.
Context {U : UnicodeData}.

Definition add_variation (variations : list str) (t : str) : list str :=
  if (2 <=? length t)%nat && negb (existsb (str_eqb t) variations)
  then variations ++ [t] else variations.

Lemma add_variations_spec tokens : forall v,
  NoDup v ->
  let w := fold_left add_variation tokens v in
  NoDup w
  /\ (length w <= length v + length tokens)%nat
  /\ (forall t, In t w -> In t v \/ (In t tokens /\ (2 <= length t)%nat)).
Proof.
  induction tokens as [| t r IH]; intros v Hv; cbn [fold_left].
  - repeat split; [exact Hv | cbn; lia | tauto].
  - assert (Hv' : NoDup (add_variation v t)).
    { unfold add_variation.
      destruct (2 <=? length t)%nat; cbn [andb]; [| exact Hv].
      destruct (existsb (str_eqb t) v) eqn:E; cbn [negb]; [exact Hv |].
      apply NoDup_app; [exact Hv | repeat constructor; intros [] |].
      intros x Hx [Hxt | []]. subst x.
      assert (existsb (str_eqb t) v = true) as E'; [| congruence].
      apply existsb_exists. exists t. split; [exact Hx | apply str_eqb_refl]. }
    destruct (IH _ Hv') as (N & Len & Mem).
    split; [exact N |]. split.
    + cbn [length]. etransitivity; [exact Len |].
      unfold add_variation.
      destruct (_ && _); [rewrite length_app; cbn; lia | lia].
    + intros x Hx. destruct (Mem x Hx) as [Hin | [Hin Hl]].
      * unfold add_variation in Hin.
        destruct (2 <=? length t)%nat eqn:L; cbn [andb] in Hin; [| now left].
        destruct (negb _); [| now left].
        apply in_app_or in Hin. destruct Hin as [Hin | [<- | []]];
          [now left |].
        right. split; [now left | now apply Nat.leb_le].
      * right. split; [now right | exact Hl].
Qed.

Lemma firstn_In_inv {A} n : forall (l : list A) x, In x (firstn n l) -> In x l.
Proof.
  induction n as [| n IH]; intros [| y r] x H; cbn in *; try tauto.
  destruct H as [H | H]; [now left | right; now apply IH].
Qed.

Lemma insert_by_length_In t x l :
  In x (insert_by_length t l) <-> x = t \/ In x l.
Proof.
  induction l as [| y r IH]; cbn [insert_by_length].
  - cbn. intuition congruence.
  - destruct (length y <=? length t)%nat; cbn [In].
    + intuition congruence.
    + rewrite IH. cbn. intuition congruence.
Qed.

Lemma sort_by_length_In x l : In x (sort_by_length l) <-> In x l.
Proof.
  induction l as [| y r IH]; cbn [sort_by_length fold_right]; [tauto |].
  rewrite insert_by_length_In. fold (sort_by_length r). rewrite IH.
  cbn. intuition congruence.
Qed.

Lemma title_variations_length cleaned_title :
  (length (generate_title_variations cleaned_title) <= 6)%nat.
Proof.
  unfold generate_title_variations.
  destruct cleaned_title as [| c r]; [cbn; lia |].
  fold add_variation. cbv zeta.
  set (title := c :: r).
  set (init := if _ && _ then _ else _).
  set (tokens := sort_by_length _).
  assert (Hinit : NoDup init).
  { subst init. destruct (_ && _); repeat constructor. intros []. }
  destruct (add_variations_spec (firstn 5 tokens) init Hinit) as (_ & Len & _).
  assert (length init <= 1)%nat by (subst init; destruct (_ && _); cbn; lia).
  assert (length (firstn 5 tokens) <= 5)%nat by (rewrite length_firstn; lia).
  etransitivity; [exact Len | lia].
Qed.

(** X2.  The retry queries built from a title are pairwise different and at
    most six, and each of them is either the title without its annotation
    words (then not empty and different from the title) or one of the
    title's white-space separated words of two characters or more. *)
Theorem generate_title_variations_spec cleaned_title :
  let vs := generate_title_variations cleaned_title in
  let short :=
    collapse_spaces
      (fold_left (fun short w => replace w (u " ") short) stopwords
         cleaned_title) in
  NoDup vs
  /\ (length vs <= 6)%nat
  /\ (forall v, In v vs ->
        (v = short /\ v <> [] /\ v <> cleaned_title)
        \/ (In v (re_split isspace cleaned_title) /\ (2 <= length v)%nat)).
Proof.
  intros vs short. subst vs. unfold generate_title_variations.
  destruct cleaned_title as [| c r]; [repeat split; [constructor | cbn; lia | intros ? []] |].
  fold short. fold add_variation.
  set (title := c :: r) in *.
  set (init := if nonempty short && negb (str_eqb short title)
               then [short] else []).
  set (tokens := sort_by_length (filter nonempty (re_split isspace title))).
  assert (Hinit : NoDup init).
  { subst init. destruct (_ && _); repeat constructor. intros []. }
  destruct (add_variations_spec (firstn 5 tokens) init Hinit) as (N & Len & Mem).
  split; [exact N |]. split.
  - etransitivity; [exact Len |].
    assert (length init <= 1)%nat by (subst init; destruct (_ && _); cbn; lia).
    pose proof (firstn_le_length 5 tokens).
    assert (length (firstn 5 tokens) <= 5)%nat.
    { rewrite length_firstn. lia. }
    lia.
  - intros v Hv. destruct (Mem v Hv) as [Hin | [Hin Hl]].
    + left. subst init.
      destruct (nonempty short) eqn:Ne; cbn [andb] in Hin; [| destruct Hin].
      destruct (str_eqb short title) eqn:Eq; cbn [negb] in Hin; [destruct Hin |].
      destruct Hin as [<- | []]. repeat split.
      * intros E. rewrite E in Ne. discriminate Ne.
      * intros E. rewrite E, str_eqb_refl in Eq. discriminate Eq.
    + right. split; [| exact Hl].
      apply firstn_In_inv in Hin. subst tokens.
      apply (proj1 (sort_by_length_In _ _)) in Hin.
      apply filter_In in Hin. tauto.
Qed.

End Variations.

Example generate_title_variations_example :
  generate_title_variations (u "总有老师要请家长完结 番外 ab c")
  = [u "总有老师要请家长 ab c"; u "总有老师要请家长完结"; u "番外"; u "ab"].
Proof. vm_compute. reflexivity. Qed.

(** ** The author-only retry of [identify] and the keyword classifier *)

Section AuthorRetry.
Context {U : UnicodeData}.

Lemma join_In c sep parts :
  In c (join sep parts) -> In c sep \/ exists p, In p parts /\ In c p.
Proof.
  induction parts as [| p ps IH]; [intros [] |].
  destruct ps as [| p' ps'].
  - intros H. right. exists p. split; [now left | exact H].
  - rewrite join_cons2. intros H.
    apply in_app_or in H. destruct H as [H | H].
    + right. exists p. split; [now left | exact H].
    + apply in_app_or in H. destruct H as [H | H]; [now left |].
      destruct (IH H) as [H' | (q & Hq & Hc)]; [now left |].
      right. exists q. split; [now right | exact Hc].
Qed.

Lemma normalize_query_kept s c :
  s <> [] -> In c (normalize_query s) -> kept c = true.
Proof.
  intros Hs. rewrite normalize_query_steps. destruct s; [contradiction |].
  pose proof (normalize_steps_kept (n :: s)) as H.
  rewrite Forall_forall in H. apply H.
Qed.

Lemma no_hash_in_authors authors :
  ~ In 0x23 (join (u " ") (map normalize_query authors)).
Proof.
  intros H. apply join_In in H. destruct H as [H | (p & Hp & Hc)].
  - destruct H as [H | []]. discriminate H.
  - apply in_map_iff in Hp. destruct Hp as (a & <- & _).
    destruct a as [| x r]; [destruct Hc |].
    apply normalize_query_kept in Hc; [| discriminate].
    vm_compute in Hc. discriminate Hc.
Qed.

Lemma lstrip_chars_hash t :
  ~ In 0x23 t -> lstrip_chars [0x23] t = t.
Proof.
  destruct t as [| x r]; [reflexivity |]. intros H. cbn [lstrip_chars].
  replace (mem x [0x23]) with false; [reflexivity |].
  symmetry. apply mem_not_In. intros [E | []]. apply H. now left.
Qed.

Lemma strip_chars_wrapped t :
  ~ In 0x23 t -> strip_chars [0x23] (0x23 :: t ++ [0x23]) = t.
Proof.
  intros H. unfold strip_chars.
  change (lstrip_chars [0x23] (0x23 :: t ++ [0x23]))
    with (lstrip_chars [0x23] (t ++ [0x23])).
  destruct t as [| x r]; [reflexivity |].
  assert (Hx : mem x [0x23] = false).
  { apply mem_not_In. intros [E | []]. apply H. now left. }
  cbn [app lstrip_chars]. rewrite Hx.
  change (x :: r ++ [0x23]) with ((x :: r) ++ [0x23]).
  rewrite rev_unit. cbn [lstrip_chars mem existsb N.eqb Pos.eqb orb].
  rewrite lstrip_chars_hash; [apply rev_involutive |].
  intros Hin. apply H. now apply in_rev.
Qed.

Lemma hash_not_prefixed {A} words (k : str -> option A) r :
  Forall (fun w => match w with p :: _ => ci_eq p 0x23 = false | [] => False end)
    words ->
  re_alt (map (fun w => re_lit_ci w) words) k (0x23 :: r) = None.
Proof.
  induction 1 as [| w ws Hw _ IH]; [reflexivity |].
  cbn [map re_alt]. destruct w as [| p w']; [destruct Hw |].
  cbn [re_lit_ci]. rewrite Hw. exact IH.
Qed.

Ltac no_prefix :=
  unfold match_type_code, match_prefixed;
  match goal with
  | |- re_alt ?ms ?k _ = None =>
      first
        [ apply (hash_not_prefixed [u "t"; u "type"] k)
        | apply hash_not_prefixed ];
      repeat constructor
  end.

Lemma parse_hash_first (r : str) :
  let q := 0x23 :: r in
  match_type_code q = None
  /\ match_prefixed [u "作者"; u "author"] q = None
  /\ match_prefixed [u "主角"; u "protagonist"] q = None
  /\ match_prefixed [u "配角"; u "supporting"] q = None
  /\ match_prefixed [u "其它"; u "其他"; u "other"] q = None
  /\ match_prefixed [u "ID"; u "文章ID"; u "id"] q = None.
Proof.
  intros q. subst q. repeat split; no_prefix.
Qed.

(** The text between the marks of a query that starts and ends with the
    author mark and holds no other mark is searched as an author. *)
Lemma parse_search_keyword_wrapped t :
  ~ In 0x23 t ->
  parse_search_keyword (u "#" ++ t ++ u "#") = (strip t, SEARCH_TYPE_author).
Proof.
  intros H. change (u "#") with [0x23]. cbn [app].
  unfold parse_search_keyword.
  assert (Hq : strip (0x23 :: t ++ [0x23]) = 0x23 :: t ++ [0x23]).
  { unfold strip. cbn [lstrip]. change (isspace 0x23) with false. cbv iota.
    change (0x23 :: t ++ [0x23]) with ((0x23 :: t) ++ [0x23]).
    now apply rstrip_last. }
  rewrite Hq.
  destruct (parse_hash_first (t ++ [0x23])) as (E0 & E1 & E2 & E3 & E4 & E5).
  rewrite E0, E1, E2, E3, E4, E5.
  change (u "#") with [0x23].
  assert (Hend : endswith [0x23] (0x23 :: t ++ [0x23]) = true).
  { unfold endswith. change (0x23 :: t ++ [0x23]) with ((0x23 :: t) ++ [0x23]).
    rewrite rev_unit. reflexivity. }
  rewrite Hend. cbn [startswith]. rewrite N.eqb_refl. cbn [andb].
  now rewrite strip_chars_wrapped.
Qed.

(** X3.  The author-only retry of [identify] puts the cleaned author names
    between two marks; the classifier reads such a query, when it reaches it
    unchanged, as an author search for exactly these names. *)
Theorem author_retry_is_author_search (authors : list str) :
  let author_query := join (u " ") (map normalize_query authors) in
  parse_search_keyword (u "#" ++ author_query ++ u "#")
  = (strip author_query, SEARCH_TYPE_author).
Proof.
  intros author_query. apply parse_search_keyword_wrapped.
  apply no_hash_in_authors.
Qed.

Lemma rstrip_app_keeps s a b c :
  rstrip a = b ++ [c] -> rstrip (s ++ a) = s ++ b ++ [c].
Proof.
  intros H. induction s as [| x r IH]; cbn [app]; [exact H |].
  cbn [rstrip]. rewrite IH. destruct r; cbn [app]; [destruct b |]; reflexivity.
Qed.

(** X4.  When the option that adds the author names to every query is on,
    [search_books] appends them to the marked query of the author-only
    retry as well; unless that text ends with the mark, the classifier
    then finds no author search: the whole text is searched as a title. *)
Theorem author_retry_with_author_option (t author_str b : str) (c : N) :
  rstrip author_str = b ++ [c] -> c <> 0x23 ->
  let query := (u "#" ++ t ++ u "#") ++ u " " ++ author_str in
  parse_search_keyword query = (query, SEARCH_TYPE_book).
Proof.
  intros Hr Hc query. subst query. change (u "#") with [0x23].
  change (u " ") with [0x20].
  set (query := ([0x23] ++ t ++ [0x23]) ++ [0x20] ++ author_str).
  unfold parse_search_keyword.
  assert (Hq : strip query = 0x23 :: (t ++ [0x23; 0x20] ++ b) ++ [c]).
  { unfold strip, query. cbn [app lstrip]. change (isspace 0x23) with false.
    cbv iota.
    replace (0x23 :: (t ++ [0x23]) ++ 0x20 :: author_str)
      with ((0x23 :: t ++ [0x23; 0x20]) ++ author_str)
      by (cbn [app]; now rewrite <- !app_assoc).
    rewrite (rstrip_app_keeps _ _ _ _ Hr). cbn [app].
    now rewrite <- !app_assoc. }
  assert (Hne : query = 0x23 :: (t ++ [0x23]) ++ [0x20] ++ author_str)
    by reflexivity.
  rewrite Hne at 1. rewrite Hq.
  destruct (parse_hash_first ((t ++ [0x23; 0x20] ++ b) ++ [c]))
    as (E0 & E1 & E2 & E3 & E4 & E5).
  rewrite E0, E1, E2, E3, E4, E5.
  assert (Hend : endswith [0x23] (0x23 :: (t ++ [0x23; 0x20] ++ b) ++ [c])
                 = false).
  { unfold endswith.
    change (0x23 :: (t ++ [0x23; 0x20] ++ b) ++ [c])
      with ((0x23 :: t ++ [0x23; 0x20] ++ b) ++ [c]).
    rewrite rev_unit. cbn [rev app startswith].
    replace (0x23 =? c) with false; [reflexivity |].
    symmetry. apply N.eqb_neq. congruence. }
  change (u "#") with [0x23]. rewrite Hend. rewrite !andb_false_r.
  reflexivity.
Qed.

End AuthorRetry.

Lemma author_retry_with_author_option_witness :
  rstrip (u "priest ") = u "pries" ++ [0x74] /\ 0x74 <> 0x23
  /\ parse_search_keyword (U := basic_unicode)
       ((u "#" ++ u "priest" ++ u "#") ++ u " " ++ u "priest ")
     = ((u "#" ++ u "priest" ++ u "#") ++ u " " ++ u "priest ",
        SEARCH_TYPE_book).
Proof.
  split; [reflexivity |]. split; [discriminate |].
  apply (author_retry_with_author_option (U := basic_unicode)
           (u "priest") (u "priest ") (u "pries") 0x74).
  - reflexivity.
  - discriminate.
Defined.

(** ** Computations that make a bounded number of requests *)

(** [m] adds at most [n] events to the trace, all of them HTTP requests,
    and its result satisfies [P] *)
Definition requests {A} (n : nat) (P : A -> Prop) (m : M A) : Prop :=
  forall tr, exists evs,
    snd (m tr) = tr ++ evs /\ Forall is_http evs /\ (length evs <= n)%nat
    /\ P (fst (m tr)).

Lemma requests_ret {A} (P : A -> Prop) n (a : A) : P a -> requests n P (ret a).
Proof.
  intros Ha tr. exists []. cbn. rewrite app_nil_r.
  repeat split; [constructor | lia | exact Ha].
Qed.

Lemma requests_bind {A B} n1 n2 (P : A -> Prop) (Q : B -> Prop)
    (m : M A) (f : A -> M B) :
  requests n1 P m -> (forall a, P a -> requests n2 Q (f a)) ->
  requests (n1 + n2) Q (bind m f).
Proof.
  intros Hm Hf tr. unfold bind.
  destruct (Hm tr) as (e1 & E1 & F1 & L1 & P1).
  destruct (m tr) as [a tr1]. cbn [fst snd] in *. subst tr1.
  destruct (Hf a P1 (tr ++ e1)) as (e2 & E2 & F2 & L2 & Q2).
  exists (e1 ++ e2). rewrite E2, app_assoc. repeat split.
  - apply Forall_app. now split.
  - rewrite length_app. lia.
  - exact Q2.
Qed.

Lemma requests_weaken {A} n n' (P P' : A -> Prop) (m : M A) :
  requests n P m -> (n <= n')%nat -> (forall a, P a -> P' a) ->
  requests n' P' m.
Proof.
  intros Hm Hn HP tr. destruct (Hm tr) as (evs & E & F & L & Pa).
  exists evs. repeat split; [exact E | exact F | lia | now apply HP].
Qed.

Lemma requests_get {W : Network} url :
  requests 1 (fun _ => True) (http_get url).
Proof.
  intros tr. exists [EvHttpGet url]. cbn.
  repeat split; [repeat constructor | lia].
Qed.

(** ** The search stage: how many candidates, and which *)

Section SearchStage.
Context {U : UnicodeData} {R : Runtime} {L : HtmlLibrary} {W : Network}.

Definition is_detail_url (url : str) : Prop :=
  startswith (u "https://www.jjwxc.net/onebook.php?novelid=") url = true.

(** [later] is [earlier] with detail URLs added at its end, and stays
    within the limit of the searcher if [earlier] is *)
Definition extends (self : searcher) (earlier later : list str) : Prop :=
  (exists more, later = earlier ++ more /\ Forall is_detail_url more)
  /\ ((Z.of_nat (length earlier) <= Z.max 0 (max_workers self))%Z ->
      (Z.of_nat (length later) <= Z.max 0 (max_workers self))%Z).

Lemma extends_refl self l : extends self l l.
Proof.
  split; [| tauto]. exists []. split; [now rewrite app_nil_r | constructor].
Qed.

Lemma extends_trans self a b c :
  extends self a b -> extends self b c -> extends self a c.
Proof.
  intros [(m1 & -> & F1) B1] [(m2 & -> & F2) B2]. split; [| tauto].
  exists (m1 ++ m2). split; [now rewrite app_assoc | now apply Forall_app].
Qed.

Lemma collect_urls_extends self books : forall book_urls,
  extends self book_urls (snd (collect_urls self books book_urls)).
Proof.
  induction books as [| book rest IH]; intros book_urls;
    cbn [collect_urls]; [apply extends_refl |].
  destruct book; try apply extends_refl.
  destruct (truthy _ && _) eqn:E; [| apply IH].
  apply andb_true_iff in E. destruct E as [_ E]. apply Z.ltb_lt in E.
  eapply extends_trans; [| apply IH].
  split.
  - eexists. split; [reflexivity |]. constructor; [| constructor].
    unfold is_detail_url, book_detail_web_url. apply startswith_app.
  - intros _. rewrite length_app. cbn [length]. lia.
Qed.

Lemma search_strategy_requests self url book_urls :
  requests 1 (fun res => extends self book_urls (snd res))
    (search_strategy self url book_urls).
Proof.
  unfold search_strategy.
  apply (requests_bind 1 0 (fun _ => True)); [apply requests_get |].
  intros res _.
  repeat first
    [ apply requests_ret; cbn [snd];
      first [apply extends_refl | apply collect_urls_extends]
    | match goal with
      | |- requests _ _ (match ?x with _ => _ end) => destruct x
      | |- requests _ _ (if ?b then _ else _) => destruct b
      end ].
Qed.

Lemma search_via_app_api_requests self query search_type :
  requests 2
    (fun book_urls =>
       Forall is_detail_url book_urls
       /\ (Z.of_nat (length book_urls) <= Z.max 0 (max_workers self))%Z)
    (search_via_app_api self query search_type).
Proof.
  assert (Hfin : forall l, extends self [] l ->
            Forall is_detail_url l
            /\ (Z.of_nat (length l) <= Z.max 0 (max_workers self))%Z).
  { intros l [(more & -> & F) B]. split; [exact F |]. apply B. cbn. lia. }
  unfold search_via_app_api.
  destruct (negb (truthy (sid self))).
  { apply requests_ret. split; [constructor | cbn; lia]. }
  apply (requests_bind 1 1 (fun res => extends self [] (snd res)));
    [apply search_strategy_requests |].
  intros [[|] book_urls] Hfirst; cbn [snd] in Hfirst.
  - apply requests_ret. now apply Hfin.
  - apply (requests_bind 1 0 (fun res => extends self book_urls (snd res)));
      [apply search_strategy_requests |].
    intros second Hsecond. apply requests_ret. apply Hfin.
    now apply (extends_trans _ _ book_urls).
Qed.

(** X5.  A search makes at most two requests and nothing else; what it
    returns are detail-page addresses, and never more of them than the
    configured concurrency size: none at all when that size is zero or
    negative. *)
Theorem search_via_app_api_bounded self query search_type :
  requests 2
    (fun book_urls =>
       Forall is_detail_url book_urls
       /\ (Z.of_nat (length book_urls) <= Z.max 0 (max_workers self))%Z)
    (search_via_app_api self query search_type).
Proof. apply search_via_app_api_requests. Qed.

End SearchStage.

(** ** SchemaTolerantExtractor: what a look-up returns *)

Lemma first_some_Some {A B} (f : A -> option B) l b :
  first_some f l = Some b -> exists x, In x l /\ f x = Some b.
Proof.
  induction l as [| x r IH]; cbn [first_some]; [discriminate |].
  destruct (f x) eqn:E.
  - intros [= <-]. exists x. split; [now left | exact E].
  - intros H. destruct (IH H) as (y & Hy & Ey). exists y.
    split; [now right | exact Ey].
Qed.

Lemma first_some_found {A B} (f : A -> option B) l x b :
  In x l -> f x = Some b -> exists b', first_some f l = Some b'.
Proof.
  induction l as [| y r IH]; [intros [] |].
  intros [-> | Hx] E; cbn [first_some].
  - rewrite E. now exists b.
  - destruct (f y) as [b0 |]; [now exists b0 | now apply IH].
Qed.

Lemma if_truthy_Some v w : if_truthy v = Some w -> w = v /\ truthy w = true.
Proof.
  unfold if_truthy. destruct (truthy v) eqn:E; [| discriminate].
  intros [= <-]. now split.
Qed.

Lemma dict_find_In d k v : dict_find d k = Some v -> In (k, v) d.
Proof.
  induction d as [| [k0 v0] r IH]; cbn [dict_find]; [discriminate |].
  destruct (str_eqb k0 k) eqn:E.
  - apply str_eqb_eq in E. intros [= <-]. subst. now left.
  - intros H. right. now apply IH.
Qed.

Lemma lookup_truthy_Some d k v :
  lookup_truthy d k = Some v -> In (k, v) d /\ truthy v = true.
Proof.
  unfold lookup_truthy. destruct (dict_find d k) as [x |] eqn:E; [| discriminate].
  intros H. apply if_truthy_Some in H. destruct H as [-> T].
  split; [now apply dict_find_In | exact T].
Qed.

Section Extractor.
Context {U : UnicodeData} {R : Runtime}.

Lemma lookup_lowercase_Some d k v :
  lookup_lowercase d k = Some v ->
  exists kk, In (kk, v) d /\ truthy v = true.
Proof.
  unfold lookup_lowercase. destruct (lowmap_find d (str_lower k)) as [kk |];
    [| discriminate].
  intros H. apply if_truthy_Some in H. destruct H as [-> T].
  exists kk. split; [| exact T].
  unfold dict_get in *. destruct (dict_find d kk) eqn:E.
  - now apply dict_find_In.
  - discriminate T.
Qed.

Lemma pick_from_fuel_result n : forall obj keys,
  pick_from_fuel n obj keys = empty_str
  \/ truthy (pick_from_fuel n obj keys) = true.
Proof.
  induction n as [| n IH]; intros obj keys; [now left |].
  cbn [pick_from_fuel].
  destruct (negb (truthy obj) || _); [now left |].
  match goal with
  | |- context [match ?direct with Some _ => _ | None => _ end] =>
      destruct direct as [v |] eqn:D
  end.
  - right. destruct obj; try discriminate D.
    match type of D with
    | match ?x with _ => _ end = _ => destruct x as [w |] eqn:V
    end.
    + injection D as <-. apply first_some_Some in V.
      destruct V as (k & _ & V). apply first_some_Some in V.
      destruct V as (c & _ & V). now apply lookup_truthy_Some in V.
    + apply first_some_Some in D. destruct D as (k & _ & D).
      apply lookup_lowercase_Some in D. now destruct D as (kk & _ & T).
  - match goal with
    | |- context [match ?nested with Some _ => _ | None => _ end] =>
        destruct nested as [v |] eqn:E
    end.
    + right. apply first_some_Some in E. destruct E as (nest & _ & E).
      destruct (get_attr obj nest) as [[| | | | [| x l] | d'] |];
        try discriminate E; now apply if_truthy_Some in E.
    + destruct obj as [| | | | [| x l] |]; try now left. apply IH.
Qed.

Lemma pick_fuel_result n : forall obj keys,
  pick_fuel n obj keys = empty_str \/ truthy (pick_fuel n obj keys) = true.
Proof.
  induction n as [| n IH]; intros obj keys; [now left |].
  cbn [pick_fuel].
  destruct (negb (truthy obj)); [now left |].
  match goal with
  | |- context [match ?direct with Some _ => _ | None => _ end] =>
      destruct direct as [v |] eqn:D
  end.
  - right. destruct obj as [| | | | | d]; try discriminate D.
    apply first_some_Some in D. destruct D as (k & _ & D).
    destruct (lookup_truthy d k) eqn:V.
    + injection D as <-. now apply lookup_truthy_Some in V.
    + apply lookup_lowercase_Some in D. now destruct D as (kk & _ & T).
  - match goal with
    | |- context [match ?nested with Some _ => _ | None => _ end] =>
        destruct nested as [v |] eqn:E
    end.
    + right. apply first_some_Some in E. destruct E as (nest & _ & E).
      destruct obj as [| | | | | d]; try discriminate E.
      destruct (truthy (dict_get d nest)); [| discriminate E].
      now apply if_truthy_Some in E.
    + destruct obj as [| | | | [| x l] |]; try now left. apply IH.
Qed.

(** X6.  Both look-up helpers, [_pick_from] of the detail stage and [pick]
    of the enrichment, return the empty string or a value that counts as
    true: never [None], [False], zero or an empty container. *)
Theorem pick_result_nonempty_or_empty_string obj keys :
  (_pick_from obj keys = empty_str \/ truthy (_pick_from obj keys) = true)
  /\ (pick obj keys = empty_str \/ truthy (pick obj keys) = true).
Proof.
  split; [apply pick_from_fuel_result | apply pick_fuel_result].
Qed.

(** X7.  Of a list, both look-up helpers examine the first element only. *)
Theorem pick_of_list_is_pick_of_head x l keys :
  _pick_from (PList (x :: l)) keys = _pick_from x keys
  /\ pick (PList (x :: l)) keys = pick x keys.
Proof.
  split.
  - destruct keys as [| k ks].
    { unfold _pick_from. cbn [pick_from_fuel]. now rewrite !orb_true_r. }
    unfold _pick_from at 1. cbn [pick_from_fuel truthy negb orb].
    cbn [get_attr first_some detail_nest_keys].
    apply _pick_from_fuel. apply depth_head.
  - unfold pick at 1. cbn [pick_fuel truthy negb first_some other_nest_keys].
    apply pick_fuel_any. apply depth_head.
Qed.

Lemma lowmap_fold_absent d lk acc :
  ~ In lk (map (fun kv => str_lower (fst kv)) d) ->
  fold_left
    (fun found (kv : str * pyval) =>
       if str_eqb (str_lower (fst kv)) lk then Some (fst kv) else found)
    d acc = acc.
Proof.
  revert acc. induction d as [| [k0 v0] r IH]; intros acc H; [reflexivity |].
  cbn [fold_left fst]. cbn [map In fst] in H.
  replace (str_eqb (str_lower k0) lk) with false.
  - apply IH. tauto.
  - symmetry. apply str_eqb_neq. tauto.
Qed.

Lemma lowmap_find_unique d kk v :
  NoDup (map (fun kv => str_lower (fst kv)) d) -> In (kk, v) d ->
  lowmap_find d (str_lower kk) = Some kk.
Proof.
  unfold lowmap_find. generalize (@None str).
  induction d as [| [k0 v0] r IH]; intros acc Hnd Hin; [destruct Hin |].
  cbn [fold_left fst]. cbn [map fst] in Hnd. inversion Hnd as [| ? ? Hno Hr].
  destruct Hin as [[= -> ->] | Hin].
  - rewrite str_eqb_refl. now apply lowmap_fold_absent.
  - now apply IH.
Qed.

Lemma dict_find_unique d kk v :
  NoDup (map (fun kv => str_lower (fst kv)) d) -> In (kk, v) d ->
  dict_find d kk = Some v.
Proof.
  induction d as [| [k0 v0] r IH]; intros Hnd Hin; [destruct Hin |].
  cbn [dict_find]. cbn [map fst] in Hnd. inversion Hnd as [| ? ? Hno Hr].
  destruct Hin as [[= -> ->] | Hin]; [now rewrite str_eqb_refl |].
  destruct (str_eqb k0 kk) eqn:E; [| now apply IH].
  apply str_eqb_eq in E. subst k0. exfalso. apply Hno.
  apply in_map_iff. exists (kk, v). now split.
Qed.

(** X8.  Key matching ignores case: when a dictionary, whose keys differ
    in more than case, holds a non-empty value under a key that is a
    candidate up to case, [_pick_from] returns a non-empty value of that
    dictionary itself. *)
Theorem _pick_from_ignores_case d keys k kk v :
  NoDup (map (fun kv => str_lower (fst kv)) d) ->
  In k keys -> In (kk, v) d -> str_lower kk = str_lower k ->
  truthy v = true ->
  exists kk' v',
    In (kk', v') d /\ truthy v' = true /\ _pick_from (PDict d) keys = v'.
Proof.
  intros Hnd Hk Hin Hlow Hv. unfold _pick_from. cbn [pick_from_fuel].
  destruct d as [| e d']; [destruct Hin |].
  destruct keys as [| k0 ks]; [destruct Hk |].
  cbn [truthy negb orb].
  set (d := e :: d') in *. set (keys := k0 :: ks) in *.
  destruct (first_some (fun k => first_some (lookup_truthy d) (key_variants k))
              keys) as [w |] eqn:V.
  - apply first_some_Some in V. destruct V as (k1 & _ & V).
    apply first_some_Some in V. destruct V as (c & _ & V).
    apply lookup_truthy_Some in V. destruct V as [Hc T].
    now exists c, w.
  - assert (E : lookup_lowercase d k = Some v).
    { unfold lookup_lowercase. rewrite <- Hlow.
      rewrite (lowmap_find_unique d kk v Hnd Hin).
      unfold dict_get. rewrite (dict_find_unique d kk v Hnd Hin).
      unfold if_truthy. now rewrite Hv. }
    destruct (first_some_found (lookup_lowercase d) keys k v Hk E) as [w F].
    rewrite F. apply first_some_Some in F. destruct F as (k1 & _ & F).
    apply lookup_lowercase_Some in F. destruct F as (kk' & Hkk' & T).
    now exists kk', w.
Qed.

End Extractor.

Lemma _pick_from_ignores_case_witness :
  exists kk' v',
    In (kk', v') [(u "NovelName", PStr (u "X"))] /\ truthy v' = true
    /\ _pick_from (U := basic_unicode) (R := basic_runtime)
         (PDict [(u "NovelName", PStr (u "X"))]) [u "bookname"; u "novelName"]
       = v'.
Proof.
  apply (_pick_from_ignores_case (U := basic_unicode) (R := basic_runtime)
           [(u "NovelName", PStr (u "X"))] [u "bookname"; u "novelName"]
           (u "novelName") (u "NovelName") (PStr (u "X"))).
  - vm_compute. repeat constructor. intros [].
  - right. now left.
  - now left.
  - reflexivity.
  - reflexivity.
Defined.

(** ** The detail stage: what is accepted, and at what cost *)

Section DetailStage.
Context {U : UnicodeData} {R : Runtime} {L : HtmlLibrary} {W : Network}.

(** a record of the book [novelid] that has a title and authors *)
Definition accepted_record (novelid : str) (book : pydict) : Prop :=
  dict_get book (u "id") = PStr novelid
  /\ dict_get book (u "url") = PStr (book_detail_web_url (PStr novelid))
  /\ (exists title, title <> [] /\ dict_get book (u "title") = PStr title)
  /\ (exists a authors,
        dict_get book (u "authors") = PList (map PStr (a :: authors))).

Lemma fetch_and_merge_requests novelid book base_data :
  requests 1
    (fun b => forall k, is_enriched_field k = false ->
                        dict_get b k = dict_get book k)
    (fetch_and_merge_other_info novelid book base_data).
Proof.
  intros tr.
  pose proof (fetch_and_merge_get novelid book base_data tr) as G.
  unfold fetch_and_merge_other_info in *.
  destruct novelid as [| c n].
  - exists []. cbn. rewrite app_nil_r. repeat split; [constructor | lia].
  - unfold bind in *.
    destruct (other_info_body_cases (c :: n) book base_data tr)
      as (o & b & E & _).
    rewrite E in *. cbn [ret fst snd] in *.
    exists [EvHttpGet (other_info_url (c :: n))].
    repeat split; [repeat constructor | cbn; lia | exact G].
Qed.

Lemma process_detail_payload_requests data novelid :
  requests 1
    (fun res => forall book, res = Some book -> accepted_record novelid book)
    (process_detail_payload data novelid).
Proof.
  unfold process_detail_payload.
  destruct (truthy data); [| apply requests_ret; discriminate].
  destruct (truthy (unwrap_detail data novelid));
    [| apply requests_ret; discriminate].
  set (app_data := unwrap_detail data novelid).
  apply (requests_bind 1 0
           (fun b => forall k, is_enriched_field k = false ->
                       dict_get b k = dict_get (base_book app_data novelid) k));
    [apply fetch_and_merge_requests |].
  intros parsed Hget.
  destruct (truthy (dict_get parsed (u "title"))
            && truthy (dict_get parsed (u "authors"))) eqn:T;
    [| apply requests_ret; discriminate].
  apply requests_ret. intros book [= <-].
  apply andb_true_iff in T. destruct T as [Tt Ta].
  rewrite (Hget (u "title") eq_refl) in Tt.
  rewrite (Hget (u "authors") eq_refl) in Ta.
  unfold accepted_record.
  rewrite (Hget (u "id") eq_refl), (Hget (u "url") eq_refl),
    (Hget (u "title") eq_refl), (Hget (u "authors") eq_refl).
  change (dict_get (base_book app_data novelid) (u "title"))
    with (PStr (book_title app_data)) in *.
  change (dict_get (base_book app_data novelid) (u "authors"))
    with (PList (map PStr (book_authors app_data))) in *.
  change (dict_get (base_book app_data novelid) (u "id"))
    with (PStr novelid).
  change (dict_get (base_book app_data novelid) (u "url"))
    with (PStr (book_detail_web_url (PStr novelid))).
  split; [reflexivity |]. split; [reflexivity |]. split.
  - exists (book_title app_data). split; [| reflexivity].
    intros E. rewrite E in Tt. discriminate Tt.
  - destruct (book_authors app_data) as [| a l]; [discriminate Ta |].
    exists a, l. reflexivity.
Qed.

Lemma try_detail_urls_requests novelid urls :
  requests (2 * length urls)
    (fun res => forall book, res = Some book -> accepted_record novelid book)
    (try_detail_urls novelid urls).
Proof.
  induction urls as [| url rest IH]; cbn [try_detail_urls].
  { apply requests_ret. discriminate. }
  replace (2 * length (url :: rest))%nat
    with (1 + (1 + 2 * length rest))%nat by (cbn [length]; lia).
  apply (requests_bind 1 _ (fun _ => True)); [apply requests_get |].
  intros res _.
  assert (IH' : requests (1 + 2 * length rest)
                  (fun res => forall book, res = Some book ->
                                accepted_record novelid book)
                  (try_detail_urls novelid rest)).
  { eapply requests_weaken; [exact IH | lia | auto]. }
  destruct res as [r |]; [| exact IH'].
  destruct (negb (status_ok r)); [exact IH' |].
  destruct (content r) as [text |]; [| exact IH'].
  eapply requests_bind; [apply process_detail_payload_requests |].
  intros [book |] Hb; [| exact IH]. apply requests_ret.
  intros b [= <-]. now apply Hb.
Qed.

Lemma load_book_via_app_api_requests self novelid :
  requests 24
    (fun res => forall book, res = Some book -> accepted_record novelid book)
    (load_book_via_app_api self novelid).
Proof.
  unfold load_book_via_app_api.
  eapply requests_weaken; [apply try_detail_urls_requests | | auto].
  cbn. lia.
Qed.

(** X9.  The structured detail fetch tries at most twelve addresses, each
    followed by at most one enrichment request.  A record it returns
    carries the id that was asked for and the page address built from it,
    whatever the payload says, and has a non-empty title and at least one
    author. *)
Theorem load_book_via_app_api_accepts self novelid :
  requests 24
    (fun res => forall book, res = Some book -> accepted_record novelid book)
    (load_book_via_app_api self novelid).
Proof. apply load_book_via_app_api_requests. Qed.

Lemma load_book_via_web_requests url :
  requests 1
    (fun res => forall book, res = Some book ->
       exists title, title <> [] /\ dict_get book (u "title") = PStr title)
    (load_book_via_web url).
Proof.
  unfold load_book_via_web.
  apply (requests_bind 1 0 (fun _ => True)); [apply requests_get |].
  intros [r |] _; [| apply requests_ret; discriminate].
  destruct (status_ok r); [| apply requests_ret; discriminate].
  destruct (content r) as [text |]; [| apply requests_ret; discriminate].
  unfold parse_book.
  destruct (etree_HTML text) as [html |]; [| apply requests_ret; discriminate].
  apply requests_ret. intros book E.
  now apply (parse_document_title url html).
Qed.

(** X10.  [load_book] makes no request when the address carries no book
    id, exactly its one page request when the structured fetch is switched
    off or there is no session id, and at most twenty-five requests
    otherwise; every record it returns has a non-empty title. *)
Theorem load_book_contract self url tr :
  exists evs,
    snd (load_book self url tr) = tr ++ EvLoadBook url :: evs
    /\ Forall is_http evs
    /\ (length evs <= 25)%nat
    /\ ((extract_novelid url = None \/ extract_novelid url = Some []) ->
        evs = [] /\ fst (load_book self url tr) = None)
    /\ (jinjiang_prefer_app_api self && truthy (sid self) = false ->
        extract_novelid url <> None -> extract_novelid url <> Some [] ->
        evs = [EvHttpGet url])
    /\ (forall book, fst (load_book self url tr) = Some book ->
          exists title, title <> [] /\ dict_get book (u "title") = PStr title).
Proof.
  unfold load_book, bind, emit.
  pose proof (load_book_via_web_requests url (tr ++ [EvLoadBook url])) as Hweb.
  assert (Hweb1 : snd (load_book_via_web url (tr ++ [EvLoadBook url]))
                  = (tr ++ [EvLoadBook url]) ++ [EvHttpGet url]).
  { unfold load_book_via_web, bind, http_get.
    destruct (urlopen _ url) as [r |]; [| reflexivity].
    destruct (status_ok r); [| reflexivity].
    destruct (content r); [| reflexivity].
    now destruct (parse_book url s). }
  destruct (extract_novelid url) as [[| c n] |] eqn:Ex.
  1, 3: exists []; cbn [ret fst snd length];
        repeat split; try constructor; try lia; try discriminate;
        intros _ H1 H2; first [now elim H1 | now elim H2].
  destruct (jinjiang_prefer_app_api self && truthy (sid self)) eqn:Pref.
  - pose proof (load_book_via_app_api_requests self (c :: n)
                  (tr ++ [EvLoadBook url])) as Happ.
    destruct Happ as (e1 & E1 & F1 & L1 & P1).
    destruct (load_book_via_app_api self (c :: n) (tr ++ [EvLoadBook url]))
      as [book tr1].
    cbn [fst snd] in *. subst tr1.
    destruct book as [[| kv b] |].
    2: { exists e1. cbn [ret fst snd]. rewrite <- app_assoc.
         split; [reflexivity |]. split; [exact F1 |]. split; [lia |].
         split; [intros [H | H]; discriminate H |].
         split; [discriminate |].
         intros book [= <-].
         destruct (P1 _ eq_refl) as (_ & _ & Ht & _). exact Ht. }
    all: destruct (load_book_via_web_requests url
                     ((tr ++ [EvLoadBook url]) ++ e1))
           as (e2 & E2 & F2 & L2 & P2);
         exists (e1 ++ e2);
         (split; [rewrite E2; now rewrite <- !app_assoc |]);
         (split; [apply Forall_app; now split |]);
         (split; [rewrite length_app; lia |]);
         (split; [intros [H | H]; discriminate H |]);
         (split; [discriminate | exact P2]).
  - destruct Hweb as (e2 & E2 & F2 & L2 & P2).
    exists [EvHttpGet url]. rewrite Hweb1, <- app_assoc.
    split; [reflexivity |]. split; [repeat constructor |].
    split; [cbn; lia |].
    split; [intros [H | H]; discriminate H |].
    split; [reflexivity | exact P2].
Qed.

End DetailStage.

(** ** Enrichment: the tags and the descriptions *)

(** a value that can be a member of a [set] and counts as true *)
Definition taggable (t : pyval) : Prop :=
  truthy t = true /\ is_container t = false.

Lemma py_eq_refl_taggable t : taggable t -> py_eq t t = true.
Proof.
  intros [T C]. destruct t as [| b | z | s | l | d]; try discriminate.
  - now destruct b.
  - cbn. apply Z.eqb_refl.
  - cbn. apply str_eqb_refl.
Qed.

Lemma dedupe_from_spec l : forall seen,
  match dedupe_from seen l with
  | Some uniq =>
      Forall (fun t => taggable t /\ In t l
                       /\ existsb (py_eq t) seen = false) uniq
      /\ ForallOrdPairs (fun a b => py_eq b a = false) uniq
      /\ (forall t, In t l -> truthy t = true ->
            exists s, (In s seen \/ In s uniq) /\ py_eq t s = true)
  | None => exists t, In t l /\ truthy t = true /\ is_container t = true
  end.
Proof.
  induction l as [| t r IH]; intros seen; cbn [dedupe_from].
  { split; [constructor |]. split; [constructor |]. intros t []. }
  destruct (truthy t) eqn:T.
  2: { specialize (IH seen). destruct (dedupe_from seen r) as [uniq |].
       - destruct IH as (F & D & C). split; [| split; [exact D |]].
         + eapply Forall_impl; [| exact F]. cbn. intros a (Ha & Hin & Hs).
           split; [exact Ha |]. split; [now right | exact Hs].
         + intros x [<- | Hx] Tx; [congruence | now apply C].
       - destruct IH as (x & Hx & Tx & Cx). exists x.
         repeat split; try assumption. now right. }
  destruct (is_container t) eqn:Ct.
  { exists t. repeat split; try assumption. now left. }
  destruct (existsb (py_eq t) seen) eqn:S.
  - specialize (IH seen). destruct (dedupe_from seen r) as [uniq |].
    + destruct IH as (F & D & C). split; [| split; [exact D |]].
      * eapply Forall_impl; [| exact F]. cbn. intros a (Ha & Hin & Hs).
        split; [exact Ha |]. split; [now right | exact Hs].
      * intros x [<- | Hx] Tx; [| now apply C].
        apply existsb_exists in S. destruct S as (s & Hs & E).
        exists s. split; [now left | exact E].
    + destruct IH as (x & Hx & Tx & Cx). exists x.
      repeat split; try assumption. now right.
  - specialize (IH (t :: seen)).
    destruct (dedupe_from (t :: seen) r) as [uniq |]; cbn [option_map].
    + destruct IH as (F & D & C). split; [| split].
      * constructor.
        -- split; [now split |]. split; [now left | exact S].
        -- eapply Forall_impl; [| exact F]. cbn [existsb].
           intros a (Ha & Hin & E). apply orb_false_iff in E.
           split; [exact Ha |]. split; [now right | tauto].
      * constructor; [| exact D].
        eapply Forall_impl; [| exact F]. cbn [existsb].
        intros a (? & ? & E). apply orb_false_iff in E. tauto.
      * intros x [<- | Hx] Tx.
        -- exists t. split; [right; now left |].
           apply py_eq_refl_taggable. now split.
        -- destruct (C x Hx Tx) as (s & [[Hs | Hs] | Hs] & E).
           ++ exists s. split; [right; now left | exact E].
           ++ exists s. split; [now left | exact E].
           ++ exists s. split; [right; now right | exact E].
    + destruct IH as (x & Hx & Tx & Cx). exists x.
      repeat split; try assumption. now right.
Qed.

(** X11.  The loop that removes repeated tags fails exactly on a list that
    holds a non-empty list or dictionary.  Otherwise its result holds
    non-empty members of the list only, none of them equal to an earlier
    one, and every non-empty member of the list is equal to one of them. *)
Theorem dedupe_spec l :
  match dedupe l with
  | Some uniq =>
      Forall (fun t => taggable t /\ In t l) uniq
      /\ ForallOrdPairs (fun a b => py_eq b a = false) uniq
      /\ (forall t, In t l -> truthy t = true ->
            exists s, In s uniq /\ py_eq t s = true)
  | None => exists t, In t l /\ truthy t = true /\ is_container t = true
  end.
Proof.
  unfold dedupe. pose proof (dedupe_from_spec l []) as H.
  destruct (dedupe_from [] l) as [uniq |]; [| exact H].
  destruct H as (F & D & C). split; [| split; [exact D |]].
  - eapply Forall_impl; [| exact F]. cbn. tauto.
  - intros t Ht Tt. destruct (C t Ht Tt) as (s & [[] | Hs] & E). now exists s.
Qed.

Section Merging.
Context {U : UnicodeData} {R : Runtime} {L : HtmlLibrary} {W : Network}.

(** X12.  Merging a genre into the tags leaves a list of tags that starts
    with the genre, whatever the tags were and also when the merge fails and
    its handler takes over. *)
Theorem merge_novel_class_first novel_class book :
  truthy novel_class = true ->
  exists rest,
    dict_get (merge_novel_class novel_class book) (u "tags")
    = PList (novel_class :: rest).
Proof.
  intros T. unfold merge_novel_class. rewrite T.
  unfold tags_with_class, dedupe. cbn [dedupe_from]. rewrite T.
  destruct (is_container novel_class).
  - exists []. apply dict_get_set_same.
  - cbn [existsb].
    destruct (dedupe_from [novel_class] _) as [uniq |]; cbn [option_map].
    + exists uniq. apply dict_get_set_same.
    + exists []. apply dict_get_set_same.
Qed.

Lemma enrichment_lines_nonempty other base_data book :
  snd (enrichment_block other base_data book) <> [].
Proof.
  pose proof (signed_line_rendered other base_data book) as Hin.
  intros E. rewrite E in Hin. destruct Hin.
Qed.

Lemma merge_other_info_descriptions other base_data book d h :
  dict_get book (u "description") = PStr d ->
  dict_get book (u "description_html") = PStr h ->
  exists rd rh,
    dict_get (merge_other_info other base_data book) (u "description")
    = PStr (d ++ rd)
    /\ dict_get (merge_other_info other base_data book) (u "description_html")
       = PStr (h ++ rh)
    /\ rd <> [].
Proof.
  intros Hd Hh.
  pose proof (enrichment_lines_nonempty other base_data book) as Hne.
  pose proof (enrichment_block_get other base_data book (u "description")) as Gd.
  pose proof (enrichment_block_get other base_data book (u "description_html"))
    as Gh.
  pose proof (signed_line_rendered other base_data book) as Hin.
  unfold merge_other_info.
  destruct (enrichment_block other base_data book) as [b lines].
  cbn [fst snd] in *.
  rewrite Hd in Gd. rewrite Hh in Gh.
  specialize (Gd ltac:(discriminate) ltac:(discriminate)).
  specialize (Gh ltac:(discriminate) ltac:(discriminate)).
  unfold add_to_descriptions. destruct lines as [| l ls]; [contradiction |].
  cbv zeta. rewrite dict_get_set_same.
  rewrite (dict_get_set_other _ (u "description") _ (u "description_html"))
    by discriminate.
  rewrite dict_get_set_same.
  rewrite (dict_get_set_other _ (u "description_html") _ (u "description"))
    by discriminate.
  rewrite Gd, Gh.
  set (text := join newline (l :: ls)).
  assert (Htext : text <> []).
  { subst text. intros E.
    assert (Hall : forall x, In x (l :: ls) -> x = []).
    { clear -E. revert E. generalize (l :: ls).
      induction l0 as [| a r IH]; [intros _ x [] |].
      destruct r as [| a' r'].
      - cbn. intros -> x [<- | []]. reflexivity.
      - rewrite join_cons2. intros E x Hx.
        apply app_eq_nil in E. destruct E as [-> E].
        apply app_eq_nil in E. destruct E as [E _]. discriminate E. }
    apply Hall in Hin. apply app_eq_nil in Hin. destruct Hin as [Hin _].
    discriminate Hin. }
  destruct d as [| c d'], h as [| c2 h']; cbn [por truthy];
    change (py_str (PStr ?s)) with s;
    eexists; eexists;
    (split; [cbn [app]; reflexivity |]);
    (split; [cbn [app]; reflexivity |]);
    try discriminate; exact Htext.
Qed.

(** X13.  Enrichment adds to the two descriptions and never replaces
    them: in the record that [parse_app_book_data] returns, each of them
    starts with the text built from the base payload. *)
Theorem descriptions_only_grow app_data novelid tr :
  exists rd rh,
    dict_get (fst (parse_app_book_data app_data novelid tr)) (u "description")
    = PStr (book_description app_data ++ rd)
    /\ dict_get (fst (parse_app_book_data app_data novelid tr))
         (u "description_html")
       = PStr (book_description_html app_data ++ rh).
Proof.
  unfold parse_app_book_data, fetch_and_merge_other_info.
  set (book := base_book app_data novelid).
  assert (Hd : dict_get book (u "description")
               = PStr (book_description app_data)) by reflexivity.
  assert (Hh : dict_get book (u "description_html")
               = PStr (book_description_html app_data)) by reflexivity.
  assert (Hsame : exists rd rh,
            dict_get book (u "description")
            = PStr (book_description app_data ++ rd)
            /\ dict_get book (u "description_html")
               = PStr (book_description_html app_data ++ rh)).
  { exists [], []. now rewrite !app_nil_r. }
  destruct novelid as [| c n]; [exact Hsame |].
  unfold bind.
  destruct (other_info_body_cases (c :: n) book app_data tr)
    as (o & b & E & [[_ ->] | [_ (other & _ & ->)]]);
    rewrite E; cbn [fst snd ret]; [exact Hsame |].
  destruct (merge_other_info_descriptions other app_data book _ _ Hd Hh)
    as (rd & rh & E1 & E2 & _).
  now exists rd, rh.
Qed.

End Merging.

Lemma merge_novel_class_first_witness :
  exists rest,
    dict_get
      (merge_novel_class (R := basic_runtime)
         (PStr (u "言情")) [(u "tags", PList [PStr (u "甜文"); PStr (u "言情")])])
      (u "tags")
    = PList (PStr (u "言情") :: rest).
Proof.
  apply (merge_novel_class_first (R := basic_runtime)
           (PStr (u "言情"))
           [(u "tags", PList [PStr (u "甜文"); PStr (u "言情")])]).
  reflexivity.
Defined.

(** ** Literals and searches of the patterns *)

Lemma re_lit_app {A} a b (k : str -> option A) s :
  re_lit (a ++ b) k s = re_lit a (re_lit b k) s.
Proof.
  revert s. induction a as [| p a IH]; intros s; [reflexivity |].
  cbn [app re_lit]. destruct s as [| x r]; [reflexivity |].
  destruct (x =? p); [apply IH | reflexivity].
Qed.

Lemma re_lit_here {A} a (k : str -> option A) s : re_lit a k (a ++ s) = k s.
Proof.
  induction a as [| p a IH]; [reflexivity |].
  cbn [app re_lit]. now rewrite N.eqb_refl.
Qed.

Lemma re_lit_Some {A} a (k : str -> option A) s r :
  re_lit a k s = Some r -> exists t, s = a ++ t /\ k t = Some r.
Proof.
  revert s. induction a as [| p a IH]; intros s; cbn [re_lit].
  - intros E. now exists s.
  - destruct s as [| x s']; [discriminate |].
    destruct (x =? p) eqn:E; [| discriminate].
    apply N.eqb_eq in E. subst x. intros H.
    destruct (IH _ H) as (t & -> & Ht). now exists t.
Qed.

Lemma re_search_here {A} (m : str -> option A) s a :
  m s = Some a -> re_search m s = Some a.
Proof. intros E. destruct s; cbn [re_search]; now rewrite E. Qed.

Lemma re_search_skip {A} (m : str -> option A) x r :
  m (x :: r) = None -> re_search m (x :: r) = re_search m r.
Proof. intros E. cbn [re_search]. now rewrite E. Qed.

Lemma re_search_Some {A} (m : str -> option A) s a :
  re_search m s = Some a -> exists pre t, s = pre ++ t /\ m t = Some a.
Proof.
  induction s as [| x r IH]; cbn [re_search].
  - destruct (m []) eqn:E; [| discriminate].
    intros [= <-]. now exists [], [].
  - destruct (m (x :: r)) eqn:E.
    + intros [= <-]. now exists [], (x :: r).
    + intros H. destruct (IH H) as (pre & t & -> & Ht).
      now exists (x :: pre), t.
Qed.

Lemma re_search_match {A} (m : str -> option A) pre t a :
  m t = Some a -> exists b, re_search m (pre ++ t) = Some b.
Proof.
  intros E. induction pre as [| x r IH]; cbn [app].
  - exists a. now apply re_search_here.
  - cbn [re_search]. destruct (m (x :: r ++ t)) as [b |]; [now exists b |].
    exact IH.
Qed.

(** nothing matches at the positions of [pre] *)
Lemma re_search_after {A} (m : str -> option A) pre s :
  (forall t1 t2, pre = t1 ++ t2 -> t2 <> [] -> m (t2 ++ s) = None) ->
  re_search m (pre ++ s) = re_search m s.
Proof.
  induction pre as [| x r IH]; intros H; [reflexivity |].
  cbn [app]. rewrite re_search_skip.
  - apply IH. intros t1 t2 E. apply (H (x :: t1) t2). cbn. now rewrite E.
  - apply (H [] (x :: r)); [reflexivity | discriminate].
Qed.

(** a greedy group takes a run of its class that ends with the text or
    before a character outside the class *)
Lemma re_star_run {A} (p : N -> bool) (k : str -> str -> option A) v :
  forall matched rest,
  forallb p v = true ->
  match rest with [] => True | x :: _ => p x = false end ->
  (forall g r, k g r <> None) ->
  re_star p k matched (v ++ rest) = k (matched ++ v) rest.
Proof.
  induction v as [| x v IH]; intros matched rest Hv Hr Hk; cbn [app].
  - rewrite app_nil_r. destruct rest as [| y r]; [reflexivity |].
    cbn [re_star]. now rewrite Hr.
  - cbn [forallb] in Hv. apply andb_true_iff in Hv. destruct Hv as [Hx Hv].
    cbn [re_star]. rewrite Hx, (IH _ _ Hv Hr Hk), <- app_assoc. cbn [app].
    destruct (k (matched ++ x :: v) rest) eqn:E; [reflexivity |].
    now apply Hk in E.
Qed.

Lemma re_plus_run (p : N -> bool) v rest :
  v <> [] -> forallb p v = true ->
  match rest with [] => True | x :: _ => p x = false end ->
  re_plus p (fun g _ => Some g) (v ++ rest) = Some v.
Proof.
  intros Hne Hv Hr. destruct v as [| x v]; [contradiction |].
  cbn [forallb] in Hv. apply andb_true_iff in Hv. destruct Hv as [Hx Hv].
  unfold re_plus. cbn [app]. rewrite Hx.
  now rewrite re_star_run by (try assumption; discriminate).
Qed.

Lemma re_star_class (p : N -> bool) r : forall m (g : str),
  re_star p (fun g _ => Some g) m r = Some g ->
  exists t, g = m ++ t /\ forallb p t = true.
Proof.
  induction r as [| x r IH]; intros m g; cbn [re_star].
  - intros [= <-]. exists []. now rewrite app_nil_r.
  - destruct (p x) eqn:Px.
    + destruct (re_star p (fun g _ => Some g) (m ++ [x]) r) as [g' |] eqn:E.
      * intros [= <-]. destruct (IH _ _ E) as (t & -> & Ht).
        exists (x :: t). rewrite <- app_assoc. cbn [forallb].
        now rewrite Px, Ht.
      * intros [= <-]. exists []. now rewrite app_nil_r.
    + intros [= <-]. exists []. now rewrite app_nil_r.
Qed.

Lemma re_plus_class (p : N -> bool) s g :
  re_plus p (fun g _ => Some g) s = Some g ->
  g <> [] /\ forallb p g = true.
Proof.
  unfold re_plus. destruct s as [| x r]; [discriminate |].
  destruct (p x) eqn:Px; [| discriminate].
  intros E. apply re_star_class in E.
  destruct E as (t & -> & Ht). split; [discriminate |].
  cbn [app forallb]. now rewrite Px, Ht.
Qed.

(** ** The session id of the cookie *)

Section SessionId.
Context {U : UnicodeData} {R : Runtime}.

(** X14.  The third strategy of [extract_sid_from_cookie] is never
    reached with a match: the text it looks for ends with the text of the
    second strategy, so a cookie the second pattern does not match is not
    matched by the third either. *)
Theorem bbstoken_strategy_subsumed (c : str) :
  search_field (u "token=") c = None ->
  search_field (u "bbstoken=") c = None.
Proof.
  unfold search_field. intros Htok.
  destruct (re_search (re_lit (u "bbstoken=") _) c) as [g |] eqn:E;
    [| reflexivity].
  exfalso. apply re_search_Some in E. destruct E as (pre & t & -> & E).
  replace (u "bbstoken=") with (u "bbs" ++ u "token=") in E
    by (vm_compute; reflexivity).
  rewrite re_lit_app in E. apply re_lit_Some in E.
  destruct E as (t' & -> & E).
  destruct (re_search_match _ (pre ++ u "bbs") t' g E) as [b Hb].
  rewrite <- app_assoc in Hb. congruence.
Qed.

Lemma sid_literal_first (k : str -> option str) pre s :
  (forall a b, pre <> a ++ u "sid=" ++ b) ->
  re_search (re_lit (u "sid=") k) (pre ++ u "sid=" ++ s)
  = re_search (re_lit (u "sid=") k) (u "sid=" ++ s).
Proof.
  intros Hno. apply re_search_after. intros t1 t2 -> Hne.
  replace (u "sid=") with [0x73; 0x69; 0x64; 0x3D] in *
    by (vm_compute; reflexivity).
  destruct t2 as [| a [| b [| c [| d t]]]]; [contradiction | | | |];
    cbn [app re_lit].
  - destruct (a =? 0x73); reflexivity.
  - destruct (a =? 0x73); [| reflexivity]. destruct (b =? 0x69); reflexivity.
  - destruct (a =? 0x73); [| reflexivity].
    destruct (b =? 0x69); [| reflexivity]. destruct (c =? 0x64); reflexivity.
  - destruct (a =? 0x73) eqn:Ea; [| reflexivity].
    destruct (b =? 0x69) eqn:Eb; [| reflexivity].
    destruct (c =? 0x64) eqn:Ec; [| reflexivity].
    destruct (d =? 0x3D) eqn:Ed; [| reflexivity].
    apply N.eqb_eq in Ea, Eb, Ec, Ed. subst. exfalso.
    apply (Hno t1 t). reflexivity.
Qed.

(** X15.  The session id is the value that follows the first [sid=] of
    the cookie, up to the next semicolon or white space, whatever else the
    cookie holds; it is not decoded. *)
Theorem sid_is_first_sid_field (pre v rest : str) :
  (forall a b, pre <> a ++ u "sid=" ++ b) ->
  v <> [] -> forallb not_semicolon_space v = true ->
  match rest with [] => True | x :: _ => not_semicolon_space x = false end ->
  extract_sid_from_cookie (Some (pre ++ u "sid=" ++ v ++ rest)) = PStr v.
Proof.
  intros Hno Hne Hv Hr. unfold extract_sid_from_cookie.
  assert (E : search_field (u "sid=") (pre ++ u "sid=" ++ v ++ rest) = Some v).
  { unfold search_field. rewrite sid_literal_first by exact Hno.
    apply re_search_here. rewrite re_lit_here. now apply re_plus_run. }
  rewrite E.
  destruct (pre ++ u "sid=" ++ v ++ rest) eqn:Ec; [| reflexivity].
  apply app_eq_nil in Ec. destruct Ec as [_ Ec]. discriminate Ec.
Qed.

End SessionId.

Lemma bbstoken_strategy_subsumed_witness :
  search_field (u "token=") (u "JJEVER=1; x=2") = None
  /\ search_field (u "bbstoken=") (u "JJEVER=1; x=2") = None.
Proof.
  split; [reflexivity |].
  apply (bbstoken_strategy_subsumed (u "JJEVER=1; x=2")). reflexivity.
Defined.

Lemma sid_is_first_sid_field_witness :
  extract_sid_from_cookie (U := basic_unicode) (R := basic_runtime)
    (Some (u "testcookie=yes; " ++ u "sid=" ++ u "12345_abcdef"
           ++ u "; token=zzz"))
  = PStr (u "12345_abcdef").
Proof.
  apply (sid_is_first_sid_field (U := basic_unicode) (R := basic_runtime)
           (u "testcookie=yes; ") (u "12345_abcdef") (u "; token=zzz")).
  - intros a b E.
    assert (H : In 0x64 (a ++ u "sid=" ++ b)).
    { apply in_or_app. right. apply in_or_app. left.
      right. right. now left. }
    rewrite <- E in H. vm_compute in H.
    repeat (destruct H as [H | H]; [discriminate H |]). exact H.
  - discriminate.
  - reflexivity.
  - reflexivity.
Defined.

(** ** The page address and the HTML parser *)

Section PageAddress.
Context {U : UnicodeData} {R : Runtime} {L : HtmlLibrary}.

(** X16.  The HTML parser finds in a page address built by
    [build_book_detail_url] the id it was built from, when that id is a
    non-empty run of decimal digits. *)
Theorem search_novelid_of_built_url (novelid : str) :
  novelid <> [] -> forallb is_decimal novelid = true ->
  search_novelid (build_book_detail_url novelid) = Some novelid.
Proof.
  intros Hne Hd.
  unfold build_book_detail_url, book_detail_web_url, search_novelid.
  change (py_str (PStr novelid)) with novelid.
  replace (u "https://www.jjwxc.net/onebook.php?novelid=")
    with ([104; 116; 116; 112; 115; 58; 47; 47; 119; 119; 119; 46; 106; 106;
           119; 120; 99; 46; 110; 101; 116; 47; 111; 110; 101; 98; 111; 111;
           107; 46; 112; 104; 112; 63] ++ [110; 111; 118; 101; 108; 105; 100; 61])
    by (vm_compute; reflexivity).
  replace (u "novelid=") with [110; 111; 118; 101; 108; 105; 100; 61]
    by (vm_compute; reflexivity).
  rewrite <- app_assoc. cbn [app].
  repeat (rewrite re_search_skip by reflexivity).
  apply re_search_here.
  rewrite (re_lit_here [110; 111; 118; 101; 108; 105; 100; 61] _ novelid).
  rewrite <- (app_nil_r novelid) at 1.
  now apply re_plus_run.
Qed.

(** X17.  A record of the HTML parser carries the address it was given,
    an id that is a non-empty run of decimal digits found in that address,
    and at most one author: the first author element that has text. *)
Theorem parse_document_record url html book :
  parse_document url html = Some book ->
  dict_get book (u "url") = PStr url
  /\ (exists id,
        dict_get book (u "id") = PStr id /\ search_novelid url = Some id
        /\ id <> [] /\ forallb is_decimal id = true)
  /\ (dict_get book (u "authors") = PList []
      \/ exists doc,
           html = Some doc
           /\ dict_get book (u "authors")
              = PList [PStr (strip (get_text (select doc XAuthor)))]).
Proof.
  unfold parse_document.
  destruct html as [doc |]; [| discriminate].
  destruct (has_children doc); [| discriminate]. cbn [negb].
  destruct (search_novelid url) as [[| c id] |] eqn:Eid; try discriminate.
  destruct (strip (get_text (select doc XTitle))) as [| t title];
    [discriminate |].
  intros [= <-].
  split; [reflexivity |]. split.
  - exists (c :: id). split; [reflexivity |]. split; [reflexivity |].
    unfold search_novelid in Eid. apply re_search_Some in Eid.
    destruct Eid as (pre & s & _ & E). apply re_lit_Some in E.
    destruct E as (s' & _ & E). now apply re_plus_class in E.
  - destruct (select doc XAuthor) as [| e es] eqn:Ea; [now left |].
    right. exists doc. split; [reflexivity |]. rewrite Ea. reflexivity.
Qed.

End PageAddress.

Lemma search_novelid_of_built_url_witness :
  search_novelid (U := basic_unicode)
    (build_book_detail_url (R := basic_runtime) (u "3200611"))
  = Some (u "3200611").
Proof.
  apply (search_novelid_of_built_url (U := basic_unicode)
           (R := basic_runtime) (u "3200611")).
  - discriminate.
  - reflexivity.
Defined.

Definition example_page : html_doc :=
  {| has_children := true;
     select := fun q =>
       match q with
       | XTitle =>
           [ {| text_nodes := [u " 天官赐福 "]; attr_src := None; tail := None;
                next_sibling := None |} ]
       | XAuthor =>
           [ {| text_nodes := []; attr_src := None; tail := None;
                next_sibling := None |};
             {| text_nodes := [u "墨香铜臭"]; attr_src := None; tail := None;
                next_sibling := None |};
             {| text_nodes := [u "another"]; attr_src := None; tail := None;
                next_sibling := None |} ]
       | _ => []
       end |}.

Lemma parse_document_record_witness :
  exists book,
    parse_document (U := basic_unicode)
      (u "https://www.jjwxc.net/onebook.php?novelid=3200611")
      (Some example_page) = Some book
    /\ dict_get book (u "authors") = PList [PStr (u "墨香铜臭")]
    /\ dict_get book (u "url")
       = PStr (u "https://www.jjwxc.net/onebook.php?novelid=3200611").
Proof.
  eexists. split; [vm_compute; reflexivity |]. split; [reflexivity |].
  apply (parse_document_record (U := basic_unicode)
           (u "https://www.jjwxc.net/onebook.php?novelid=3200611")
           (Some example_page)).
  vm_compute. reflexivity.
Defined.

(** ** The author marks and the cleaned title *)

Section TitleMarks.
Context {U : UnicodeData}.

Lemma normalize_query_no_hash s : ~ In 0x23 (normalize_query s).
Proof.
  destruct s as [| x r]; [intros [] |]. intros H.
  apply normalize_query_kept in H; [| discriminate].
  vm_compute in H. discriminate H.
Qed.

(** X18.  [identify] cleans the title before it searches, and cleaning
    turns every author mark into a space: the query made from a title never
    starts or ends with the mark, so none of the marked forms of the
    classifier applies to it. *)
Theorem cleaned_title_has_no_mark s :
  let q := strip (normalize_query s) in
  ~ In 0x23 q
  /\ startswith (u "#") q = false
  /\ endswith (u "#") q = false.
Proof.
  intros q.
  assert (Hq : ~ In 0x23 q).
  { intros H. apply strip_In in H. now apply normalize_query_no_hash in H. }
  split; [exact Hq |]. change (u "#") with [0x23]. split.
  - destruct q as [| x r]; [reflexivity |]. cbn [startswith].
    replace (0x23 =? x) with false; [reflexivity |].
    symmetry. apply N.eqb_neq. intros E. apply Hq. now left.
  - unfold endswith. cbn [rev app].
    destruct (rev q) as [| x r] eqn:E; [reflexivity |]. cbn [startswith].
    replace (0x23 =? x) with false; [reflexivity |].
    symmetry. apply N.eqb_neq. intros Ex. apply Hq. apply in_rev.
    rewrite E. now left.
Qed.

End TitleMarks.

Example marked_title_is_searched_as_title :
  normalize_query (u "#酱子贝#") = u "酱子贝"
  /\ parse_search_keyword (normalize_query (u "#酱子贝#"))
     = (u "酱子贝", SEARCH_TYPE_book)
  /\ parse_search_keyword (u "#酱子贝#") = (u "酱子贝", SEARCH_TYPE_author).
Proof. vm_compute. repeat split. Qed.

(** ** The published date, from the builder to the converter *)

Example pubdate_format_cases :
  pubdate_format (u "2020年01月03日") = Some (u "2020-01-03", FormatDay)
  /\ pubdate_format (u "2020年1月3日") = None
  /\ pubdate_format (u "2020-01") = Some (u "2020-01", FormatMonth)
  /\ pubdate_format (u "2020") = Some (u "2020", FormatYear)
  /\ pubdate_format (u "2020-01-03 12:00:00") = None
  /\ pubdate_format [] = None.
Proof. vm_compute. repeat split. Qed.

Lemma two_digits_spec m :
  m < 100 ->
  exists a b, two_digits m = [a; b]
              /\ ascii_digit a = true /\ ascii_digit b = true.
Proof.
  intros Hm.
  assert (Hall : forallb
            (fun m => match two_digits m with
                      | [a; b] => ascii_digit a && ascii_digit b
                      | _ => false
                      end)
            (map N.of_nat (seq 0 100)) = true) by (vm_compute; reflexivity).
  rewrite forallb_forall in Hall. specialize (Hall m).
  destruct (two_digits m) as [| a [| b [| c r]]];
    try (discriminate Hall; apply in_map_iff; exists (N.to_nat m);
         split; [apply N2Nat.id | apply in_seq; lia]).
  assert (H : ascii_digit a && ascii_digit b = true).
  { apply Hall. apply in_map_iff. exists (N.to_nat m).
    split; [apply N2Nat.id | apply in_seq; lia]. }
  apply andb_true_iff in H. now exists a, b.
Qed.

Lemma span_upto_spec n p : forall s a b,
  span_upto n p s = (a, b) ->
  s = a ++ b /\ forallb p a = true /\ (length a <= n)%nat.
Proof.
  induction n as [| n IH]; intros s a b; cbn [span_upto].
  - intros [= <- <-]. repeat split. cbn. lia.
  - destruct s as [| x r]; [intros [= <- <-]; repeat split; cbn; lia |].
    destruct (p x) eqn:Px; [| intros [= <- <-]; repeat split; cbn; lia].
    destruct (span_upto n p r) as [a' b'] eqn:E. intros [= <- <-].
    destruct (IH _ _ _ E) as (-> & Ha & Hl).
    repeat split; [cbn; now rewrite Px, Ha | cbn; lia].
Qed.

Lemma replace_from_absent c new s :
  ~ In c s -> replace_from [c] new 0 s = s.
Proof.
  induction s as [| x r IH]; [reflexivity |]. intros H.
  cbn [replace_from startswith].
  replace (c =? x) with false.
  - cbn [andb]. rewrite IH; [reflexivity |]. intros Hin. apply H. now right.
  - symmetry. apply N.eqb_neq. intros E. apply H. now left.
Qed.

Section PublishedDate.
Context {U : UnicodeData} {R : Runtime}.

(** the decimal digits of the text are ASCII digits *)
Definition ascii_digits_only (s : str) : bool :=
  forallb (fun c => negb (is_decimal c) || (c <? 128)) s.

(** the digits of a group of a date: decimal, ASCII *)
Definition date_digits (g : str) : Prop :=
  Forall (fun c => ascii_digit c = true) g.

Lemma date_digits_group s g :
  ascii_digits_only s = true -> forallb is_decimal g = true ->
  (forall c, In c g -> In c s) -> date_digits g.
Proof.
  intros Hs Hg Hin. apply Forall_forall. intros c Hc.
  unfold ascii_digits_only in Hs. rewrite forallb_forall in Hs, Hg.
  specialize (Hs c (Hin c Hc)). specialize (Hg c Hc).
  rewrite Hg in Hs. cbn [negb orb] in Hs.
  now apply ascii_decimal.
Qed.

Lemma int_of_date_digits g :
  date_digits g -> g <> [] -> (length g <= 2)%nat ->
  exists m, int_of_digits g = Some m /\ m < 100.
Proof.
  intros Hg Hne Hl.
  assert (Hv : forall c, ascii_digit c = true ->
                 decimal_value c = Some (c - 0x30) /\ c - 0x30 < 10).
  { intros c Hc. pose proof Hc as Hr. unfold ascii_digit in Hr.
    apply in_range_spec in Hr. split; [| lia].
    apply ascii_decimal; [now apply ascii_digit_decimal |].
    apply N.ltb_lt. lia. }
  destruct g as [| a [| b [| c r]]]; [contradiction | | | cbn in Hl; lia].
  - inversion Hg as [| ? ? Ha _]; subst.
    destruct (Hv a Ha) as [Ea La].
    unfold int_of_digits. cbn [int_digits_from]. rewrite Ea.
    eexists. split; [reflexivity | lia].
  - inversion Hg as [| ? ? Ha Hg']; subst.
    inversion Hg' as [| ? ? Hb _]; subst.
    destruct (Hv a Ha) as [Ea La]. destruct (Hv b Hb) as [Eb Lb].
    unfold int_of_digits. cbn [int_digits_from]. rewrite Ea, Eb.
    eexists. split; [reflexivity | lia].
Qed.

Lemma re_one_ok {A} (p : N -> bool) (k : str -> option A) x r :
  p x = true -> re_one p k (x :: r) = k r.
Proof. intros H. cbn [re_one]. now rewrite H. Qed.

(** the shape of the text that the builder makes of a date *)
Lemma full_date_format y1 y2 y3 y4 m1 m2 d1 d2 :
  date_digits [y1; y2; y3; y4; m1; m2; d1; d2] ->
  pubdate_format ([y1; y2; y3; y4] ++ u "-" ++ [m1; m2] ++ u "-" ++ [d1; d2])
  = Some ([y1; y2; y3; y4] ++ u "-" ++ [m1; m2] ++ u "-" ++ [d1; d2],
          FormatDay).
Proof.
  intros Hd. change (u "-") with [0x2D]. cbn [app].
  set (text := [y1; y2; y3; y4; 0x2D; m1; m2; 0x2D; d1; d2]).
  assert (Hascii : forall c, In c text -> c < 128).
  { intros c Hc. unfold date_digits in Hd. rewrite Forall_forall in Hd.
    assert (Hc' : c = 0x2D \/ ascii_digit c = true).
    { subst text. cbn [In] in Hc.
      destruct Hc as [<- | [<- | [<- | [<- | [<- | [<- | [<- | [<- | [<- | [<- | []]]]]]]]]]];
        try (now left); right; apply Hd; cbn [In]; tauto. }
    destruct Hc' as [-> | Hc']; [reflexivity |].
    unfold ascii_digit in Hc'. apply in_range_spec in Hc'. lia. }
  assert (Hrep : forall c new, 128 <= c -> replace [c] new text = text).
  { intros c new Hc. apply replace_from_absent. intros Hin.
    apply Hascii in Hin. lia. }
  assert (Hbody : forall s, s <> [] ->
            pubdate_format s
            = let pubdate_str :=
                replace [0x65E5] []
                  (replace [0x6708] [0x2D] (replace [0x5E74] [0x2D] s)) in
              match re_digits 4
                      (re_dash (re_digits 2 (re_dash (re_digits 2 (re_eol tt)))))
                      pubdate_str with
              | Some _ => Some (pubdate_str, FormatDay)
              | None =>
              match re_digits 4 (re_dash (re_digits 2 (re_eol tt)))
                      pubdate_str with
              | Some _ => Some (pubdate_str, FormatMonth)
              | None =>
              match re_digits 4 (re_eol tt) pubdate_str with
              | Some _ => Some (pubdate_str, FormatYear)
              | None => None
              end end end).
  { intros s Hs. destruct s; [contradiction | reflexivity]. }
  rewrite Hbody by discriminate. cbv zeta.
  rewrite !Hrep by lia.
  assert (Hdec : forall c, In c [y1; y2; y3; y4; m1; m2; d1; d2] ->
                   is_decimal c = true).
  { intros c Hc. apply ascii_digit_decimal. unfold date_digits in Hd.
    rewrite Forall_forall in Hd. now apply Hd. }
  replace (re_digits 4 (re_dash (re_digits 2 (re_dash (re_digits 2 (re_eol tt)))))
             text) with (Some tt); [reflexivity |].
  subst text. cbn [re_digits]. unfold re_dash.
  repeat (rewrite re_one_ok by (first [reflexivity | apply Hdec; cbn [In]; tauto])).
  reflexivity.
Qed.

(** X19.  When the builder recognizes a date in the creation time of a
    payload (four digits, then an optional month and day, with ASCII
    digits), the text it stores as the published date is one that
    [to_metadata] reads with the full-date format, without any of its
    replacements applying. *)
Theorem published_date_is_full_date createtime :
  ascii_digits_only createtime = true ->
  str_isdigit createtime = false ->
  match_date createtime <> None ->
  pubdate_format (published_date createtime)
  = Some (published_date createtime, FormatDay).
Proof.
  intros Hascii Hnd Hm. unfold published_date. rewrite Hnd.
  unfold match_date in *.
  destruct (span_upto 4 is_decimal createtime) as [y r0] eqn:Ey.
  destruct (length y =? 4)%nat eqn:Ly; [| contradiction]. clear Hm.
  apply Nat.eqb_eq in Ly.
  set (r1 := skip_optional _ r0) in *.
  destruct (span_upto 2 is_decimal r1) as [mo r2] eqn:Emo.
  set (r3 := skip_optional _ r2) in *.
  destruct (span_upto 2 is_decimal r3) as [d r4] eqn:Ed.
  apply span_upto_spec in Ey, Emo, Ed.
  destruct Ey as (Ey & Py & _), Emo as (Emo & Pmo & Lmo), Ed as (Ed & Pd & Ld).
  assert (Hskip : forall p s c, In c (skip_optional p s) -> In c s).
  { intros p s c. destruct s as [| x s']; cbn [skip_optional]; [tauto |].
    destruct (p x); cbn [In]; tauto. }
  assert (Hr0 : forall c, In c r0 -> In c createtime).
  { intros c Hc. rewrite Ey. apply in_or_app. now right. }
  assert (Hr1 : forall c, In c r1 -> In c createtime).
  { intros c Hc. apply Hr0. now apply Hskip in Hc. }
  assert (Hr2 : forall c, In c r2 -> In c createtime).
  { intros c Hc. apply Hr1. rewrite Emo. apply in_or_app. now right. }
  assert (Hr3 : forall c, In c r3 -> In c createtime).
  { intros c Hc. apply Hr2. now apply Hskip in Hc. }
  assert (Dy : date_digits y).
  { apply (date_digits_group createtime); try assumption.
    intros c Hc. rewrite Ey. apply in_or_app. now left. }
  assert (Dmo : date_digits mo).
  { apply (date_digits_group createtime); try assumption.
    intros c Hc. apply Hr1. rewrite Emo. apply in_or_app. now left. }
  assert (Dd : date_digits d).
  { apply (date_digits_group createtime); try assumption.
    intros c Hc. apply Hr3. rewrite Ed. apply in_or_app. now left. }
  assert (D01 : date_digits (u "01")) by (repeat constructor).
  set (mo' := match mo with [] => u "01" | _ => mo end).
  set (d' := match d with [] => u "01" | _ => d end).
  assert (Hmo' : exists m, int_of_digits mo' = Some m /\ m < 100).
  { subst mo'. destruct mo as [| c mo0];
      [apply int_of_date_digits; [exact D01 | discriminate | cbn; lia] |].
    apply int_of_date_digits; [exact Dmo | discriminate | exact Lmo]. }
  assert (Hd' : exists n, int_of_digits d' = Some n /\ n < 100).
  { subst d'. destruct d as [| c d0];
      [apply int_of_date_digits; [exact D01 | discriminate | cbn; lia] |].
    apply int_of_date_digits; [exact Dd | discriminate | exact Ld]. }
  destruct Hmo' as (m & -> & Hm100). destruct Hd' as (n & -> & Hn100).
  destruct (two_digits_spec m Hm100) as (m1 & m2 & -> & Hm1 & Hm2).
  destruct (two_digits_spec n Hn100) as (d1 & d2 & -> & Hd1 & Hd2).
  destruct y as [| y1 [| y2 [| y3 [| y4 [| y5 yr]]]]]; try discriminate Ly.
  apply full_date_format.
  unfold date_digits in *.
  inversion Dy as [| ? ? H1 Dy1]; subst. inversion Dy1 as [| ? ? H2 Dy2]; subst.
  inversion Dy2 as [| ? ? H3 Dy3]; subst. inversion Dy3 as [| ? ? H4 _]; subst.
  repeat constructor; assumption.
Qed.

End PublishedDate.

Lemma published_date_is_full_date_witness :
  published_date (U := basic_unicode) (R := basic_runtime) (u "2020年1月3日")
  = u "2020-01-03"
  /\ pubdate_format (U := basic_unicode)
       (published_date (U := basic_unicode) (R := basic_runtime)
          (u "2020年1月3日"))
     = Some (published_date (U := basic_unicode) (R := basic_runtime)
               (u "2020年1月3日"), FormatDay).
Proof.
  split; [vm_compute; reflexivity |].
  apply (published_date_is_full_date (U := basic_unicode) (R := basic_runtime)
           (u "2020年1月3日")).
  - reflexivity.
  - reflexivity.
  - discriminate.
Defined.

(** ** SearchOrchestrator: the effort of [identify] *)

Definition is_http_b (e : event) : bool :=
  match e with EvHttpGet _ => true | _ => false end.

Definition is_search_b (e : event) : bool :=
  match e with EvSearchBooks _ => true | _ => false end.

(** [m] adds to the trace at most [h] requests and [s] calls of
    [search_books], and its result satisfies [P] *)
Definition costs {A} (h s : nat) (P : A -> Prop) (m : M A) : Prop :=
  forall tr, exists evs,
    snd (m tr) = tr ++ evs
    /\ (length (filter is_http_b evs) <= h)%nat
    /\ (length (filter is_search_b evs) <= s)%nat
    /\ P (fst (m tr)).

Lemma costs_ret {A} (P : A -> Prop) h s (a : A) : P a -> costs h s P (ret a).
Proof.
  intros Ha tr. exists []. cbn. rewrite app_nil_r.
  repeat split; [lia | lia | exact Ha].
Qed.

Lemma costs_bind {A B} h1 s1 h2 s2 (P : A -> Prop) (Q : B -> Prop)
    (m : M A) (f : A -> M B) :
  costs h1 s1 P m -> (forall a, P a -> costs h2 s2 Q (f a)) ->
  costs (h1 + h2) (s1 + s2) Q (bind m f).
Proof.
  intros Hm Hf tr. unfold bind.
  destruct (Hm tr) as (e1 & E1 & H1 & S1 & P1).
  destruct (m tr) as [a tr1]. cbn [fst snd] in *. subst tr1.
  destruct (Hf a P1 (tr ++ e1)) as (e2 & E2 & H2 & S2 & Q2).
  exists (e1 ++ e2). rewrite E2, app_assoc, !filter_app, !length_app.
  repeat split; [lia | lia | exact Q2].
Qed.

Lemma costs_weaken {A} h s h' s' (P P' : A -> Prop) (m : M A) :
  costs h s P m -> (h <= h')%nat -> (s <= s')%nat ->
  (forall a, P a -> P' a) -> costs h' s' P' m.
Proof.
  intros Hm Hh Hs HP tr. destruct (Hm tr) as (evs & E & H & S & Pa).
  exists evs. repeat split; [exact E | lia | lia | now apply HP].
Qed.

Lemma costs_requests {A} n (P : A -> Prop) (m : M A) :
  requests n P m -> costs n 0 P m.
Proof.
  intros Hm tr. destruct (Hm tr) as (evs & E & F & Len & Pa).
  exists evs. split; [exact E |].
  assert (Hh : (length (filter is_http_b evs) <= length evs)%nat)
    by apply filter_length_le.
  assert (Hs : filter is_search_b evs = []).
  { clear -F. induction F as [| e l He _ IH]; [reflexivity |].
    destruct e; try destruct He. exact IH. }
  rewrite Hs. repeat split; [lia | cbn; lia | exact Pa].
Qed.

Lemma costs_bind_le {A B} h1 s1 h2 s2 h s (P : A -> Prop) (Q : B -> Prop)
    (m : M A) (f : A -> M B) :
  costs h1 s1 P m -> (forall a, P a -> costs h2 s2 Q (f a)) ->
  (h1 + h2 <= h)%nat -> (s1 + s2 <= s)%nat ->
  costs h s Q (bind m f).
Proof.
  intros Hm Hf Hh Hs.
  eapply costs_weaken; [eapply costs_bind; eassumption | lia | lia | auto].
Qed.

Lemma costs_emit_silent {A} e h s (P : A -> Prop) (m : M A) :
  is_http_b e = false -> is_search_b e = false ->
  costs h s P m -> costs h s P (bind (emit e) (fun _ => m)).
Proof.
  intros He Hs Hm.
  apply (costs_bind_le 0 0 h s h s (fun _ => True)); try lia; [| auto].
  intros tr. exists [e]. cbn. rewrite He, Hs. cbn. repeat split; lia.
Qed.

Lemma fst_bind {A B} (m : M A) (f : A -> M B) (P : B -> Prop) tr :
  (forall a tr', P (fst (f a tr'))) -> P (fst (bind m f tr)).
Proof. intros H. unfold bind. destruct (m tr) as [a tr']. apply H. Qed.

Section Effort.
Context {U : UnicodeData} {R : Runtime} {L : HtmlLibrary} {W : Network}.

Lemma load_book_via_web_costs url h :
  (1 <= h)%nat ->
  costs h 0 (fun _ : option pydict => True) (load_book_via_web url).
Proof.
  intros Hh. eapply costs_weaken;
    [apply costs_requests, load_book_via_web_requests | lia | lia | auto].
Qed.

Lemma load_book_costs self url :
  costs 25 0 (fun _ => True) (load_book self url).
Proof.
  unfold load_book. apply costs_emit_silent; [reflexivity | reflexivity |].
  destruct (extract_novelid url) as [[| c n] |];
    try (apply costs_ret; exact I).
  destruct (jinjiang_prefer_app_api self && truthy (sid self));
    [| apply load_book_via_web_costs; lia].
  apply (costs_bind_le 24 0 1 0 25 0
           (fun res => forall book, res = Some book ->
                         accepted_record (c :: n) book)); try lia.
  - apply costs_requests, load_book_via_app_api_requests.
  - intros book _.
    destruct book as [[| kv b] |];
      try (apply load_book_via_web_costs; lia).
    apply costs_ret. exact I.
Qed.

Lemma run_all_load_book_costs self urls :
  costs (25 * length urls) 0 (fun _ => True)
    (run_all (map (load_book self) urls)).
Proof.
  induction urls as [| url rest IH]; cbn [map run_all].
  { apply costs_ret. exact I. }
  apply (costs_bind_le 25 0 (25 * length rest) 0 _ _ (fun _ => True));
    [apply load_book_costs | | cbn [length]; lia | lia].
  intros a _.
  apply (costs_bind_le (25 * length rest) 0 0 0 _ _ (fun _ => True));
    [exact IH | | lia | lia].
  intros l _. apply costs_ret. exact I.
Qed.

(** the most candidates a search returns *)
Definition capacity (self : searcher) : nat :=
  Z.to_nat (Z.max 0 (max_workers self)).

Lemma search_books_costs self query authors :
  costs (2 + 25 * capacity self) 1 (fun _ => True)
    (search_books self query authors).
Proof.
  unfold search_books.
  set (q := match authors with Some (a :: l) => _ | _ => query end).
  clearbody q.
  apply (costs_bind_le 0 1 (2 + 25 * capacity self) 0 _ _ (fun _ => True));
    try lia.
  { intros tr. exists [EvSearchBooks query]. cbn. repeat split; lia. }
  intros _ _.
  apply (costs_bind_le 2 0 (25 * capacity self) 0 _ _
           (fun urls => (length urls <= capacity self)%nat)); try lia.
  - unfold load_book_urls_new.
    apply costs_emit_silent; [reflexivity | reflexivity |].
    destruct (parse_search_keyword q) as [k ty].
    eapply costs_weaken;
      [apply costs_requests, search_via_app_api_requests | lia | lia |].
    intros urls [_ Hlen]. unfold capacity. lia.
  - intros urls Hlen.
    apply (costs_bind_le (25 * length urls) 0 0 0 _ _ (fun _ => True));
      [apply run_all_load_book_costs | | | lia].
    + intros results _. apply costs_ret. exact I.
    + pose proof (Nat.mul_le_mono_l _ _ 25 Hlen). lia.
Qed.

Lemma search_variations_costs self authors variations : forall books,
  costs (length variations * (2 + 25 * capacity self)) (length variations)
    (fun _ => True) (search_variations self authors variations books).
Proof.
  induction variations as [| var rest IH]; intros books;
    cbn [search_variations].
  { apply costs_ret. exact I. }
  apply (costs_bind_le (2 + 25 * capacity self) 1
           (length rest * (2 + 25 * capacity self)) (length rest) _ _
           (fun _ => True));
    [apply search_books_costs | | cbn [length]; lia | cbn [length]; lia].
  intros found _. destruct found as [| b bs].
  - apply IH.
  - apply costs_ret. exact I.
Qed.

(** X20.  With an id among the identifiers, [identify] makes no search
    and at most twenty-five requests.  Without one it makes at most eight
    searches (the title or the authors, the authors alone, and at most six
    variations of the title) and for each of them at most two search
    requests and twenty-five requests for every candidate, of which there
    are no more than the concurrency size. *)
Theorem identify_effort self aborted title authors identifiers :
  match get_book_url identifiers with
  | Some _ =>
      costs 25 0 (fun _ => True)
        (identify self aborted title authors identifiers)
  | None =>
      costs (8 * (2 + 25 * capacity self)) 8 (fun _ => True)
        (identify self aborted title authors identifiers)
  end.
Proof.
  unfold identify. destruct (get_book_url identifiers) as [[book_id url] |].
  - apply (costs_bind_le 25 0 0 0 _ _ (fun _ => True));
      [apply load_book_costs | | lia | lia].
    intros book _. apply costs_ret. exact I.
  - set (c := (2 + 25 * capacity self)%nat).
    destruct (_ && _); [apply costs_ret; exact I |].
    set (cleaned_title := match title with
                          | Some ((_ :: _) as t) => normalize_query t
                          | _ => []
                          end).
    set (cleaned_authors := match authors with
                            | Some ((_ :: _) as l) => map normalize_query l
                            | _ => []
                            end).
    apply (costs_bind_le c 1 (7 * c) 7 _ _ (fun _ => True));
      [apply search_books_costs | | lia | lia].
    intros books _.
    apply (costs_bind_le c 1 (6 * c) 6 _ _ (fun _ => True)); try lia.
    { destruct books as [| b bs], cleaned_authors as [| a l];
        try (apply costs_ret; exact I).
      apply search_books_costs. }
    intros books2 _.
    apply (costs_bind_le (6 * c) 6 0 0 _ _ (fun _ => True)); try lia.
    { destruct books2 as [| b bs], cleaned_title as [| t0 t];
        try (apply costs_ret; exact I).
      eapply costs_weaken; [apply search_variations_costs | | | auto].
      - apply Nat.mul_le_mono_r. apply title_variations_length.
      - apply title_variations_length. }
    intros books3 _. apply costs_ret. exact I.
Qed.

(** X21.  [identify] returns without a result list exactly when it is
    given nothing to search for: no id, no title and no authors; it then
    leaves the trace as it is. *)
Theorem identify_nothing_to_search self aborted title authors identifiers tr :
  (fst (identify self aborted title authors identifiers tr) = None
   <-> get_book_url identifiers = None
       /\ (title = None \/ title = Some [])
       /\ (authors = None \/ authors = Some []))
  /\ (get_book_url identifiers = None
      /\ (title = None \/ title = Some [])
      /\ (authors = None \/ authors = Some []) ->
      snd (identify self aborted title authors identifiers tr) = tr).
Proof.
  unfold identify.
  destruct (get_book_url identifiers) as [[book_id url] |].
  { split; [split |].
    - apply (fst_bind _ _ (fun r => r = None -> _)). intros a tr'.
      discriminate.
    - intros (H & _). discriminate H.
    - intros (H & _). discriminate H. }
  destruct title as [[| t0 t] |], authors as [[| a0 a] |]; cbn [andb];
    (split; [split |]);
    try (intros (_ & [H | H] & [H' | H']); discriminate);
    try reflexivity;
    try (intros _; repeat split; auto; fail);
    repeat (apply (fst_bind _ _ (fun r => r = None -> _)); intros ? ?);
    discriminate.
Qed.

End Effort.

(** X22.  Delivery stops at the abort signal and skips empty records:
    what [identify] hands over is an initial part of the non-empty records
    found, in their order; all of them when the signal is never set, none
    when it is set from the start. *)
Theorem deliver_initial_part aborted books :
  (forall k, exists rest,
      filter (fun b : pydict => match b with [] => false | _ => true end) books
      = deliver aborted k books ++ rest)
  /\ ((forall k, aborted k = false) ->
      deliver aborted 0 books
      = filter (fun b : pydict => match b with [] => false | _ => true end)
          books)
  /\ (aborted 0%nat = true -> deliver aborted 0 books = []).
Proof.
  split; [| split].
  - induction books as [| b rest IH]; intros k; cbn [deliver filter].
    + now exists [].
    + destruct (aborted k); [now eexists |].
      destruct (IH (S k)) as [r Hr]. destruct b as [| kv b'].
      * now exists r.
      * exists r. cbn [app]. now rewrite Hr.
  - intros Hnever. generalize 0%nat.
    induction books as [| b rest IH]; intros k; cbn [deliver filter];
      [reflexivity |].
    rewrite Hnever. destruct b; now rewrite IH.
  - intros H. destruct books as [| b rest]; cbn [deliver]; [reflexivity |].
    now rewrite H.
Qed.

(** ** [html_to_text] without the optional converter *)

(** a text in which no tag is left: after every [<] comes a [>] at once,
    or none at all *)
Fixpoint tagless (s : str) : Prop :=
  match s with
  | [] => True
  | x :: r =>
      (x = 0x3C ->
       match r with
       | [] => True
       | y :: r' => y = 0x3E \/ ~ In 0x3E r
       end)
      /\ tagless r
  end.

Lemma tagless_fixed s : tagless s -> remove_tags s = s.
Proof.
  unfold remove_tags. induction s as [| x r IH]; [reflexivity |].
  intros [Hx Hr]. cbn [remove_tags_from].
  destruct (x =? 0x3C) eqn:Ex; cbn [andb]; [| now rewrite IH].
  apply N.eqb_eq in Ex. specialize (Hx Ex).
  destruct r as [| y r']; [reflexivity |].
  destruct (y =? 0x3E) eqn:Ey; cbn [negb andb]; [now rewrite IH |].
  apply N.eqb_neq in Ey. destruct Hx as [Hx | Hx]; [contradiction |].
  replace (mem 0x3E r') with false; [now rewrite IH |].
  symmetry. apply mem_not_In. intros Hin. apply Hx. now right.
Qed.

Lemma remove_tags_from_In b s c :
  In c (remove_tags_from b s) -> In c s.
Proof.
  revert b. induction s as [| x r IH]; intros b; [intros [] |].
  cbn [remove_tags_from]. destruct b.
  - destruct (x =? 0x3E); intros H; right; eapply IH; exact H.
  - destruct ((x =? 0x3C) && _).
    + intros H. right. eapply IH; exact H.
    + intros [H | H]; [now left | right; eapply IH; exact H].
Qed.

Lemma remove_tags_from_tagless s : forall b, tagless (remove_tags_from b s).
Proof.
  induction s as [| x r IH]; intros b; [exact I |].
  cbn [remove_tags_from]. destruct b.
  - destruct (x =? 0x3E); apply IH.
  - destruct (x =? 0x3C) eqn:Ex; cbn [andb].
    + destruct r as [| y r']; [split; [intros _; exact I | exact I] |].
      destruct (y =? 0x3E) eqn:Ey; cbn [negb andb].
      * split; [| apply IH]. intros _.
        apply N.eqb_eq in Ey. subst y. cbn [remove_tags_from].
        cbn [N.eqb Pos.eqb andb]. now left.
      * destruct (mem 0x3E r') eqn:Em; [apply IH |].
        split; [| apply IH]. intros _.
        destruct (remove_tags_from false (y :: r')) as [| z t] eqn:Et;
          [exact I |].
        right. rewrite <- Et. intros Hin.
        apply remove_tags_from_In in Hin. destruct Hin as [Hin | Hin].
        -- apply N.eqb_neq in Ey. congruence.
        -- apply mem_not_In in Em. contradiction.
    + split; [| apply IH]. intros E. apply N.eqb_neq in Ex. contradiction.
Qed.

Lemma tagless_tail_free x r :
  tagless (x :: r) -> x = 0x3C ->
  r = [] \/ (exists r', r = 0x3E :: r') \/ ~ In 0x3E r.
Proof.
  intros [Hx _] E. specialize (Hx E). destruct r as [| y r']; [now left |].
  right. destruct Hx as [-> | Hx]; [left; now exists r' | now right].
Qed.

Lemma sub_runs_from_tagless s : forall b,
  tagless s -> tagless (sub_runs_from isspace b s).
Proof.
  induction s as [| x r IH]; intros b Ht; [exact I |].
  pose proof Ht as [Hx Hr]. cbn [sub_runs_from].
  destruct (isspace x) eqn:Sx.
  - destruct b; [now apply IH |].
    split; [discriminate | now apply IH].
  - split; [| now apply IH]. intros E.
    destruct (tagless_tail_free x r Ht E) as [-> | [[r' ->] | Hno]].
    + exact I.
    + cbn [sub_runs_from]. change (isspace 0x3E) with false. cbv iota.
      now left.
    + destruct (sub_runs_from isspace false r) as [| z t] eqn:Et; [exact I |].
      right. rewrite <- Et. intros Hin.
      apply sub_runs_from_In in Hin. destruct Hin as [[Hin _] | Hin];
        [contradiction | discriminate Hin].
Qed.

Lemma tagless_suffix a s : tagless (a ++ s) -> tagless s.
Proof.
  induction a as [| x a IH]; [tauto |]. intros [_ H]. now apply IH.
Qed.

Lemma lstrip_suffix s : exists a, s = a ++ lstrip s.
Proof.
  induction s as [| x r [a IH]]; [now exists [] |].
  cbn [lstrip]. destruct (isspace x).
  - exists (x :: a). cbn. now rewrite <- IH.
  - now exists [].
Qed.

Lemma lstrip_tagless s : tagless s -> tagless (lstrip s).
Proof.
  intros H. destruct (lstrip_suffix s) as [a E]. rewrite E in H.
  now apply tagless_suffix in H.
Qed.

Lemma rstrip_tagless s : tagless s -> tagless (rstrip s).
Proof.
  induction s as [| x r IH]; [tauto |]. intros Ht.
  pose proof Ht as [Hx Hr]. cbn [rstrip].
  destruct (rstrip r) as [| z t] eqn:Et.
  - destruct (isspace x); [exact I |]. split; [intros _; exact I | exact I].
  - split; [| now apply IH]. intros E.
    destruct (tagless_tail_free x r Ht E) as [-> | [[r' ->] | Hno]].
    + discriminate Et.
    + cbn [rstrip] in Et. left.
      destruct (rstrip r'); [| now injection Et as <- _].
      change (isspace 0x3E) with false in Et. now injection Et as <- _.
    + right. rewrite <- Et. intros Hin. apply rstrip_In in Hin.
      contradiction.
Qed.

Lemma collapse_spaces_tagless s : tagless s -> tagless (collapse_spaces s).
Proof.
  intros H. unfold collapse_spaces, strip, sub_runs.
  now apply rstrip_tagless, lstrip_tagless, sub_runs_from_tagless.
Qed.

Section PlainText.
Context {U : UnicodeData} {R : Runtime}.

(** X23.  Without the optional converter, [html_to_text] leaves no tag
    and no run of white space behind, so applying it to its own result
    changes nothing.  (The enrichment may apply it to the description of
    the record, which is a result of it already.) *)
Theorem html_to_text_idempotent html :
  html2text_lib = None ->
  let txt := html_to_text html in
  tagless txt /\ collapse_spaces txt = txt /\ html_to_text txt = txt.
Proof.
  intros Hlib txt. subst txt. unfold html_to_text. rewrite Hlib.
  destruct html as [| x r]; [repeat split |].
  change (strip (sub_runs isspace (remove_tags (x :: r))))
    with (collapse_spaces (remove_tags (x :: r))).
  set (txt := collapse_spaces (remove_tags (x :: r))).
  assert (Ht : tagless txt).
  { apply collapse_spaces_tagless. apply remove_tags_from_tagless. }
  assert (Hc : collapse_spaces txt = txt) by apply collapse_spaces_idem.
  split; [exact Ht |]. split; [exact Hc |].
  destruct txt as [| y t] eqn:E; [reflexivity |].
  rewrite (tagless_fixed _ Ht). exact Hc.
Qed.

End PlainText.

Lemma html_to_text_idempotent_witness :
  html_to_text (R := basic_runtime) (u "<p>a <b>b</b>  c</p> <>") = u "a b c <>"
  /\ html_to_text (R := basic_runtime)
       (html_to_text (R := basic_runtime) (u "<p>a <b>b</b>  c</p> <>"))
     = html_to_text (R := basic_runtime) (u "<p>a <b>b</b>  c</p> <>").
Proof.
  split; [vm_compute; reflexivity |].
  apply (html_to_text_idempotent (R := basic_runtime)
           (u "<p>a <b>b</b>  c</p> <>")).
  reflexivity.
Defined.
